(** * Minesweeper: the game grid of [minesweeper.py]

    A shallow embedding of the classes [Square] and [GameGrid] and of the
    handlers of [MinesweeperApp] that drive them (clicks, new game, game
    over and what is drawn on the buttons), followed by the properties of
    the board that the specification states and by further properties of
    the code.

    Python integers are [Z]; a list is a [list], indexed the way Python
    indexes it (a negative index counts from the end, anything outside
    raises [IndexError]); a method that mutates the grid is a function from
    the grid to the grid it leaves behind together with its outcome, so
    that the state an exception leaves is part of the model. *)

From Stdlib Require Import ZArith Lia Bool Ascii DecimalString.
From stdpp Require Import base option list list_numbers strings.

Local Open Scope Z_scope.

(** ** Outcomes *)

Inductive exn := IndexError | ValueError.

(** The outcome of a call: a value, a raised exception, or [OutOfFuel]
    when the recursion budget of the model is exhausted (the budget is an
    artefact of the embedding: [reveal_rec_fuel] shows that the budget
    used by [GameGrid.reveal] is never exhausted). *)
Inductive res (A : Type) :=
| Ret (a : A)
| Raise (e : exn)
| OutOfFuel.
Arguments Ret {A} a.
Arguments Raise {A} e.
Arguments OutOfFuel {A}.

Definition res_bind {A B} (r : res A) (k : A -> res B) : res B :=
  match r with
  | Ret a => k a
  | Raise e => Raise e
  | OutOfFuel => OutOfFuel
  end.

(** ** Python lists *)

(** [l[i]] for a list of length [len]: the position read, if any. *)
Definition py_index (len : nat) (i : Z) : option nat :=
  if (0 <=? i) && (i <? Z.of_nat len) then Some (Z.to_nat i)
  else if (- Z.of_nat len <=? i) && (i <? 0) then Some (Z.to_nat (Z.of_nat len + i))
  else None.

Definition getitem {A} (l : list A) (i : Z) : res A :=
  match py_index (length l) i with
  | Some k => match l !! k with Some x => Ret x | None => Raise IndexError end
  | None => Raise IndexError
  end.

(** [range(n)] *)
Definition range (n : Z) : list Z := seqZ 0 n.

(** ** Python strings *)

(** [str(n)] of an int: its decimal digits, after a minus sign if it is
    negative. *)
Definition str_int (n : Z) : string := NilZero.string_of_int (Z.to_int n).

(** The string ['\n']. *)
Definition newline : string := String "010"%char EmptyString.

(** [sep.join(l)] *)
Definition join (sep : string) (l : list string) : string := String.concat sep l.

(** Number of elements of [l] satisfying [p]. *)
Fixpoint count_if {A} (p : A -> bool) (l : list A) : nat :=
  match l with
  | [] => O
  | x :: l' => ((if p x then 1 else 0) + count_if p l')%nat
  end.

(** ** random.sample *)

(** [k] elements drawn from [pool] without replacement; the random source
    is the list [rnd] of draws, each reduced to a position of what is left
    of the pool. *)
Fixpoint draw {A} (rnd : list nat) (pool : list A) (k : nat) : list A :=
  match k with
  | O => []
  | S k' =>
      let r := (hd O rnd mod length pool)%nat in
      match pool !! r with
      | Some x => x :: draw (tl rnd) (delete r pool) k'
      | None => []
      end
  end.

(** [random.sample(population, k)]: the library raises [ValueError] when
    [k] is negative or larger than the population. *)
Definition sample {A} (rnd : list nat) (population : list A) (k : Z) : res (list A) :=
  if (0 <=? k) && (k <=? Z.of_nat (length population))
  then Ret (draw rnd population (Z.to_nat k))
  else Raise ValueError.

(** ** class Square *)

Module Square.

Record t := mk {
  row : Z;
  col : Z;
  revealed : bool;
  flagged : bool;
  mined : bool;
  mines_nearby : Z
}.

(** [Square.__init__] *)
Definition init (r c : Z) : t := mk r c false false false 0.

(** [Square.reset] *)
Definition reset (s : t) : t := mk (row s) (col s) false false false 0.

(** Attribute assignments. *)
Definition set_revealed (b : bool) (s : t) : t :=
  mk (row s) (col s) b (flagged s) (mined s) (mines_nearby s).
Definition set_flagged (b : bool) (s : t) : t :=
  mk (row s) (col s) (revealed s) b (mined s) (mines_nearby s).
Definition set_mined (b : bool) (s : t) : t :=
  mk (row s) (col s) (revealed s) (flagged s) b (mines_nearby s).
Definition incr_mines_nearby (s : t) : t :=
  mk (row s) (col s) (revealed s) (flagged s) (mined s) (mines_nearby s + 1).

(** [Square.__str__] *)
Definition str (s : t) : string :=
  if mined s then "*"%string
  else if mines_nearby s =? 0 then "."%string
  else str_int (mines_nearby s).

(** [Square.str_for_player] *)
Definition str_for_player (s : t) : string :=
  if negb (revealed s) then "#"%string
  else if mined s then "*"%string
  else if mines_nearby s =? 0 then "."%string
  else str_int (mines_nearby s).

End Square.

(** ** class GameGrid *)

Module GameGrid.

Record t := mk {
  nrows : Z;
  ncols : Z;
  nmines : Z;
  nflags : Z;
  tab : list (list Square.t);
  squares_revealed : Z
}.

Definition set_tab (tb : list (list Square.t)) (g : t) : t :=
  mk (nrows g) (ncols g) (nmines g) (nflags g) tb (squares_revealed g).
Definition set_nmines (n : Z) (g : t) : t :=
  mk (nrows g) (ncols g) n (nflags g) (tab g) (squares_revealed g).
Definition set_nflags (n : Z) (g : t) : t :=
  mk (nrows g) (ncols g) (nmines g) n (tab g) (squares_revealed g).
Definition set_squares_revealed (n : Z) (g : t) : t :=
  mk (nrows g) (ncols g) (nmines g) (nflags g) (tab g) n.

(** [GameGrid.__init__] *)
Definition init (nr nc : Z) : t :=
  mk nr nc 0 0
     (map (fun i => map (fun j => Square.init i j) (range nc)) (range nr))
     0.

(** [GameGrid.__str__] *)
Definition str (g : t) : string :=
  join newline
    (map (fun line => join EmptyString (map Square.str line)) (tab g)).

(** [GameGrid.str_for_player] *)
Definition str_for_player (g : t) : string :=
  join newline
    (map (fun line => join EmptyString (map Square.str_for_player line)) (tab g)).

(** *** Methods as state transformers *)

(** A method call: the grid it leaves and its outcome. *)
Definition M (A : Type) : Type := t -> t * res A.

Definition ret {A} (a : A) : M A := fun g => (g, Ret a).

Definition bind {A B} (m : M A) (k : A -> M B) : M B :=
  fun g =>
    match m g with
    | (g', Ret a) => k a g'
    | (g', Raise e) => (g', Raise e)
    | (g', OutOfFuel) => (g', OutOfFuel)
    end.

(** A method that only reads the grid. *)
Definition query {A} (q : t -> res A) : M A := fun g => (g, q g).

Definition modify (f : t -> t) : M unit := fun g => (f g, Ret tt).

Declare Scope grid_scope.
Delimit Scope grid_scope with grid.
Notation "x <- m ;; k" := (bind m (fun x => k))
  (at level 100, m at next level, right associativity) : grid_scope.
Notation "m ;; k" := (bind m (fun _ => k))
  (at level 100, right associativity) : grid_scope.
Local Open Scope grid_scope.

(** [for x in l: body(x)] *)
Fixpoint for_each {A} (l : list A) (body : A -> M unit) : M unit :=
  match l with
  | [] => ret tt
  | x :: l' => body x ;; for_each l' body
  end.

(** *** Cells of the table *)

(** The place in the table that [tab[i][j]] denotes, if there is one. *)
Definition locate (tb : list (list Square.t)) (i j : Z) : option (nat * nat) :=
  match py_index (length tb) i with
  | Some r =>
      match tb !! r with
      | Some rw =>
          match py_index (length rw) j with
          | Some c => Some (r, c)
          | None => None
          end
      | None => None
      end
  | None => None
  end.

Definition cell (tb : list (list Square.t)) (p : nat * nat) : option Square.t :=
  match tb !! (fst p) with
  | Some rw => rw !! (snd p)
  | None => None
  end.

Definition alter_cell (f : Square.t -> Square.t) (p : nat * nat)
    (tb : list (list Square.t)) : list (list Square.t) :=
  alter (alter f (snd p)) (fst p) tb.

(** [square_at]: [self.tab[i][j]] *)
Definition square_at (g : t) (i j : Z) : res Square.t :=
  res_bind (getitem (tab g) i) (fun rw => getitem rw j).

(** An attribute assignment on the object [self.tab[i][j]]: every Square
    sits at one place of the table, so the assignment is an update of
    that place. *)
Definition update_square (i j : Z) (f : Square.t -> Square.t) : M unit :=
  fun g =>
    match locate (tab g) i j with
    | Some p => (set_tab (alter_cell f p (tab g)) g, Ret tt)
    | None => (g, Raise IndexError)
    end.

Definition is_revealed (g : t) (i j : Z) : res bool :=
  res_bind (square_at g i j) (fun s => Ret (Square.revealed s)).

Definition is_flagged (g : t) (i j : Z) : res bool :=
  res_bind (square_at g i j) (fun s => Ret (Square.flagged s)).

Definition mine_at (g : t) (i j : Z) : res bool :=
  res_bind (square_at g i j) (fun s => Ret (Square.mined s)).

Definition mines_nearby (g : t) (i j : Z) : res Z :=
  res_bind (square_at g i j) (fun s => Ret (Square.mines_nearby s)).

(** *** neighbors *)

(** The order in which CPython iterates over the set literal [{-1,0,1}]. *)
Definition offsets : list Z := [0; 1; -1].

Definition neighbors (g : t) (i j : Z) : list (Z * Z) :=
  flat_map (fun m =>
    flat_map (fun l =>
      if (m =? l) && (m =? 0) then []
      else if (0 <=? i + m) && (i + m <? nrows g)
              && (0 <=? j + l) && (j + l <? ncols g)
           then [(i + m, j + l)]
           else [])
      offsets)
    offsets.

(** *** game_won, game_lost *)

(** A loop that returns True at the first element satisfying [p]. *)
Fixpoint any_res {A} (l : list A) (p : A -> res bool) : res bool :=
  match l with
  | [] => Ret false
  | x :: l' =>
      match p x with
      | Ret true => Ret true
      | Ret false => any_res l' p
      | Raise e => Raise e
      | OutOfFuel => OutOfFuel
      end
  end.

Definition game_lost (g : t) : res bool :=
  any_res (range (nrows g)) (fun i =>
    any_res (range (ncols g)) (fun j =>
      res_bind (mine_at g i j) (fun m =>
        if m then is_revealed g i j else Ret false))).

Definition game_won (g : t) : res bool :=
  res_bind (game_lost g) (fun lost =>
    Ret (negb lost && (nrows g * ncols g - squares_revealed g =? nmines g))).

(** *** reset *)

Definition reset : M unit :=
  modify (fun g =>
    set_squares_revealed 0
      (set_nflags 0
        (set_nmines 0
          (set_tab (map (map Square.reset) (tab g)) g)))).

(** *** reveal *)

Fixpoint reveal_rec (fuel : nat) (i j : Z) : M unit :=
  match fuel with
  | O => fun g => (g, OutOfFuel)
  | S fuel' =>
      r <- query (fun g => is_revealed g i j) ;;
      stop <- (if r then ret true else query (fun g => is_flagged g i j)) ;;
      if stop then ret tt
      else
        square <- query (fun g => square_at g i j) ;;
        update_square i j (Square.set_revealed true) ;;
        modify (fun g => set_squares_revealed (squares_revealed g + 1) g) ;;
        cascade <- (if negb (Square.mined square)
                    then n <- query (fun g => mines_nearby g i j) ;; ret (n =? 0)
                    else ret false) ;;
        if cascade
        then ns <- query (fun g => Ret (neighbors g i j)) ;;
             for_each ns (fun '(x, y) => reveal_rec fuel' x y)
        else ret tt
  end.

(** Number of Squares held by the table. *)
Definition nsquares (g : t) : nat := length (concat (tab g)).

(** [reveal]: the recursion is given one level more than there are
    Squares, which it never uses up. *)
Definition reveal (i j : Z) : M unit :=
  fun g => reveal_rec (S (nsquares g)) i j g.

(** *** chording *)

Definition flags_nearby (g : t) (i j : Z) : res Z :=
  fold_left (fun count '(x, y) =>
      res_bind count (fun c =>
        res_bind (square_at g x y) (fun square =>
          Ret (if Square.flagged square then c + 1 else c))))
    (neighbors g i j) (Ret 0).

Definition chording (i j : Z) : M unit :=
  f <- query (fun g => flags_nearby g i j) ;;
  m <- query (fun g => mines_nearby g i j) ;;
  if f =? m
  then ns <- query (fun g => Ret (neighbors g i j)) ;;
       for_each ns (fun '(x, y) => reveal x y)
  else ret tt.

(** *** flags *)

Definition place_flag (i j : Z) : M unit :=
  square <- query (fun g => square_at g i j) ;;
  if negb (Square.flagged square)
  then update_square i j (Square.set_flagged true) ;;
       modify (fun g => set_nflags (nflags g + 1) g)
  else ret tt.

Definition remove_flag (i j : Z) : M unit :=
  square <- query (fun g => square_at g i j) ;;
  if Square.flagged square
  then update_square i j (Square.set_flagged false) ;;
       modify (fun g => set_nflags (nflags g - 1) g)
  else ret tt.

(** *** place_mine *)

Definition place_mine (i j : Z) : M unit :=
  square <- query (fun g => square_at g i j) ;;
  if Square.mined square
  then ret tt
  else
    update_square i j (Square.set_mined true) ;;
    ns <- query (fun g => Ret (neighbors g i j)) ;;
    for_each ns (fun '(x, y) => update_square x y Square.incr_mines_nearby) ;;
    modify (fun g => set_nmines (nmines g + 1) g).

(** *** random_game *)

Definition population (g : t) : list (Z * Z) :=
  flat_map (fun j => map (fun i => (i, j)) (range (nrows g))) (range (ncols g)).

Definition random_game (rnd : list nat) (n_mines : Z) : M unit :=
  reset ;;
  chosen <- query (fun g => sample rnd (population g) n_mines) ;;
  for_each chosen (fun '(x, y) => place_mine x y).

End GameGrid.

(** ** class MinesweeperApp: what a right click does to the game *)

Module MinesweeperApp.
Import GameGrid.
Local Open Scope grid_scope.

Definition right_click_handler (i j : Z) : M unit :=
  r <- query (fun g => is_revealed g i j) ;;
  if r then ret tt
  else
    f <- query (fun g => is_flagged g i j) ;;
    if negb f then place_flag i j else remove_flag i j.

(** *** What is drawn *)

(** The options [draw_cell] sets on the button of a Square: every path
    through it assigns the image, the text, the relief and the state. The
    text is [''] ([None]) or the count. *)
Inductive image := no_image | mine_image | flag_image.

Inductive relief := SUNKEN | RAISED.

Inductive state := normal | disabled.

Record button := mk_button {
  image_of : image;
  text_of : option Z;
  relief_of : relief;
  state_of : state
}.

(** [draw_cell]: the button is [self.board[i][j]], a table with the
    dimensions of the grid; its options are computed from the grid. *)
Definition draw_cell (g : t) (i j : Z) : res button :=
  res_bind (is_revealed g i j) (fun revealed =>
    if revealed then
      res_bind (mine_at g i j) (fun mined =>
        if mined then Ret (mk_button mine_image None SUNKEN normal)
        else
          res_bind (mines_nearby g i j) (fun n =>
            Ret (mk_button no_image (if n =? 0 then None else Some n)
                           SUNKEN disabled)))
    else
      res_bind (is_flagged g i j) (fun flagged =>
        if flagged then Ret (mk_button flag_image None RAISED normal)
        else Ret (mk_button no_image None RAISED disabled))).

(** [[f(x) for x in l]], stopping at the first exception. *)
Fixpoint map_res {A B} (f : A -> res B) (l : list A) : res (list B) :=
  match l with
  | [] => Ret []
  | x :: l' =>
      res_bind (f x) (fun y =>
        res_bind (map_res f l') (fun ys => Ret (y :: ys)))
  end.

(** [draw_board]: the options of all the buttons, row by row. *)
Definition draw_board (g : t) : res (list (list button)) :=
  map_res (fun i => map_res (fun j => draw_cell g i j) (range (ncols g)))
          (range (nrows g)).

(** *** New game, game over, left click *)

(** [new_game]; [rnd] is the random source of [random.sample]. The timer
    ([t_0], [started]) is not part of the game and is left out. *)
Definition new_game (rnd : list nat) : M unit :=
  n <- query (fun g => Ret (nmines g)) ;;
  reset ;;
  query draw_board ;;
  random_game rnd n.

(** [game_over(win)]: [win] selects the message of the dialog, [yes] is the
    answer of the player to [askyesno]. On no the window is destroyed and
    the grid stays as it is. *)
Definition game_over (win : bool) (yes : bool) (rnd : list nat) : M unit :=
  if yes then new_game rnd else ret tt.

(** [left_click_handler(i, j)], with the answers to the two possible
    dialogs and the random sources of the two possible new games. The
    start of the timer on the first click is left out. *)
Definition left_click_handler (yes_lost yes_won : bool)
    (rnd_lost rnd_won : list nat) (i j : Z) : M unit :=
  f <- query (fun g => is_flagged g i j) ;;
  if f then ret tt
  else
    (r <- query (fun g => is_revealed g i j) ;;
     if r then chording i j else reveal i j) ;;
    query draw_board ;;
    lost <- query game_lost ;;
    (if lost then game_over false yes_lost rnd_lost else ret tt) ;;
    won <- query game_won ;;
    if won then game_over true yes_won rnd_won else ret tt.

End MinesweeperApp.

(** ** Sequences of calls *)

Inductive op :=
| Reveal (i j : Z)
| Chord (i j : Z)
| PlaceFlag (i j : Z)
| RemoveFlag (i j : Z)
| PlaceMine (i j : Z)
| NewGame (rnd : list nat) (n_mines : Z)
| Reset.

Definition run_op (o : op) : GameGrid.M unit :=
  match o with
  | Reveal i j => GameGrid.reveal i j
  | Chord i j => GameGrid.chording i j
  | PlaceFlag i j => GameGrid.place_flag i j
  | RemoveFlag i j => GameGrid.remove_flag i j
  | PlaceMine i j => GameGrid.place_mine i j
  | NewGame rnd n => GameGrid.random_game rnd n
  | Reset => GameGrid.reset
  end.

(** The grid after a call, whether it returned or raised. *)
Definition step (o : op) (g : GameGrid.t) : GameGrid.t := fst (run_op o g).

Definition run (os : list op) (g : GameGrid.t) : GameGrid.t :=
  fold_left (fun g o => step o g) os g.

(** ** Sequences of events of the application *)

Inductive event :=
| LeftClick (i j : Z) (yes_lost yes_won : bool) (rnd_lost rnd_won : list nat)
| RightClick (i j : Z)
| NewGameButton (rnd : list nat).

Definition handle (e : event) : GameGrid.M unit :=
  match e with
  | LeftClick i j yes_lost yes_won rnd_lost rnd_won =>
      MinesweeperApp.left_click_handler yes_lost yes_won rnd_lost rnd_won i j
  | RightClick i j => MinesweeperApp.right_click_handler i j
  | NewGameButton rnd => MinesweeperApp.new_game rnd
  end.

(** The grid after the handlers of the events [es] have run. *)
Definition play (es : list event) (g : GameGrid.t) : GameGrid.t :=
  fold_left (fun g e => fst (handle e g)) es g.

(** The grid the application is started on: [GameGrid(nr, nc)] followed by
    [random_game(n)]; the program takes 10, 10 and 15. *)
Definition start (nr nc n : Z) (rnd : list nat) : GameGrid.t :=
  fst (GameGrid.random_game rnd n (GameGrid.init nr nc)).

(** * Vocabulary of the properties *)

Import GameGrid.
Local Open Scope grid_scope.

(** A boolean as 0 or 1. *)
Definition b2n (b : bool) : nat := if b then 1%nat else 0%nat.

(** Number of Squares of the table satisfying [p]. *)
Definition count2 (p : Square.t -> bool) (tb : list (list Square.t)) : nat :=
  count_if p (concat tb).

(** The two assignments of [reveal] on the Square at place [p]. *)
Definition mark (p : nat * nat) (g : t) : t :=
  set_squares_revealed (squares_revealed g + 1)
    (set_tab (alter_cell (Square.set_revealed true) p (tab g)) g).

(** The two assignments of [place_flag] on the Square at place [p]. *)
Definition flag_at (p : nat * nat) (g : t) : t :=
  set_nflags (nflags g + 1)
    (set_tab (alter_cell (Square.set_flagged true) p (tab g)) g).

(** The two assignments of [remove_flag] on the Square at place [p]. *)
Definition unflag_at (p : nat * nat) (g : t) : t :=
  set_nflags (nflags g - 1)
    (set_tab (alter_cell (Square.set_flagged false) p (tab g)) g).

(** [nflags] and [squares_revealed] count the flagged and the revealed
    Squares (invariant 1). *)
Definition counts_ok (g : t) : Prop :=
  nflags g = Z.of_nat (count2 Square.flagged (tab g)) /\
  squares_revealed g = Z.of_nat (count2 Square.revealed (tab g)).

(** [keeps I g g']: if [I] holds of [g] it holds of [g']. *)
Definition keeps (I : t -> Prop) (g g' : t) : Prop := I g -> I g'.

(** The table has [nrows] rows of [ncols] Squares each. *)
Definition shape_ok (g : t) : Prop :=
  length (tab g) = Z.to_nat (nrows g) /\
  Forall (fun rw => length rw = Z.to_nat (ncols g)) (tab g).

(** [(i, j)] is a position of the board. *)
Definition inb (g : t) (i j : Z) : Prop :=
  0 <= i < nrows g /\ 0 <= j < ncols g.

(** Number of Squares not yet revealed. *)
Definition unrevealed (g : t) : nat :=
  count2 (fun s => negb (Square.revealed s)) (tab g).

(** [for x in l: body(x)], collecting what the bodies report. *)
Fixpoint for_each_log {A B} (l : list A) (body : A -> M (list B)) : M (list B) :=
  match l with
  | [] => ret []
  | x :: l' => a <- body x ;; b <- for_each_log l' body ;; ret (a ++ b)
  end.

(** [reveal] instrumented: the same statements as [reveal_rec], reporting
    the positions whose Square a call got past the guard and marked. *)
Fixpoint reveal_log (fuel : nat) (i j : Z) : M (list (Z * Z)) :=
  match fuel with
  | O => fun g => (g, OutOfFuel)
  | S fuel' =>
      r <- query (fun g => is_revealed g i j) ;;
      stop <- (if r then ret true else query (fun g => is_flagged g i j)) ;;
      if stop then ret []
      else
        square <- query (fun g => square_at g i j) ;;
        update_square i j (Square.set_revealed true) ;;
        modify (fun g => set_squares_revealed (squares_revealed g + 1) g) ;;
        cascade <- (if negb (Square.mined square)
                    then n <- query (fun g => mines_nearby g i j) ;; ret (n =? 0)
                    else ret false) ;;
        if cascade
        then ns <- query (fun g => Ret (neighbors g i j)) ;;
             rest <- for_each_log ns (fun '(x, y) => reveal_log fuel' x y) ;;
             ret ((i, j) :: rest)
        else ret [(i, j)]
  end.

(** An outcome without its value. *)
Definition forget {A} (r : res A) : res unit :=
  match r with
  | Ret _ => Ret tt
  | Raise e => Raise e
  | OutOfFuel => OutOfFuel
  end.

(** What a terminated [reveal] has done, in terms of the positions [log]
    it processed between the grids [g] and [g']. *)
Definition rev_post (g : t) (log : list (Z * Z)) (g' : t) : Prop :=
  shape_ok g' /\ nrows g' = nrows g /\ ncols g' = ncols g /\
  NoDup log /\
  (forall x y, (x, y) ∈ log ->
     inb g x y /\ is_revealed g x y = Ret false /\ is_revealed g' x y = Ret true) /\
  (forall x y, is_revealed g x y = Ret true -> is_revealed g' x y = Ret true) /\
  (unrevealed g' + length log = unrevealed g)%nat /\
  squares_revealed g' = squares_revealed g + Z.of_nat (length log).

(** No Square is both revealed and flagged (invariant 2). *)
Definition nfr (g : t) : Prop :=
  forall p s, cell (tab g) p = Some s ->
    Square.revealed s && Square.flagged s = false.

(** [place_flag] is only applied to Squares that are not revealed, as the
    right-click handler does. *)
Fixpoint guarded (os : list op) (g : t) : Prop :=
  match os with
  | [] => True
  | o :: os' =>
      match o with
      | PlaceFlag i j => is_revealed g i j <> Ret true
      | _ => True
      end /\ guarded os' (step o g)
  end.


(** The Square at position [p] exists and is mined. *)
Definition mined_at (g : t) (p : Z * Z) : bool :=
  match mine_at g (fst p) (snd p) with Ret true => true | _ => false end.

(** Revealed Squares stay revealed, flags and the shape of the board do
    not change. *)
Definition rev_frame (g g' : t) : Prop :=
  (shape_ok g -> shape_ok g') /\
  nrows g' = nrows g /\ ncols g' = ncols g /\
  (forall x y, is_revealed g x y = Ret true -> is_revealed g' x y = Ret true) /\
  (forall x y, is_flagged g' x y = is_flagged g x y).

(** The eight positions around [(i, j)], in the order [neighbors] visits
    them. *)
Definition around (i j : Z) : list (Z * Z) :=
  [(i + 0, j + 1); (i + 0, j + -1);
   (i + 1, j + 0); (i + 1, j + 1); (i + 1, j + -1);
   (i + -1, j + 0); (i + -1, j + 1); (i + -1, j + -1)].

(** The bounds test of [neighbors]. *)
Definition inbb (g : t) (p : Z * Z) : bool :=
  (0 <=? fst p) && (fst p <? nrows g) && (0 <=? snd p) && (snd p <? ncols g).

(** [g'] is [g] with [f] applied to the Squares at the positions [ps] of
    the board, and nothing else changed. *)
Definition altered (f : Square.t -> Square.t) (ps : list (Z * Z)) (g g' : t) : Prop :=
  shape_ok g' /\ nrows g' = nrows g /\ ncols g' = ncols g /\
  nmines g' = nmines g /\ nflags g' = nflags g /\
  squares_revealed g' = squares_revealed g /\
  forall a b, inb g a b ->
    exists s, square_at g a b = Ret s /\
              square_at g' a b = Ret (if decide ((a, b) ∈ ps) then f s else s).

(** What [place_mine i j] does to the Square at [(a, b)]. *)
Definition mine_effect (g : t) (i j a b : Z) (s : Square.t) : Square.t :=
  let s1 := if decide ((a, b) = (i, j)) then Square.set_mined true s else s in
  if decide ((a, b) ∈ neighbors g i j) then Square.incr_mines_nearby s1 else s1.

(** [g'] is [g] after a mine was placed at [(i, j)]. *)
Definition mined_step (i j : Z) (g g' : t) : Prop :=
  shape_ok g' /\ nrows g' = nrows g /\ ncols g' = ncols g /\
  nmines g' = nmines g + 1 /\ nflags g' = nflags g /\
  squares_revealed g' = squares_revealed g /\
  forall a b, inb g a b ->
    exists s, square_at g a b = Ret s /\
              square_at g' a b = Ret (mine_effect g i j a b s).

(** Every Square of the board caches the number of mines around it
    (invariant 4). *)
Definition nearby_ok (g : t) : Prop :=
  forall a b, inb g a b ->
    exists s, square_at g a b = Ret s /\
      Square.mines_nearby s = Z.of_nat (count_if (mined_at g) (neighbors g a b)).

(** [nmines] counts the mined Squares (invariant 3). *)
Definition mines_ok (g : t) : Prop :=
  nmines g = Z.of_nat (count2 Square.mined (tab g)).

(** The three invariants that mine placement maintains. *)
Definition mines_inv (g : t) : Prop :=
  shape_ok g /\ nearby_ok g /\ mines_ok g.

(** Every Square is blank. *)
Definition blank (g : t) : Prop :=
  forall p s, cell (tab g) p = Some s ->
    Square.revealed s = false /\ Square.flagged s = false /\
    Square.mined s = false /\ Square.mines_nearby s = 0.

(** A 3x3 board whose only mine is at (2,2). *)
Definition board_3x3 : t := fst (place_mine 2 2 (init 3 3)).

(** The same board after [reveal(0,0)]. *)
Definition revealed_3x3 : t := fst (reveal 0 0 board_3x3).

(** The board of the chording example: mines at (0,0) and (0,2), the
    Square (1,1) between them revealed with count 2, one flag at (0,0). *)
Definition chord_board : t :=
  run [PlaceMine 0 0; PlaceMine 0 2; Reveal 1 1; PlaceFlag 0 0] (init 3 3).

(** Every Square sits at the place its [row] and [col] name. *)
Definition coords_ok (g : t) : Prop :=
  forall r c s, cell (tab g) (r, c) = Some s ->
    Square.row s = Z.of_nat r /\ Square.col s = Z.of_nat c.

(** What stays the same between [g] and [g'] when only Squares get
    revealed: the dimensions, the mines, the flags, their counters and the
    cached counts; revealed Squares stay revealed. *)
Definition sq_frame (g g' : t) : Prop :=
  nrows g' = nrows g /\ ncols g' = ncols g /\
  nmines g' = nmines g /\ nflags g' = nflags g /\
  squares_revealed g <= squares_revealed g' /\
  (forall x y, mine_at g' x y = mine_at g x y) /\
  (forall x y, is_flagged g' x y = is_flagged g x y) /\
  (forall x y, mines_nearby g' x y = mines_nearby g x y) /\
  (forall x y, is_revealed g x y = Ret true -> is_revealed g' x y = Ret true).

(** The dimensions of the board are [nr] and [nc]. *)
Definition dims_are (nr nc : Z) (g : t) : Prop :=
  nrows g = nr /\ ncols g = nc.

(** A well-shaped grid whose mine counter counts. *)
Definition sm_ok (g : t) : Prop := shape_ok g /\ mines_ok g.

(** What the flood fill of [reveal] has done between [g] and [g'], where
    [log] are the positions it processed: the Squares at the other
    positions of the board are as revealed as before, and around every
    processed position without a mine and with count 0 every neighbor is
    revealed or flagged. *)
Definition fill_post (g : t) (log : list (Z * Z)) (g' : t) : Prop :=
  (forall x y, inb g x y -> (x, y) ∉ log ->
     is_revealed g' x y = is_revealed g x y) /\
  (forall x y, (x, y) ∈ log ->
     mine_at g x y = Ret false -> mines_nearby g x y = Ret 0 ->
     forall a b, (a, b) ∈ neighbors g x y ->
       is_revealed g' a b = Ret true \/ is_flagged g' a b = Ret true).

(** Every processed position is one of [start] or a neighbor of a
    processed position without a mine and with count 0. *)
Definition justified (g : t) (start log : list (Z * Z)) : Prop :=
  forall x y, (x, y) ∈ log ->
    (x, y) ∈ start \/
    exists a b, (a, b) ∈ log /\ mine_at g a b = Ret false /\
                mines_nearby g a b = Ret 0 /\ (x, y) ∈ neighbors g a b.

(** No mine of the board is revealed. *)
Definition no_mine_revealed (g : t) : Prop :=
  forall x y, inb g x y -> mine_at g x y = Ret true -> is_revealed g x y <> Ret true.


(** What stays the same between [g] and [g'] when no mine is placed: the
    dimensions, [nmines] and every Square's [mined] and [mines_nearby]. *)
Definition mine_frame (g g' : t) : Prop :=
  nrows g' = nrows g /\ ncols g' = ncols g /\ nmines g' = nmines g /\
  (forall x y, mine_at g' x y = mine_at g x y) /\
  (forall x y, mines_nearby g' x y = mines_nearby g x y).

(** The invariant of the application on a board of [nr] by [nc] Squares
    started with [n] mines. *)
Definition app_ok (nr nc n : Z) (g : t) : Prop :=
  dims_are nr nc g /\ nmines g = n /\ shape_ok g /\ counts_ok g /\
  mines_ok g /\ nearby_ok g /\ nfr g.



(** The button of a Square that is neither revealed nor flagged. *)
Definition blank_button : MinesweeperApp.button :=
  MinesweeperApp.mk_button MinesweeperApp.no_image None
    MinesweeperApp.RAISED MinesweeperApp.disabled.

(** Two grids that look the same to the player: the same Squares are
    revealed and flagged, and the revealed ones hold the same mines and
    the same counts. *)
Definition same_view (g1 g2 : t) : Prop :=
  nrows g1 = nrows g2 /\ ncols g1 = ncols g2 /\
  forall i j, inb g1 i j ->
    is_revealed g1 i j = is_revealed g2 i j /\
    is_flagged g1 i j = is_flagged g2 i j /\
    (is_revealed g1 i j = Ret true ->
       mine_at g1 i j = mine_at g2 i j /\
       mines_nearby g1 i j = mines_nearby g2 i j).

(** The calls that leave the mines and the revealed Squares in place:
    all but [random_game] and [reset]. *)
Definition keeps_game (o : op) : bool :=
  match o with
  | NewGame _ _ | Reset => false
  | _ => true
  end.

(** Some Square of the table is a revealed mine. *)
Definition lost_cell (g : t) : Prop :=
  exists p s, cell (tab g) p = Some s /\
    Square.revealed s = true /\ Square.mined s = true.

(** The character that stands for a Square holding [k] mines around, in
    [0..9]: ['.'] for none, the digit otherwise. *)
Definition count_char (k : Z) : ascii :=
  if k =? 0 then "."%char else ascii_of_nat (48 + Z.to_nat k).

(** [text] is a picture of the table [tb] drawn with [f]: one line per
    row, the lines joined by newlines, and in every line one character per
    Square, the one that [f] gives, which is not a newline. *)
Definition picture (f : Square.t -> ascii) (tb : list (list Square.t))
    (text : string) : Prop :=
  exists lines,
    text = join newline lines /\ length lines = length tb /\
    forall r rw, tb !! r = Some rw ->
      exists line, lines !! r = Some line /\
        String.length line = length rw /\
        forall c s, rw !! c = Some s ->
          String.get c line = Some (f s) /\ f s <> "010"%char.

(** * Properties *)

(** ** Indexing *)

Lemma py_index_lt len i k : py_index len i = Some k -> (k < len)%nat.
Proof.
  unfold py_index. intros H.
  destruct (0 <=? i) eqn:E1, (i <? Z.of_nat len) eqn:E2; simpl in H;
    try (injection H as <-; lia);
    destruct (- Z.of_nat len <=? i) eqn:E3, (i <? 0) eqn:E4; simpl in H;
    try discriminate; injection H as <-; lia.
Qed.

Lemma py_index_inb len i :
  0 <= i < Z.of_nat len -> py_index len i = Some (Z.to_nat i).
Proof.
  intros H. unfold py_index.
  replace (0 <=? i) with true by lia. replace (i <? Z.of_nat len) with true by lia.
  reflexivity.
Qed.

Lemma locate_cell tb i j p :
  locate tb i j = Some p -> exists s, cell tb p = Some s.
Proof.
  unfold locate, cell. intros H.
  destruct (py_index (length tb) i) as [r|] eqn:Er; [|discriminate].
  destruct (tb !! r) as [rw|] eqn:Erw; [|discriminate].
  destruct (py_index (length rw) j) as [c|] eqn:Ec; [|discriminate].
  injection H as <-. simpl. rewrite Erw.
  apply py_index_lt in Ec. apply lookup_lt_is_Some_2 in Ec. destruct Ec as [s Hs]. eauto.
Qed.

(** [square_at] reads the located cell, and raises [IndexError] when there
    is none. *)
Lemma square_at_locate g i j :
  square_at g i j =
    match locate (tab g) i j with
    | Some p => match cell (tab g) p with Some s => Ret s | None => Raise IndexError end
    | None => Raise IndexError
    end.
Proof.
  unfold square_at, getitem, locate, cell.
  destruct (py_index (length (tab g)) i) as [r|] eqn:Er; [|reflexivity].
  destruct (tab g !! r) as [rw|] eqn:Erw; [|reflexivity]. simpl.
  destruct (py_index (length rw) j) as [c|] eqn:Ec; [|reflexivity].
  simpl. rewrite Erw. reflexivity.
Qed.

Lemma square_at_Ret g i j s :
  square_at g i j = Ret s <->
  exists p, locate (tab g) i j = Some p /\ cell (tab g) p = Some s.
Proof.
  rewrite square_at_locate. split.
  - destruct (locate (tab g) i j) as [p|]; [|discriminate].
    destruct (cell (tab g) p) as [s'|] eqn:E; [|discriminate].
    intros [= <-]. eauto.
  - intros (p & -> & ->). reflexivity.
Qed.

Lemma square_at_cases g i j :
  (exists p s, locate (tab g) i j = Some p /\ cell (tab g) p = Some s
               /\ square_at g i j = Ret s)
  \/ (locate (tab g) i j = None /\ square_at g i j = Raise IndexError).
Proof.
  rewrite square_at_locate.
  destruct (locate (tab g) i j) as [p|] eqn:E; [left|right; auto].
  destruct (locate_cell _ _ _ _ E) as [s Hs]. exists p, s. rewrite Hs. auto.
Qed.

Lemma locate_alter_cell f q tb i j :
  locate (alter_cell f q tb) i j = locate tb i j.
Proof.
  unfold locate, alter_cell. rewrite length_alter.
  destruct (py_index (length tb) i) as [r|]; [|reflexivity].
  rewrite list_lookup_alter. destruct (decide (fst q = r)) as [->|Hne].
  - destruct (tb !! r) as [rw|]; simpl; [|reflexivity].
    rewrite length_alter. reflexivity.
  - reflexivity.
Qed.

Lemma cell_alter_cell_eq f p tb :
  cell (alter_cell f p tb) p = f <$> cell tb p.
Proof.
  unfold cell, alter_cell. rewrite list_lookup_alter_eq.
  destruct (tb !! fst p) as [rw|]; simpl; [|reflexivity].
  apply list_lookup_alter_eq.
Qed.

Lemma cell_alter_cell_ne f p q tb :
  p <> q -> cell (alter_cell f p tb) q = cell tb q.
Proof.
  intros Hne. unfold cell, alter_cell. destruct p as [r c], q as [r' c']; simpl.
  rewrite list_lookup_alter. destruct (decide (r = r')) as [->|Hr]; [|reflexivity].
  destruct (tb !! r') as [rw|]; simpl; [|reflexivity].
  apply list_lookup_alter_ne. congruence.
Qed.

Lemma cell_alter_cell f p q tb :
  cell (alter_cell f p tb) q = if decide (p = q) then f <$> cell tb q else cell tb q.
Proof.
  destruct (decide (p = q)) as [->|Hne].
  - apply cell_alter_cell_eq.
  - apply cell_alter_cell_ne, Hne.
Qed.

(** ** Counting Squares *)

Lemma count_if_app {A} (p : A -> bool) l1 l2 :
  count_if p (l1 ++ l2) = (count_if p l1 + count_if p l2)%nat.
Proof. induction l1 as [|x l1 IH]; simpl; [reflexivity|]. rewrite IH. lia. Qed.

Lemma count_if_le_length {A} (p : A -> bool) l : (count_if p l <= length l)%nat.
Proof. induction l as [|x l IH]; simpl; [lia|]. destruct (p x); lia. Qed.

Lemma count_if_alter {A} (p : A -> bool) f k l x :
  l !! k = Some x ->
  (count_if p (alter f k l) + b2n (p x) = count_if p l + b2n (p (f x)))%nat.
Proof.
  revert k. induction l as [|y l IH]; intros [|k] H; simpl in *; try discriminate.
  - injection H as ->. unfold b2n. destruct (p x), (p (f x)); lia.
  - specialize (IH _ H). unfold alter in IH. lia.
Qed.

Lemma count2_alter_cell p f q tb s :
  cell tb q = Some s ->
  (count2 p (alter_cell f q tb) + b2n (p s) = count2 p tb + b2n (p (f s)))%nat.
Proof.
  unfold cell, alter_cell, count2. destruct q as [r c]. simpl. revert r.
  induction tb as [|rw tb IH]; intros [|r] H; simpl in *; try discriminate.
  - rewrite !count_if_app. pose proof (count_if_alter p f c rw s H). lia.
  - rewrite !count_if_app. specialize (IH _ H).
    change (list_alter (alter f c) r tb) with (alter (alter f c) r tb). lia.
Qed.

(** ** One level of [reveal] *)

Lemma reveal_rec_S fuel i j g :
  reveal_rec (S fuel) i j g =
    match square_at g i j with
    | Ret s =>
        if Square.revealed s || Square.flagged s then (g, Ret tt)
        else
          match locate (tab g) i j with
          | Some p =>
              if negb (Square.mined s) && (Square.mines_nearby s =? 0)
              then for_each (neighbors g i j)
                     (fun '(x, y) => reveal_rec fuel x y) (mark p g)
              else (mark p g, Ret tt)
          | None => (g, Raise IndexError)
          end
    | Raise e => (g, Raise e)
    | OutOfFuel => (g, OutOfFuel)
    end.
Proof.
  cbn [reveal_rec]. unfold bind at 1. unfold query at 1. unfold is_revealed.
  destruct (square_at_cases g i j) as [(p & s & Hl & Hc & Hs)|[Hl Hs]];
    rewrite Hs; simpl; [|reflexivity].
  destruct (Square.revealed s) eqn:Er; simpl.
  { reflexivity. }
  unfold bind at 1. unfold query at 1. unfold is_flagged. rewrite Hs. simpl.
  destruct (Square.flagged s) eqn:Ef; simpl.
  { reflexivity. }
  unfold bind at 1. unfold query at 1. rewrite Hs.
  unfold bind at 1. unfold update_square. rewrite Hl.
  unfold bind at 1. unfold modify at 1.
  fold (mark p g).
  destruct (Square.mined s) eqn:Em; simpl.
  - reflexivity.
  - unfold bind at 1. unfold bind at 1. unfold query at 1. unfold mines_nearby.
    unfold mark at 1.
    replace (square_at _ i j) with (Ret (Square.set_revealed true s)).
    2:{ symmetry. rewrite square_at_locate. simpl.
        rewrite locate_alter_cell, Hl, cell_alter_cell_eq, Hc. reflexivity. }
    simpl. fold (mark p g).
    destruct (Square.mines_nearby s =? 0); simpl; reflexivity.
Qed.

(** ** Relating the grid before and after a call *)

Section Rel.
Variable R : t -> t -> Prop.
Hypothesis R_refl : forall g, R g g.
Hypothesis R_trans : forall a b c, R a b -> R b c -> R a c.

Lemma bind_rel {A B} (m : M A) (k : A -> M B) g :
  R g (fst (m g)) -> (forall a g', R g' (fst (k a g'))) ->
  R g (fst (bind m k g)).
Proof.
  intros Hm Hk. unfold bind. destruct (m g) as [g1 [a|e|]]; simpl in *; auto.
  eapply R_trans; [exact Hm|apply Hk].
Qed.

Lemma for_each_rel {A} (body : A -> M unit) l :
  (forall x g, R g (fst (body x g))) ->
  forall g, R g (fst (for_each l body g)).
Proof.
  intros Hb. induction l as [|x l IH]; intros g; simpl.
  - apply R_refl.
  - apply bind_rel; auto.
Qed.

Hypothesis R_mark : forall g i j p s,
  locate (tab g) i j = Some p -> cell (tab g) p = Some s ->
  Square.revealed s = false -> Square.flagged s = false ->
  R g (mark p g).

Lemma reveal_rec_rel fuel : forall i j g, R g (fst (reveal_rec fuel i j g)).
Proof.
  induction fuel as [|fuel IH]; intros i j g.
  - apply R_refl.
  - rewrite reveal_rec_S.
    destruct (square_at_cases g i j) as [(p & s & Hl & Hc & Hs)|[Hl Hs]];
      rewrite Hs; [|apply R_refl].
    destruct (Square.revealed s) eqn:Er; [apply R_refl|].
    destruct (Square.flagged s) eqn:Ef; [apply R_refl|]. simpl.
    rewrite Hl.
    pose proof (R_mark g i j p s Hl Hc Er Ef) as Hm.
    destruct (negb (Square.mined s) && (Square.mines_nearby s =? 0)); [|exact Hm].
    eapply R_trans; [exact Hm|].
    apply for_each_rel. intros [x y] g'. apply IH.
Qed.

Lemma reveal_rel i j g : R g (fst (reveal i j g)).
Proof. apply reveal_rec_rel. Qed.

Lemma chording_rel i j g : R g (fst (chording i j g)).
Proof.
  unfold chording. apply bind_rel; [apply R_refl|]. intros f g1.
  apply bind_rel; [apply R_refl|]. intros m g2.
  destruct (f =? m); [|apply R_refl].
  apply bind_rel; [apply R_refl|]. intros ns g3.
  apply for_each_rel. intros [x y] g4. apply reveal_rel.
Qed.

End Rel.

(** ** The flag and reveal operations, unfolded *)

Lemma place_flag_eq i j g :
  place_flag i j g =
    match square_at g i j with
    | Ret s =>
        if Square.flagged s then (g, Ret tt)
        else match locate (tab g) i j with
             | Some p => (flag_at p g, Ret tt)
             | None => (g, Raise IndexError)
             end
    | Raise e => (g, Raise e)
    | OutOfFuel => (g, OutOfFuel)
    end.
Proof.
  unfold place_flag, bind, query.
  destruct (square_at g i j) as [s|e|]; try reflexivity.
  destruct (Square.flagged s); simpl; [reflexivity|].
  unfold update_square. destruct (locate (tab g) i j); reflexivity.
Qed.

Lemma remove_flag_eq i j g :
  remove_flag i j g =
    match square_at g i j with
    | Ret s =>
        if Square.flagged s
        then match locate (tab g) i j with
             | Some p => (unflag_at p g, Ret tt)
             | None => (g, Raise IndexError)
             end
        else (g, Ret tt)
    | Raise e => (g, Raise e)
    | OutOfFuel => (g, OutOfFuel)
    end.
Proof.
  unfold remove_flag, bind, query.
  destruct (square_at g i j) as [s|e|]; try reflexivity.
  destruct (Square.flagged s); simpl; [|reflexivity].
  unfold update_square. destruct (locate (tab g) i j); reflexivity.
Qed.

Lemma place_mine_eq i j g :
  place_mine i j g =
    match square_at g i j with
    | Ret s =>
        if Square.mined s then (g, Ret tt)
        else match locate (tab g) i j with
             | Some p =>
                 (for_each (neighbors g i j)
                    (fun '(x, y) => update_square x y Square.incr_mines_nearby) ;;
                  modify (fun g => set_nmines (nmines g + 1) g))
                   (set_tab (alter_cell (Square.set_mined true) p (tab g)) g)
             | None => (g, Raise IndexError)
             end
    | Raise e => (g, Raise e)
    | OutOfFuel => (g, OutOfFuel)
    end.
Proof.
  unfold place_mine. unfold bind at 1. unfold query at 1.
  destruct (square_at g i j) as [s|e|]; try reflexivity.
  destruct (Square.mined s); simpl; [reflexivity|].
  unfold bind at 1. unfold update_square at 1.
  destruct (locate (tab g) i j); reflexivity.
Qed.

(** ** The counters count *)

Lemma keeps_refl I g : keeps I g g.
Proof. unfold keeps. auto. Qed.

Lemma keeps_trans I a b c : keeps I a b -> keeps I b c -> keeps I a c.
Proof. unfold keeps. auto. Qed.

Section Keeps.
Variable I : t -> Prop.

Lemma keeps_bind {A B} (m : M A) (k : A -> M B) g :
  keeps I g (fst (m g)) -> (forall a g', keeps I g' (fst (k a g'))) ->
  keeps I g (fst (bind m k g)).
Proof. apply bind_rel. intros a b c. apply keeps_trans. Qed.

Lemma keeps_for_each {A} (body : A -> M unit) l :
  (forall x g, keeps I g (fst (body x g))) ->
  forall g, keeps I g (fst (for_each l body g)).
Proof.
  apply for_each_rel; [apply keeps_refl|intros a b c; apply keeps_trans].
Qed.

Hypothesis keeps_mark : forall g i j p s,
  locate (tab g) i j = Some p -> cell (tab g) p = Some s ->
  Square.revealed s = false -> Square.flagged s = false ->
  keeps I g (mark p g).

Lemma keeps_reveal i j g : keeps I g (fst (reveal i j g)).
Proof.
  apply reveal_rel;
    [apply keeps_refl|intros a b c; apply keeps_trans|exact keeps_mark].
Qed.

Lemma keeps_chording i j g : keeps I g (fst (chording i j g)).
Proof.
  apply chording_rel;
    [apply keeps_refl|intros a b c; apply keeps_trans|exact keeps_mark].
Qed.

End Keeps.

Lemma counts_ok_mark g i j p s :
  locate (tab g) i j = Some p -> cell (tab g) p = Some s ->
  Square.revealed s = false -> Square.flagged s = false ->
  keeps counts_ok g (mark p g).
Proof.
  intros _ Hc Er Ef [Hf Hr]. unfold counts_ok, mark. simpl.
  pose proof (count2_alter_cell Square.flagged (Square.set_revealed true) p _ s Hc) as H1.
  pose proof (count2_alter_cell Square.revealed (Square.set_revealed true) p _ s Hc) as H2.
  simpl in H1, H2. rewrite Er in H2. rewrite Ef in H1. simpl in H1, H2. lia.
Qed.

(** An assignment that touches neither [flagged] nor [revealed]. *)
Lemma counts_ok_update_square i j f g :
  (forall s, Square.flagged (f s) = Square.flagged s) ->
  (forall s, Square.revealed (f s) = Square.revealed s) ->
  keeps counts_ok g (fst (update_square i j f g)).
Proof.
  intros Hf Hr [H1 H2]. unfold update_square.
  destruct (locate (tab g) i j) as [p|] eqn:Hl; simpl; [|split; assumption].
  destruct (locate_cell _ _ _ _ Hl) as [s Hc].
  pose proof (count2_alter_cell Square.flagged f p _ s Hc) as E1.
  pose proof (count2_alter_cell Square.revealed f p _ s Hc) as E2.
  rewrite Hf in E1. rewrite Hr in E2. unfold counts_ok. simpl. lia.
Qed.

Lemma counts_ok_place_flag i j g : keeps counts_ok g (fst (place_flag i j g)).
Proof.
  intros [H1 H2]. rewrite place_flag_eq.
  destruct (square_at_cases g i j) as [(p & s & Hl & Hc & Hs)|[Hl Hs]];
    rewrite Hs; simpl; [|split; assumption].
  destruct (Square.flagged s) eqn:Ef; simpl; [split; assumption|].
  rewrite Hl. simpl.
  pose proof (count2_alter_cell Square.flagged (Square.set_flagged true) p _ s Hc) as E1.
  pose proof (count2_alter_cell Square.revealed (Square.set_flagged true) p _ s Hc) as E2.
  simpl in E1, E2. rewrite Ef in E1. simpl in E1. unfold counts_ok. simpl. lia.
Qed.

Lemma counts_ok_remove_flag i j g : keeps counts_ok g (fst (remove_flag i j g)).
Proof.
  intros [H1 H2]. rewrite remove_flag_eq.
  destruct (square_at_cases g i j) as [(p & s & Hl & Hc & Hs)|[Hl Hs]];
    rewrite Hs; simpl; [|split; assumption].
  destruct (Square.flagged s) eqn:Ef; simpl; [|split; assumption].
  rewrite Hl. simpl.
  pose proof (count2_alter_cell Square.flagged (Square.set_flagged false) p _ s Hc) as E1.
  pose proof (count2_alter_cell Square.revealed (Square.set_flagged false) p _ s Hc) as E2.
  simpl in E1, E2. rewrite Ef in E1. simpl in E1. unfold counts_ok. simpl. lia.
Qed.

Lemma counts_ok_place_mine i j g : keeps counts_ok g (fst (place_mine i j g)).
Proof.
  rewrite place_mine_eq.
  destruct (square_at_cases g i j) as [(p & s & Hl & Hc & Hs)|[Hl Hs]];
    rewrite Hs; simpl; [|apply keeps_refl].
  destruct (Square.mined s) eqn:Em; simpl; [apply keeps_refl|].
  rewrite Hl.
  eapply keeps_trans.
  - pose proof (counts_ok_update_square i j (Square.set_mined true) g) as H.
    unfold update_square in H. rewrite Hl in H. simpl in H. apply H; reflexivity.
  - apply keeps_bind.
    + apply keeps_for_each.
      intros [x y] g'. apply counts_ok_update_square; reflexivity.
    + intros _ g' H. exact H.
Qed.

Lemma count_if_map_none {A B} (p : B -> bool) (f : A -> B) l :
  (forall x, p (f x) = false) -> count_if p (map f l) = 0%nat.
Proof.
  intros Hp. induction l as [|x l IH]; simpl; [reflexivity|]. rewrite Hp, IH. reflexivity.
Qed.

Lemma count_if_reset (p : Square.t -> bool) tb :
  (forall s, p (Square.reset s) = false) ->
  count2 p (map (map Square.reset) tb) = 0%nat.
Proof.
  intros Hp. unfold count2. induction tb as [|rw tb IH]; simpl; [reflexivity|].
  rewrite count_if_app, IH, count_if_map_none by exact Hp. reflexivity.
Qed.

Lemma counts_ok_reset g : counts_ok (fst (reset g)).
Proof.
  unfold counts_ok, reset, modify. simpl.
  rewrite !count_if_reset by reflexivity. split; reflexivity.
Qed.

Lemma counts_ok_random_game rnd n g : counts_ok (fst (random_game rnd n g)).
Proof.
  unfold random_game. unfold bind at 1. unfold reset at 1, modify. cbv beta.
  match goal with |- counts_ok (fst (bind ?m ?k ?g0)) =>
    assert (counts_ok g0) as H0 by apply (counts_ok_reset g);
    revert H0; generalize g0 end.
  intros g0. fold (keeps counts_ok g0 (fst
    ((chosen <- query (fun g1 => sample rnd (population g1) n);;
      for_each chosen (fun '(x, y) => place_mine x y)) g0))).
  apply keeps_bind; [apply keeps_refl|].
  intros chosen g1. apply keeps_for_each.
  intros [x y] g2. apply counts_ok_place_mine.
Qed.

Lemma counts_ok_step o g : counts_ok g -> counts_ok (step o g).
Proof.
  unfold step. destruct o as [i j|i j|i j|i j|i j|rnd n|]; simpl.
  - apply keeps_reveal, counts_ok_mark.
  - apply keeps_chording, counts_ok_mark.
  - apply counts_ok_place_flag.
  - apply counts_ok_remove_flag.
  - apply counts_ok_place_mine.
  - intros _. apply counts_ok_random_game.
  - intros _. apply counts_ok_reset.
Qed.

Lemma counts_ok_init nr nc : counts_ok (init nr nc).
Proof.
  unfold counts_ok, init. simpl.
  assert (forall p, (forall r c, p (Square.init r c) = false) ->
            count2 p (map (fun i => map (fun j => Square.init i j) (range nc)) (range nr)) = 0%nat) as H.
  { intros p Hp. unfold count2. induction (range nr) as [|i l IH]; simpl; [reflexivity|].
    rewrite count_if_app, IH, count_if_map_none by (intros j; apply Hp). reflexivity. }
  rewrite !H by reflexivity. split; reflexivity.
Qed.

Lemma counts_ok_run os : forall g, counts_ok g -> counts_ok (run os g).
Proof.
  unfold run. induction os as [|o os IH]; intros g Hg; simpl; [exact Hg|].
  apply IH, counts_ok_step, Hg.
Qed.

(** ** Well-shaped grids and positions on the board *)

Lemma shape_ok_init nr nc : shape_ok (init nr nc).
Proof.
  unfold shape_ok, init, range. simpl. split.
  - rewrite length_map, length_seqZ. reflexivity.
  - apply Forall_forall. intros rw Hrw. apply list_elem_of_In, in_map_iff in Hrw.
    destruct Hrw as (i & <- & _). rewrite length_map, length_seqZ. reflexivity.
Qed.

Lemma locate_inb g i j :
  shape_ok g -> inb g i j ->
  locate (tab g) i j = Some (Z.to_nat i, Z.to_nat j).
Proof.
  intros [Hr Hc] [Hi Hj]. unfold locate.
  rewrite py_index_inb by lia.
  destruct (tab g !! Z.to_nat i) as [rw|] eqn:E.
  - assert (length rw = Z.to_nat (ncols g)) as Hl.
    { eapply Forall_lookup_1 in Hc; eauto. }
    rewrite py_index_inb by lia. reflexivity.
  - apply lookup_ge_None in E. lia.
Qed.

Lemma square_at_inb g i j :
  shape_ok g -> inb g i j ->
  exists s, cell (tab g) (Z.to_nat i, Z.to_nat j) = Some s /\ square_at g i j = Ret s.
Proof.
  intros Hs Hb. pose proof (locate_inb g i j Hs Hb) as Hl.
  destruct (locate_cell _ _ _ _ Hl) as [s Hc]. exists s. split; [exact Hc|].
  rewrite square_at_locate, Hl, Hc. reflexivity.
Qed.

(** ** neighbors *)

Lemma neighbors_filter g i j :
  neighbors g i j = List.filter (inbb g) (around i j).
Proof.
  unfold neighbors, offsets, around, inbb. simpl.
  repeat match goal with
  | |- context [if ?b then _ else _] => destruct b; simpl
  end; reflexivity.
Qed.

Lemma NoDup_around i j : List.NoDup (around i j).
Proof.
  unfold around.
  repeat (constructor; [simpl; intros H;
    repeat match goal with H : _ \/ _ |- _ => destruct H as [H|H] end;
    try contradiction; injection H; lia|]).
  constructor.
Qed.

Lemma NoDup_neighbors g i j : NoDup (neighbors g i j).
Proof.
  rewrite neighbors_filter. apply NoDup_ListNoDup.
  apply List.NoDup_filter, NoDup_around.
Qed.

(** The neighbors of [(i, j)] are the positions of the board next to it. *)
Lemma elem_of_neighbors g i j x y :
  (x, y) ∈ neighbors g i j <->
  inb g x y /\ (x, y) <> (i, j) /\ i - 1 <= x <= i + 1 /\ j - 1 <= y <= j + 1.
Proof.
  rewrite neighbors_filter, list_elem_of_In, List.filter_In.
  unfold inbb, inb, around. simpl. split.
  - intros [H Hb].
    repeat match goal with H : _ \/ _ |- _ => destruct H as [H|H] end;
      try contradiction; injection H as <- <-;
      (split; [lia|]); (split; [intros [= ? ?]; lia|lia]).
  - intros ([Hx Hy] & Hne & Hi & Hj). split; [|lia].
    assert (x = i + 0 \/ x = i + 1 \/ x = i + -1) as Hx' by lia.
    assert (y = j + 0 \/ y = j + 1 \/ y = j + -1) as Hy' by lia.
    destruct Hx' as [-> | [-> | ->]], Hy' as [-> | [-> | ->]]; auto 10.
    exfalso. apply Hne. f_equal; lia.
Qed.

Lemma neighbors_sym g i j x y :
  inb g i j -> ((x, y) ∈ neighbors g i j <-> inb g x y /\ (i, j) ∈ neighbors g x y).
Proof.
  intros Hb. rewrite !elem_of_neighbors. split.
  - intros (H1 & H2 & H3 & H4). split; [exact H1|]. split; [exact Hb|].
    split; [congruence|lia].
  - intros (H1 & _ & H2 & H3 & H4). split; [exact H1|]. split; [congruence|lia].
Qed.

Lemma neighbors_inb g i j x y :
  (x, y) ∈ neighbors g i j -> inb g x y.
Proof. intros H. apply elem_of_neighbors in H. tauto. Qed.

Lemma shape_ok_set_tab_alter f p g :
  shape_ok g -> shape_ok (set_tab (alter_cell f p (tab g)) g).
Proof.
  intros [Hr Hc]. unfold shape_ok, alter_cell. simpl. split.
  - rewrite length_alter. exact Hr.
  - apply Forall_lookup. intros k rw Hk.
    rewrite list_lookup_alter in Hk. destruct (decide (fst p = k)) as [->|Hne].
    + destruct (tab g !! k) as [rw0|] eqn:E; simpl in Hk; [|discriminate].
      injection Hk as <-. rewrite length_alter. eapply Forall_lookup_1 in Hc; eauto.
    + eapply Forall_lookup_1 in Hc; eauto.
Qed.

(** ** [reveal] terminates *)

Lemma unrevealed_le_nsquares g : (unrevealed g <= nsquares g)%nat.
Proof. apply count_if_le_length. Qed.

Lemma unrevealed_mark g p s :
  cell (tab g) p = Some s -> Square.revealed s = false ->
  (unrevealed (mark p g) + 1 = unrevealed g)%nat.
Proof.
  intros Hc Er. unfold unrevealed, mark. simpl.
  pose proof (count2_alter_cell (fun s => negb (Square.revealed s))
                (Square.set_revealed true) p _ s Hc) as H.
  simpl in H. rewrite Er in H. simpl in H. lia.
Qed.






(** ** The Squares that [reveal] processes *)

Lemma reveal_log_S fuel i j g :
  reveal_log (S fuel) i j g =
    match square_at g i j with
    | Ret s =>
        if Square.revealed s || Square.flagged s then (g, Ret [])
        else
          match locate (tab g) i j with
          | Some p =>
              if negb (Square.mined s) && (Square.mines_nearby s =? 0)
              then (rest <- for_each_log (neighbors g i j)
                              (fun '(x, y) => reveal_log fuel x y) ;;
                    ret ((i, j) :: rest)) (mark p g)
              else (mark p g, Ret [(i, j)])
          | None => (g, Raise IndexError)
          end
    | Raise e => (g, Raise e)
    | OutOfFuel => (g, OutOfFuel)
    end.
Proof.
  cbn [reveal_log]. unfold bind at 1. unfold query at 1. unfold is_revealed.
  destruct (square_at_cases g i j) as [(p & s & Hl & Hc & Hs)|[Hl Hs]];
    rewrite Hs; simpl; [|reflexivity].
  destruct (Square.revealed s) eqn:Er; simpl.
  { reflexivity. }
  unfold bind at 1. unfold query at 1. unfold is_flagged. rewrite Hs. simpl.
  destruct (Square.flagged s) eqn:Ef; simpl.
  { reflexivity. }
  unfold bind at 1. unfold query at 1. rewrite Hs.
  unfold bind at 1. unfold update_square. rewrite Hl.
  unfold bind at 1. unfold modify at 1.
  fold (mark p g).
  destruct (Square.mined s) eqn:Em; simpl.
  - reflexivity.
  - unfold bind at 1. unfold bind at 1. unfold query at 1. unfold mines_nearby.
    unfold mark at 1.
    replace (square_at _ i j) with (Ret (Square.set_revealed true s)).
    2:{ symmetry. rewrite square_at_locate. simpl.
        rewrite locate_alter_cell, Hl, cell_alter_cell_eq, Hc. reflexivity. }
    simpl. fold (mark p g).
    destruct (Square.mines_nearby s =? 0); simpl; reflexivity.
Qed.

Lemma for_each_log_forget {A B} (body : A -> M unit) (body' : A -> M (list B)) l :
  (forall x g, body x g = (fst (body' x g), forget (snd (body' x g)))) ->
  forall g, for_each l body g =
            (fst (for_each_log l body' g), forget (snd (for_each_log l body' g))).
Proof.
  intros Hb. induction l as [|x l IH]; intros g; simpl; [reflexivity|].
  unfold bind. rewrite Hb.
  destruct (body' x g) as [g1 [a|e|]]; simpl; try reflexivity.
  rewrite IH.
  destruct (for_each_log l body' g1) as [g2 [b|e|]]; reflexivity.
Qed.

(** The instrumented [reveal] leaves the grid and the outcome of [reveal]. *)
Lemma reveal_log_forget fuel : forall i j g,
  reveal_rec fuel i j g =
    (fst (reveal_log fuel i j g), forget (snd (reveal_log fuel i j g))).
Proof.
  induction fuel as [|fuel IH]; intros i j g; [reflexivity|].
  rewrite reveal_rec_S, reveal_log_S.
  destruct (square_at g i j) as [s|e|]; try reflexivity.
  destruct (Square.revealed s || Square.flagged s); [reflexivity|].
  destruct (locate (tab g) i j) as [p|]; [|reflexivity].
  destruct (negb (Square.mined s) && (Square.mines_nearby s =? 0)); [|reflexivity].
  rewrite (for_each_log_forget _ (fun '(x, y) => reveal_log fuel x y)).
  2:{ intros [x y] g'. apply IH. }
  unfold bind.
  destruct (for_each_log _ _ (mark p g)) as [g2 [b|e|]]; reflexivity.
Qed.

Lemma is_revealed_inb g x y :
  shape_ok g -> inb g x y -> exists b, is_revealed g x y = Ret b.
Proof.
  intros Hs Hb. destruct (square_at_inb g x y Hs Hb) as (s & _ & E).
  unfold is_revealed. rewrite E. simpl. eauto.
Qed.

Lemma is_revealed_mark_mono g p x y :
  is_revealed g x y = Ret true -> is_revealed (mark p g) x y = Ret true.
Proof.
  unfold is_revealed. rewrite !square_at_locate. simpl.
  rewrite locate_alter_cell.
  destruct (locate (tab g) x y) as [q|]; [|discriminate].
  rewrite cell_alter_cell. destruct (decide (p = q)) as [->|Hne]; [|auto].
  destruct (cell (tab g) q) as [s|]; simpl; [|discriminate]. reflexivity.
Qed.

Lemma is_revealed_mark_same g i j p :
  locate (tab g) i j = Some p -> is_revealed (mark p g) i j = Ret true.
Proof.
  intros Hl. destruct (locate_cell _ _ _ _ Hl) as [s Hc].
  unfold is_revealed, mark.
  rewrite square_at_locate. simpl.
  rewrite locate_alter_cell, Hl, cell_alter_cell_eq, Hc. reflexivity.
Qed.

Lemma shape_ok_mark p g : shape_ok g -> shape_ok (mark p g).
Proof. intros H. apply (shape_ok_set_tab_alter (Square.set_revealed true) p g H). Qed.

Lemma rev_post_nil g : shape_ok g -> rev_post g [] g.
Proof.
  intros Hs. unfold rev_post.
  split; [exact Hs|]. split; [reflexivity|]. split; [reflexivity|].
  split; [constructor|].
  split; [intros x y H; apply elem_of_nil in H; contradiction|].
  split; [auto|]. simpl. split; lia.
Qed.

Lemma rev_post_mark g i j p s :
  shape_ok g -> inb g i j ->
  locate (tab g) i j = Some p -> cell (tab g) p = Some s ->
  Square.revealed s = false ->
  rev_post g [(i, j)] (mark p g).
Proof.
  intros Hs Hb Hl Hc Er.
  assert (is_revealed g i j = Ret false) as E0.
  { unfold is_revealed. rewrite square_at_locate, Hl, Hc. simpl. rewrite Er. reflexivity. }
  unfold rev_post. split; [apply shape_ok_mark, Hs|].
  split; [reflexivity|]. split; [reflexivity|].
  split; [apply NoDup_singleton|].
  split.
  { intros x y Hin. apply list_elem_of_singleton in Hin. injection Hin as -> ->.
    split; [exact Hb|]. split; [exact E0|]. apply is_revealed_mark_same, Hl. }
  split; [intros x y; apply is_revealed_mark_mono|].
  split.
  - pose proof (unrevealed_mark g p s Hc Er). simpl. lia.
  - simpl. lia.
Qed.

Lemma rev_post_app g l1 g1 l2 g2 :
  shape_ok g ->
  rev_post g l1 g1 -> rev_post g1 l2 g2 -> rev_post g (l1 ++ l2) g2.
Proof.
  intros Hs (S1 & R1 & C1 & N1 & L1 & M1 & U1 & Q1) (S2 & R2 & C2 & N2 & L2 & M2 & U2 & Q2).
  assert (forall x y, (x, y) ∈ l2 -> inb g x y /\ is_revealed g x y = Ret false) as L2'.
  { intros x y Hin. destruct (L2 x y Hin) as ((Hx & Hy) & F1 & _).
    assert (inb g x y) as Hb by (unfold inb; rewrite <- R1, <- C1; auto).
    split; [exact Hb|].
    destruct (is_revealed_inb g x y Hs Hb) as [[|] E]; [|exact E].
    apply M1 in E. congruence. }
  unfold rev_post. split; [exact S2|].
  split; [congruence|]. split; [congruence|].
  split.
  { apply NoDup_app. split; [exact N1|]. split; [|exact N2].
    intros [x y] H1 H2. destruct (L1 x y H1) as (_ & _ & T).
    destruct (L2 x y H2) as (_ & F & _). congruence. }
  split.
  { intros x y Hin. apply elem_of_app in Hin. destruct Hin as [Hin|Hin].
    - destruct (L1 x y Hin) as (Hb & F & T). auto.
    - destruct (L2' x y Hin) as (Hb & F). destruct (L2 x y Hin) as (_ & _ & T). auto. }
  split; [auto|].
  rewrite length_app. split; lia.
Qed.

Lemma for_each_log_post (body : Z * Z -> M (list (Z * Z))) (n : nat) ns :
  (forall x y g, shape_ok g -> inb g x y -> (unrevealed g < n)%nat ->
     exists log g', body (x, y) g = (g', Ret log) /\ rev_post g log g') ->
  forall g, shape_ok g -> (forall x y, (x, y) ∈ ns -> inb g x y) ->
    (unrevealed g < n)%nat ->
    exists log g', for_each_log ns body g = (g', Ret log) /\ rev_post g log g'.
Proof.
  intros Hb. induction ns as [|[x y] ns IH]; intros g Hs Hin Hn; simpl.
  - exists [], g. split; [reflexivity|apply rev_post_nil, Hs].
  - destruct (Hb x y g Hs (Hin x y ltac:(left)) Hn) as (l1 & g1 & E1 & P1).
    pose proof P1 as (S1 & R1 & C1 & _ & _ & _ & U1 & _).
    destruct (IH g1 S1) as (l2 & g2 & E2 & P2).
    { intros x' y' H. unfold inb. rewrite R1, C1. apply Hin. right. exact H. }
    { lia. }
    exists (l1 ++ l2), g2. split.
    + unfold bind. rewrite E1, E2. reflexivity.
    + eapply rev_post_app; eauto.
Qed.

(** With a budget above the number of unrevealed Squares, [reveal] at a
    position of a well-shaped board returns, and processes no position
    twice. *)
Lemma reveal_log_post fuel : forall i j g,
  shape_ok g -> inb g i j -> (unrevealed g < fuel)%nat ->
  exists log g', reveal_log fuel i j g = (g', Ret log) /\ rev_post g log g'.
Proof.
  induction fuel as [|fuel IH]; intros i j g Hs Hb Hn; [lia|].
  rewrite reveal_log_S.
  pose proof (locate_inb g i j Hs Hb) as Hl.
  destruct (square_at_inb g i j Hs Hb) as (s & Hc & E). rewrite E.
  destruct (Square.revealed s) eqn:Er; simpl.
  { exists [], g. split; [reflexivity|apply rev_post_nil, Hs]. }
  destruct (Square.flagged s) eqn:Ef; simpl.
  { exists [], g. split; [reflexivity|apply rev_post_nil, Hs]. }
  rewrite Hl.
  pose proof (rev_post_mark g i j _ s Hs Hb Hl Hc Er) as Pm.
  set (p := (Z.to_nat i, Z.to_nat j)) in *.
  destruct (negb (Square.mined s) && (Square.mines_nearby s =? 0)).
  2:{ exists [(i, j)], (mark p g). split; [reflexivity|exact Pm]. }
  pose proof Pm as (S1 & R1 & C1 & _ & _ & _ & U1 & _).
  destruct (for_each_log_post (fun '(x, y) => reveal_log fuel x y) fuel
              (neighbors g i j)) with (g := mark p g) as (l2 & g2 & E2 & P2).
  - intros x y g' Hs' Hb' Hn'. apply IH; assumption.
  - exact S1.
  - intros x y H. apply neighbors_inb in H. exact H.
  - simpl in U1. lia.
  - exists ((i, j) :: l2), g2. split.
    + unfold bind. rewrite E2. reflexivity.
    + apply (rev_post_app g [(i, j)] (mark p g) l2 g2 Hs Pm P2).
Qed.

(** ** game_lost and game_won *)

Lemma any_res_total {A} (l : list A) (p : A -> res bool) :
  (forall x, x ∈ l -> exists b, p x = Ret b) ->
  exists b, any_res l p = Ret b /\
            (b = true <-> exists x, x ∈ l /\ p x = Ret true).
Proof.
  induction l as [|x l IH]; intros Hp; simpl.
  - exists false. split; [reflexivity|]. split; [discriminate|].
    intros (x & Hx & _). apply elem_of_nil in Hx. contradiction.
  - destruct (Hp x ltac:(left)) as [[|] Ex]; rewrite Ex.
    + exists true. split; [reflexivity|]. split; [|reflexivity].
      intros _. exists x. split; [left|exact Ex].
    + destruct IH as (b & Eb & Hb).
      { intros y Hy. apply Hp. right. exact Hy. }
      exists b. split; [exact Eb|]. rewrite Hb. split.
      * intros (y & Hy & Ey). exists y. split; [right; exact Hy|exact Ey].
      * intros (y & Hy & Ey). apply elem_of_cons in Hy. destruct Hy as [->|Hy].
        -- congruence.
        -- exists y. auto.
Qed.

Lemma game_lost_total g :
  shape_ok g ->
  exists lost, game_lost g = Ret lost /\
    (lost = true <->
     exists i j, inb g i j /\ mine_at g i j = Ret true /\ is_revealed g i j = Ret true).
Proof.
  intros Hs. unfold game_lost.
  assert (forall i j, i ∈ range (nrows g) -> j ∈ range (ncols g) ->
            exists s, square_at g i j = Ret s) as Hsq.
  { intros i j Hi Hj. unfold range in *. apply elem_of_seqZ in Hi, Hj.
    destruct (square_at_inb g i j Hs) as (s & _ & E); [unfold inb; lia|]. eauto. }
  set (inner := fun i : Z => any_res (range (ncols g)) (fun j : Z =>
                  res_bind (mine_at g i j)
                    (fun m : bool => if m then is_revealed g i j else Ret false))).
  assert (forall i, i ∈ range (nrows g) ->
            exists b, inner i = Ret b /\
              (b = true <-> exists j, j ∈ range (ncols g) /\
                 mine_at g i j = Ret true /\ is_revealed g i j = Ret true)) as Hin.
  { intros i Hi. unfold inner.
    destruct (any_res_total (range (ncols g)) (fun j : Z =>
                res_bind (mine_at g i j)
                  (fun m : bool => if m then is_revealed g i j else Ret false)))
      as (b & Eb & Hb).
    - intros j Hj. destruct (Hsq i j Hi Hj) as [s E].
      unfold mine_at, is_revealed. rewrite E. simpl.
      destruct (Square.mined s); eauto.
    - exists b. split; [exact Eb|]. rewrite Hb. split.
      + intros (j & Hj & E). exists j. split; [exact Hj|].
        destruct (Hsq i j Hi Hj) as [s Es].
        unfold mine_at, is_revealed in *. rewrite Es in *. simpl in *.
        destruct (Square.mined s); [auto|discriminate].
      + intros (j & Hj & E1 & E2). exists j. split; [exact Hj|].
        rewrite E1. simpl. exact E2. }
  destruct (any_res_total (range (nrows g)) inner) as (b & Eb & Hb).
  { intros i Hi. destruct (Hin i Hi) as (b & E & _). eauto. }
  exists b. split; [exact Eb|]. rewrite Hb. split.
  - intros (i & Hi & E). destruct (Hin i Hi) as (b' & E' & Hb').
    assert (b' = true) as -> by congruence.
    destruct Hb' as [Hb' _]. destruct (Hb' eq_refl) as (j & Hj & E1 & E2).
    exists i, j. unfold range in *. apply elem_of_seqZ in Hi, Hj.
    split; [unfold inb; lia|auto].
  - intros (i & j & [Hi Hj] & E1 & E2).
    assert (i ∈ range (nrows g)) as Hi' by (apply elem_of_seqZ; lia).
    assert (j ∈ range (ncols g)) as Hj' by (apply elem_of_seqZ; lia).
    exists i. split; [exact Hi'|].
    destruct (Hin i Hi') as (b' & E' & Hb'). rewrite E'. f_equal.
    apply Hb'. exists j. auto.
Qed.

(** ** Flags and revealed Squares *)

Lemma cell_map f tb p : cell (map (map f) tb) p = f <$> cell tb p.
Proof.
  unfold cell. rewrite list_lookup_fmap.
  destruct (tb !! fst p) as [rw|]; simpl; [|reflexivity].
  apply list_lookup_fmap.
Qed.

Lemma nfr_alter h p g :
  (forall s, cell (tab g) p = Some s ->
     Square.revealed (h s) && Square.flagged (h s) = false) ->
  nfr g -> nfr (set_tab (alter_cell h p (tab g)) g).
Proof.
  intros Hh Hg q s. simpl. rewrite cell_alter_cell.
  destruct (decide (p = q)) as [<-|Hne]; [|apply Hg].
  destruct (cell (tab g) p) as [s0|] eqn:E; simpl; [|discriminate].
  intros [= <-]. apply Hh. reflexivity.
Qed.

Lemma nfr_mark g i j p s :
  locate (tab g) i j = Some p -> cell (tab g) p = Some s ->
  Square.revealed s = false -> Square.flagged s = false ->
  keeps nfr g (mark p g).
Proof.
  intros _ Hc _ Ef Hg. unfold mark.
  apply (nfr_alter (Square.set_revealed true) p g); [|exact Hg].
  intros s0 Hs0. assert (s0 = s) as -> by congruence. simpl. rewrite Ef. reflexivity.
Qed.

Lemma nfr_update_square i j h g :
  (forall s, Square.flagged (h s) = Square.flagged s) ->
  (forall s, Square.revealed (h s) = Square.revealed s) ->
  keeps nfr g (fst (update_square i j h g)).
Proof.
  intros Hf Hr Hg. unfold update_square.
  destruct (locate (tab g) i j) as [p|]; simpl; [|exact Hg].
  apply nfr_alter; [|exact Hg]. intros s Hs. rewrite Hf, Hr. eapply Hg, Hs.
Qed.

Lemma nfr_place_flag i j g :
  is_revealed g i j <> Ret true -> keeps nfr g (fst (place_flag i j g)).
Proof.
  intros Hr Hg. rewrite place_flag_eq. unfold is_revealed in Hr.
  destruct (square_at_cases g i j) as [(p & s & Hl & Hc & Hs)|[Hl Hs]];
    rewrite Hs in *; simpl in *; [|exact Hg].
  destruct (Square.flagged s); [exact Hg|]. rewrite Hl. simpl.
  apply (nfr_alter (Square.set_flagged true) p g); [|exact Hg].
  intros s0 Hs0. assert (s0 = s) as -> by congruence. simpl.
  destruct (Square.revealed s); [congruence|reflexivity].
Qed.

Lemma nfr_remove_flag i j g : keeps nfr g (fst (remove_flag i j g)).
Proof.
  intros Hg. rewrite remove_flag_eq.
  destruct (square_at_cases g i j) as [(p & s & Hl & Hc & Hs)|[Hl Hs]];
    rewrite Hs in *; simpl in *; [|exact Hg].
  destruct (Square.flagged s); [|exact Hg]. rewrite Hl. simpl.
  apply (nfr_alter (Square.set_flagged false) p g); [|exact Hg].
  intros s0 _. simpl. apply andb_false_r.
Qed.

Lemma nfr_place_mine i j g : keeps nfr g (fst (place_mine i j g)).
Proof.
  rewrite place_mine_eq.
  destruct (square_at_cases g i j) as [(p & s & Hl & Hc & Hs)|[Hl Hs]];
    rewrite Hs; simpl; [|apply keeps_refl].
  destruct (Square.mined s) eqn:Em; simpl; [apply keeps_refl|].
  rewrite Hl.
  eapply keeps_trans.
  - pose proof (nfr_update_square i j (Square.set_mined true) g) as H.
    unfold update_square in H. rewrite Hl in H. simpl in H. apply H; reflexivity.
  - apply keeps_bind.
    + apply keeps_for_each.
      intros [x y] g'. apply nfr_update_square; reflexivity.
    + intros _ g' H. exact H.
Qed.

Lemma nfr_reset g : nfr (fst (reset g)).
Proof.
  intros p s. unfold reset, modify. simpl. rewrite cell_map.
  destruct (cell (tab g) p); simpl; [|discriminate]. intros [= <-]. reflexivity.
Qed.

Lemma nfr_random_game rnd n g : nfr (fst (random_game rnd n g)).
Proof.
  unfold random_game. unfold bind at 1. unfold reset at 1, modify. cbv beta.
  match goal with |- nfr (fst (bind ?m ?k ?g0)) =>
    assert (nfr g0) as H0 by apply (nfr_reset g);
    revert H0; generalize g0 end.
  intros g0. fold (keeps nfr g0 (fst
    ((chosen <- query (fun g1 => sample rnd (population g1) n);;
      for_each chosen (fun '(x, y) => place_mine x y)) g0))).
  apply keeps_bind; [apply keeps_refl|].
  intros chosen g1. apply keeps_for_each.
  intros [x y] g2. apply nfr_place_mine.
Qed.

Lemma nfr_init nr nc : nfr (init nr nc).
Proof.
  intros [r c] s. unfold init, cell. simpl. rewrite list_lookup_fmap.
  destruct (range nr !! r) as [i|]; simpl; [|discriminate].
  rewrite list_lookup_fmap. destruct (range nc !! c) as [j|]; simpl; [|discriminate].
  intros [= <-]. reflexivity.
Qed.

Lemma nfr_run os : forall g, nfr g -> guarded os g -> nfr (run os g).
Proof.
  unfold run. induction os as [|o os IH]; intros g Hg Hgd; simpl; [exact Hg|].
  destruct Hgd as [Ho Hgd]. apply IH; [|exact Hgd].
  unfold step. destruct o as [i j|i j|i j|i j|i j|rnd n|]; simpl.
  - apply keeps_reveal; [apply nfr_mark|exact Hg].
  - apply keeps_chording; [apply nfr_mark|exact Hg].
  - apply nfr_place_flag; assumption.
  - apply nfr_remove_flag, Hg.
  - apply nfr_place_mine, Hg.
  - apply nfr_random_game.
  - apply nfr_reset.
Qed.

Lemma right_click_revealed i j g :
  is_revealed g i j = Ret true ->
  MinesweeperApp.right_click_handler i j g = (g, Ret tt).
Proof.
  intros H. unfold MinesweeperApp.right_click_handler, bind, query.
  rewrite H. reflexivity.
Qed.

(** ** Calls that change nothing *)

Lemma reveal_noop i j g :
  is_revealed g i j = Ret true \/ is_flagged g i j = Ret true ->
  reveal i j g = (g, Ret tt).
Proof.
  unfold reveal, is_revealed, is_flagged. rewrite reveal_rec_S.
  destruct (square_at g i j) as [s|e|]; simpl.
  - intros [[= ->]|[= ->]]; [reflexivity|]. rewrite orb_true_r. reflexivity.
  - intros [H|H]; discriminate.
  - intros [H|H]; discriminate.
Qed.

Lemma place_flag_noop i j g :
  is_flagged g i j = Ret true -> place_flag i j g = (g, Ret tt).
Proof.
  unfold is_flagged. rewrite place_flag_eq.
  destruct (square_at g i j) as [s|e|]; simpl; try discriminate.
  intros [= ->]. reflexivity.
Qed.

Lemma remove_flag_noop i j g :
  is_flagged g i j = Ret false -> remove_flag i j g = (g, Ret tt).
Proof.
  unfold is_flagged. rewrite remove_flag_eq.
  destruct (square_at g i j) as [s|e|]; simpl; try discriminate.
  intros [= ->]. reflexivity.
Qed.

Lemma chording_eq i j g f m :
  flags_nearby g i j = Ret f -> mines_nearby g i j = Ret m ->
  chording i j g =
    if f =? m
    then for_each (neighbors g i j) (fun '(x, y) => reveal x y) g
    else (g, Ret tt).
Proof.
  intros Hf Hm. unfold chording, bind, query. rewrite Hf, Hm.
  destruct (f =? m); reflexivity.
Qed.

(** ** What [reveal] leaves alone *)

Lemma is_flagged_mark g p x y : is_flagged (mark p g) x y = is_flagged g x y.
Proof.
  unfold is_flagged. rewrite !square_at_locate. simpl.
  rewrite locate_alter_cell.
  destruct (locate (tab g) x y) as [q|]; [|reflexivity].
  rewrite cell_alter_cell. destruct (decide (p = q)) as [->|Hne]; [|reflexivity].
  destruct (cell (tab g) q) as [s|]; reflexivity.
Qed.

Lemma rev_frame_refl g : rev_frame g g.
Proof. unfold rev_frame. auto. Qed.

Lemma rev_frame_trans a b c : rev_frame a b -> rev_frame b c -> rev_frame a c.
Proof.
  intros (S1 & R1 & C1 & M1 & F1) (S2 & R2 & C2 & M2 & F2). unfold rev_frame.
  split; [auto|]. split; [congruence|]. split; [congruence|].
  split; [auto|]. intros x y. rewrite F2. apply F1.
Qed.

Lemma rev_frame_mark g p : rev_frame g (mark p g).
Proof.
  unfold rev_frame. split; [apply shape_ok_mark|].
  split; [reflexivity|]. split; [reflexivity|].
  split; [intros x y; apply is_revealed_mark_mono|apply is_flagged_mark].
Qed.

Lemma rev_frame_reveal_rec fuel i j g : rev_frame g (fst (reveal_rec fuel i j g)).
Proof.
  apply reveal_rec_rel.
  - apply rev_frame_refl.
  - apply rev_frame_trans.
  - intros. apply rev_frame_mark.
Qed.

(** [reveal] at a position of a well-shaped board returns, leaving that
    Square revealed unless it is flagged. *)
Lemma reveal_returns i j g :
  shape_ok g -> inb g i j ->
  exists g', reveal i j g = (g', Ret tt) /\ rev_frame g g' /\
    (is_revealed g' i j = Ret true \/ is_flagged g i j = Ret true).
Proof.
  intros Hs Hb. unfold reveal.
  destruct (reveal_log_post (S (nsquares g)) i j g Hs Hb) as (log & g' & E & P).
  { pose proof (unrevealed_le_nsquares g). lia. }
  pose proof (reveal_log_forget (S (nsquares g)) i j g) as Ef.
  rewrite E in Ef. cbn [fst snd forget] in Ef. exists g'. split; [exact Ef|].
  split.
  { pose proof (rev_frame_reveal_rec (S (nsquares g)) i j g) as F.
    rewrite Ef in F. exact F. }
  rewrite reveal_rec_S in Ef.
  destruct (square_at_inb g i j Hs Hb) as (s & Hc & Es). unfold is_flagged.
  rewrite Es in *. simpl.
  destruct (Square.flagged s) eqn:Ff; [right; reflexivity|left].
  rewrite orb_false_r in Ef.
  destruct (Square.revealed s) eqn:Fr.
  { injection Ef as <-. unfold is_revealed. rewrite Es. simpl. rewrite Fr. reflexivity. }
  destruct P as (_ & _ & _ & _ & L & _).
  rewrite (locate_inb g i j Hs Hb) in Ef.
  rewrite reveal_log_S, Es, Fr, Ff, (locate_inb g i j Hs Hb) in E. simpl in E.
  assert ((i, j) ∈ log) as Hin.
  { destruct (negb (Square.mined s) && (Square.mines_nearby s =? 0)).
    - unfold bind in E.
      destruct (for_each_log _ _ _) as [g2 [l2|e|]]; [|discriminate|discriminate].
      unfold ret in E. injection E as _ <-. left.
    - injection E as _ <-. left. }
  apply L in Hin. tauto.
Qed.

(** ** chording *)






(** ** Assignments to the Squares of a list of positions *)

Lemma update_square_altered f x y g :
  shape_ok g -> inb g x y ->
  exists g', update_square x y f g = (g', Ret tt) /\ altered f [(x, y)] g g'.
Proof.
  intros Hs Hb. unfold update_square. rewrite (locate_inb g x y Hs Hb).
  eexists. split; [reflexivity|]. unfold altered.
  split; [apply shape_ok_set_tab_alter, Hs|].
  do 5 (split; [reflexivity|]).
  intros a b Hab. destruct (square_at_inb g a b Hs Hab) as (s & Hc & E).
  exists s. split; [exact E|].
  rewrite square_at_locate. simpl.
  rewrite locate_alter_cell, (locate_inb g a b Hs Hab), cell_alter_cell.
  destruct Hb as [Hx Hy], Hab as [Ha Hb'].
  destruct (decide ((a, b) ∈ [(x, y)])) as [Hin|Hin].
  - apply list_elem_of_singleton in Hin. injection Hin as -> ->.
    rewrite decide_True by reflexivity. rewrite Hc. reflexivity.
  - rewrite decide_False.
    + rewrite Hc. reflexivity.
    + intros [= H1 H2]. apply Hin. apply list_elem_of_singleton.
      f_equal; lia.
Qed.

Lemma for_each_altered f ps : forall g,
  shape_ok g -> NoDup ps -> (forall x y, (x, y) ∈ ps -> inb g x y) ->
  exists g', for_each ps (fun '(x, y) => update_square x y f) g = (g', Ret tt) /\
             altered f ps g g'.
Proof.
  induction ps as [|[x y] ps IH]; intros g Hs Hnd Hin; simpl.
  - exists g. split; [reflexivity|]. unfold altered. split; [exact Hs|].
    do 5 (split; [reflexivity|]).
    intros a b Hab. destruct (square_at_inb g a b Hs Hab) as (s & _ & E).
    exists s. split; [exact E|]. rewrite decide_False; [exact E|].
    intros H. apply elem_of_nil in H. contradiction.
  - apply NoDup_cons in Hnd. destruct Hnd as [Hx Hnd].
    destruct (update_square_altered f x y g Hs) as (g1 & E1 & A1); [apply Hin; left|].
    destruct A1 as (S1 & R1 & C1 & M1 & F1 & Q1 & L1).
    destruct (IH g1 S1 Hnd) as (g2 & E2 & A2).
    { intros x' y' H. unfold inb. rewrite R1, C1. apply Hin. right. exact H. }
    destruct A2 as (S2 & R2 & C2 & M2 & F2 & Q2 & L2).
    exists g2. split; [unfold bind; rewrite E1; exact E2|].
    unfold altered. split; [exact S2|].
    do 5 (split; [congruence|]).
    intros a b Hab. destruct (L1 a b Hab) as (s & Es & Es1).
    destruct (L2 a b) as (s1 & Es1' & Es2).
    { unfold inb. rewrite R1, C1. exact Hab. }
    exists s. split; [exact Es|]. rewrite Es2.
    assert (s1 = if decide ((a, b) ∈ [(x, y)]) then f s else s) as -> by congruence.
    f_equal.
    destruct (decide ((a, b) ∈ [(x, y)])) as [H1|H1].
    + apply list_elem_of_singleton in H1. injection H1 as -> ->.
      rewrite decide_False by exact Hx.
      rewrite decide_True by left. reflexivity.
    + destruct (decide ((a, b) ∈ ps)) as [H2|H2].
      * rewrite decide_True by (right; exact H2). reflexivity.
      * rewrite decide_False; [reflexivity|].
        intros H. apply elem_of_cons in H. destruct H as [H|H]; [|contradiction].
        apply H1. rewrite H. left.
Qed.

(** ** place_mine *)

Lemma place_mine_fresh i j g s :
  shape_ok g -> inb g i j -> square_at g i j = Ret s -> Square.mined s = false ->
  exists g', place_mine i j g = (g', Ret tt) /\ mined_step i j g g'.
Proof.
  intros Hs Hb Es Em. rewrite place_mine_eq, Es, Em, (locate_inb g i j Hs Hb).
  destruct (update_square_altered (Square.set_mined true) i j g Hs Hb)
    as (g1 & E1 & A1).
  unfold update_square in E1. rewrite (locate_inb g i j Hs Hb) in E1.
  injection E1 as E1. rewrite E1.
  destruct A1 as (S1 & R1 & C1 & M1 & F1 & Q1 & L1).
  destruct (for_each_altered Square.incr_mines_nearby (neighbors g i j) g1 S1)
    as (g2 & E2 & A2).
  { apply NoDup_neighbors. }
  { intros x y H. apply neighbors_inb in H. unfold inb. rewrite R1, C1. exact H. }
  destruct A2 as (S2 & R2 & C2 & M2 & F2 & Q2 & L2).
  exists (set_nmines (nmines g2 + 1) g2). split.
  { unfold bind. rewrite E2. reflexivity. }
  unfold mined_step. split; [exact S2|]. simpl.
  split; [congruence|]. split; [congruence|]. split; [congruence|].
  split; [congruence|]. split; [congruence|].
  intros a b Hab. destruct (L1 a b Hab) as (s0 & Es0 & Es1).
  destruct (L2 a b) as (s1 & Es1' & Es2).
  { unfold inb. rewrite R1, C1. exact Hab. }
  exists s0. split; [exact Es0|].
  change (square_at (set_nmines (nmines g2 + 1) g2) a b) with (square_at g2 a b).
  rewrite Es2. f_equal. unfold mine_effect.
  assert (s1 = if decide ((a, b) ∈ [(i, j)]) then Square.set_mined true s0 else s0)
    as -> by congruence.
  destruct (decide ((a, b) = (i, j))) as [Heq|Hne],
           (decide ((a, b) ∈ [(i, j)])) as [H1|H1]; try reflexivity.
  - exfalso. apply H1. rewrite Heq. left.
  - exfalso. apply list_elem_of_singleton in H1. contradiction.
Qed.

Lemma place_mine_again i j g s :
  square_at g i j = Ret s -> Square.mined s = true ->
  place_mine i j g = (g, Ret tt).
Proof. intros Es Em. rewrite place_mine_eq, Es, Em. reflexivity. Qed.

(** *** Counting the mines around a Square *)

Lemma count_if_ext {A} (p q : A -> bool) l :
  (forall x, x ∈ l -> p x = q x) -> count_if p l = count_if q l.
Proof.
  induction l as [|x l IH]; intros H; simpl; [reflexivity|].
  rewrite (H x) by left. rewrite IH; [reflexivity|].
  intros y Hy. apply H. right. exact Hy.
Qed.

Lemma count_if_one {A} `{EqDecision A} (p : A -> bool) (x0 : A) l :
  NoDup l -> p x0 = false ->
  count_if (fun x => p x || bool_decide (x = x0)) l =
  (count_if p l + (if decide (x0 ∈ l) then 1 else 0))%nat.
Proof.
  intros Hnd Hp. induction l as [|y l IH]; cbn [count_if].
  - rewrite decide_False; [reflexivity|]. intros H. apply elem_of_nil in H. exact H.
  - apply NoDup_cons in Hnd. destruct Hnd as [Hy Hnd]. rewrite (IH Hnd).
    destruct (decide (y = x0)) as [->|Hne].
    + rewrite Hp, bool_decide_eq_true_2 by reflexivity. cbn [orb].
      rewrite decide_False by exact Hy. rewrite decide_True by left. lia.
    + rewrite bool_decide_eq_false_2 by exact Hne. rewrite orb_false_r.
      destruct (decide (x0 ∈ l)) as [H|H].
      * rewrite decide_True by (right; exact H). lia.
      * rewrite decide_False; [lia|].
        intros H'. apply elem_of_cons in H'. destruct H' as [H'|H']; congruence.
Qed.

Lemma mined_at_square g x y s :
  square_at g x y = Ret s -> mined_at g (x, y) = Square.mined s.
Proof.
  intros E. unfold mined_at, mine_at. simpl. rewrite E. simpl.
  destruct (Square.mined s); reflexivity.
Qed.

Lemma neighbors_dims g g' i j :
  nrows g' = nrows g -> ncols g' = ncols g -> neighbors g' i j = neighbors g i j.
Proof. intros R C. unfold neighbors. rewrite R, C. reflexivity. Qed.

Lemma mined_step_mined_at i j g g' x y :
  mined_step i j g g' -> inb g x y ->
  mined_at g' (x, y) = mined_at g (x, y) || bool_decide ((x, y) = (i, j)).
Proof.
  intros (_ & _ & _ & _ & _ & _ & L) Hb.
  destruct (L x y Hb) as (s & Es & Es').
  rewrite (mined_at_square g x y s Es), (mined_at_square g' x y _ Es').
  unfold mine_effect.
  destruct (decide ((x, y) = (i, j))) as [Heq|Hne].
  - rewrite bool_decide_eq_true_2 by exact Heq. rewrite orb_true_r.
    destruct (decide ((x, y) ∈ neighbors g i j)); reflexivity.
  - rewrite bool_decide_eq_false_2 by exact Hne. rewrite orb_false_r.
    destruct (decide ((x, y) ∈ neighbors g i j)); reflexivity.
Qed.

Lemma nearby_ok_mined_step i j g g' s :
  shape_ok g -> inb g i j -> square_at g i j = Ret s -> Square.mined s = false ->
  mined_step i j g g' -> nearby_ok g -> nearby_ok g'.
Proof.
  intros Hs Hb Es Em Hstep Hn a b Hab.
  pose proof Hstep as (S' & R' & C' & _ & _ & _ & L).
  assert (inb g a b) as Hab' by (unfold inb in *; rewrite <- R', <- C'; exact Hab).
  destruct (L a b Hab') as (s0 & Es0 & Es0'). exists (mine_effect g i j a b s0).
  split; [exact Es0'|].
  destruct (Hn a b Hab') as (s0' & Es0'' & Hc).
  assert (s0' = s0) as -> by congruence.
  rewrite (neighbors_dims g g' a b R' C').
  rewrite (count_if_ext (mined_at g')
             (fun q => mined_at g q || bool_decide (q = (i, j)))).
  2:{ intros [x y] Hq. apply (mined_step_mined_at i j g g' x y Hstep).
      apply neighbors_inb in Hq. exact Hq. }
  rewrite count_if_one.
  2:{ apply NoDup_neighbors. }
  2:{ rewrite (mined_at_square g i j s Es). exact Em. }
  assert (Square.mines_nearby (mine_effect g i j a b s0) =
          Square.mines_nearby s0 + (if decide ((a, b) ∈ neighbors g i j) then 1 else 0)) as ->.
  { unfold mine_effect.
    destruct (decide ((a, b) = (i, j))), (decide ((a, b) ∈ neighbors g i j));
      simpl; lia. }
  rewrite Hc.
  destruct (decide ((a, b) ∈ neighbors g i j)) as [H|H].
  - rewrite decide_True; [lia|]. apply (neighbors_sym g i j a b Hb) in H. tauto.
  - rewrite decide_False; [lia|]. intros H'. apply H.
    apply (neighbors_sym g i j a b Hb). auto.
Qed.

(** *** The mine counter *)

Lemma count2_update_square (p : Square.t -> bool) f x y g c :
  (forall s, p (f s) = p s) ->
  keeps (fun g => count2 p (tab g) = c) g (fst (update_square x y f g)).
Proof.
  intros Hp H. unfold update_square.
  destruct (locate (tab g) x y) as [q|] eqn:Hl; simpl; [|exact H].
  destruct (locate_cell _ _ _ _ Hl) as [s Hc].
  pose proof (count2_alter_cell p f q _ s Hc) as E. rewrite Hp in E. lia.
Qed.

Lemma mines_ok_place_mine i j g :
  shape_ok g -> mines_ok g -> mines_ok (fst (place_mine i j g)).
Proof.
  intros Hs Hm. rewrite place_mine_eq.
  destruct (square_at_cases g i j) as [(p & s & Hl & Hc & Es)|[Hl Es]];
    rewrite Es; simpl; [|exact Hm].
  destruct (Square.mined s) eqn:Em; simpl; [exact Hm|]. rewrite Hl.
  set (g1 := set_tab (alter_cell (Square.set_mined true) p (tab g)) g).
  assert (shape_ok g1) as S1 by apply shape_ok_set_tab_alter, Hs.
  destruct (for_each_altered Square.incr_mines_nearby (neighbors g i j) g1 S1)
    as (g2 & E2 & A2).
  { apply NoDup_neighbors. }
  { intros x y H. apply neighbors_inb in H. exact H. }
  pose proof (keeps_for_each
    (fun g => count2 Square.mined (tab g) = count2 Square.mined (tab g1))
    (fun '(x, y) => update_square x y Square.incr_mines_nearby)
    (neighbors g i j)) as K.
  specialize (K ltac:(intros [x y] g'; apply count2_update_square; reflexivity)
                g1 eq_refl).
  rewrite E2 in K. simpl in K.
  unfold bind. rewrite E2. unfold mines_ok. simpl. rewrite K.
  destruct A2 as (_ & _ & _ & M2 & _). rewrite M2.
  pose proof (count2_alter_cell Square.mined (Square.set_mined true) p _ s Hc) as E.
  simpl in E. rewrite Em in E. simpl in E. unfold mines_ok in Hm.
  subst g1. simpl. lia.
Qed.

Lemma counters_place_mine i j g n m :
  keeps (fun g => nflags g = n /\ squares_revealed g = m) g (fst (place_mine i j g)).
Proof.
  assert (forall x y f g0,
    keeps (fun g => nflags g = n /\ squares_revealed g = m) g0
          (fst (update_square x y f g0))) as Hu.
  { intros x y f g0 H. unfold update_square.
    destruct (locate (tab g0) x y); simpl; exact H. }
  rewrite place_mine_eq.
  destruct (square_at g i j) as [s|e|]; simpl; try apply keeps_refl.
  destruct (Square.mined s); simpl; [apply keeps_refl|].
  destruct (locate (tab g) i j) as [p|] eqn:Hl; simpl; [|apply keeps_refl].
  eapply keeps_trans.
  - specialize (Hu i j (Square.set_mined true) g).
    unfold update_square in Hu. rewrite Hl in Hu. exact Hu.
  - apply keeps_bind.
    + apply keeps_for_each. intros [x y] g'. apply Hu.
    + intros _ g' H. exact H.
Qed.

Lemma shape_ok_reset g : shape_ok g -> shape_ok (fst (reset g)).
Proof.
  intros [Hr Hc]. unfold shape_ok, reset, modify. simpl. split.
  - rewrite length_map. exact Hr.
  - apply Forall_forall. intros rw Hrw. apply list_elem_of_In, in_map_iff in Hrw.
    destruct Hrw as (rw0 & <- & Hin). rewrite length_map.
    rewrite Forall_forall in Hc. apply Hc, list_elem_of_In, Hin.
Qed.

Lemma blank_reset g : blank (fst (reset g)).
Proof.
  intros p s. unfold reset, modify. simpl. rewrite cell_map.
  destruct (cell (tab g) p); simpl; [|discriminate]. intros [= <-]. auto.
Qed.

Lemma count_if_none {A} (p : A -> bool) l :
  (forall x, x ∈ l -> p x = false) -> count_if p l = 0%nat.
Proof.
  induction l as [|x l IH]; intros H; simpl; [reflexivity|].
  rewrite (H x) by left. rewrite IH; [reflexivity|].
  intros y Hy. apply H. right. exact Hy.
Qed.

Lemma blank_mined_at g q : blank g -> mined_at g q = false.
Proof.
  intros Hb. unfold mined_at, mine_at.
  destruct (square_at g (fst q) (snd q)) as [s|e|] eqn:E; simpl; try reflexivity.
  apply square_at_Ret in E. destruct E as (p & _ & Hc).
  destruct (Hb p s Hc) as (_ & _ & -> & _). reflexivity.
Qed.

Lemma blank_nearby_ok g : shape_ok g -> blank g -> nearby_ok g.
Proof.
  intros Hs Hb a b Hab. destruct (square_at_inb g a b Hs Hab) as (s & Hc & E).
  exists s. split; [exact E|].
  destruct (Hb _ s Hc) as (_ & _ & _ & ->).
  rewrite count_if_none; [reflexivity|]. intros q _. apply blank_mined_at, Hb.
Qed.

Lemma mines_inv_reset g : shape_ok g -> mines_inv (fst (reset g)).
Proof.
  intros Hs. split; [apply shape_ok_reset, Hs|]. split.
  - apply blank_nearby_ok; [apply shape_ok_reset, Hs|apply blank_reset].
  - unfold mines_ok, reset, modify. simpl.
    rewrite count_if_reset by reflexivity. reflexivity.
Qed.

(** One call of [place_mine] at a position of the board. *)
Lemma place_mine_step i j g :
  mines_inv g -> inb g i j ->
  exists g', place_mine i j g = (g', Ret tt) /\ mines_inv g' /\
    nrows g' = nrows g /\ ncols g' = ncols g /\
    nmines g' = nmines g + (if mined_at g (i, j) then 0 else 1) /\
    (forall a b, inb g a b ->
       mined_at g' (a, b) = mined_at g (a, b) || bool_decide ((a, b) = (i, j))).
Proof.
  intros (Hs & Hn & Hm) Hb.
  destruct (square_at_inb g i j Hs Hb) as (s & Hc & Es).
  rewrite (mined_at_square g i j s Es).
  destruct (Square.mined s) eqn:Em.
  - exists g. split; [apply (place_mine_again i j g s Es Em)|].
    split; [split; auto|]. split; [reflexivity|]. split; [reflexivity|].
    split; [lia|]. intros a b Hab.
    destruct (decide ((a, b) = (i, j))) as [Heq|Hne].
    + rewrite bool_decide_eq_true_2 by exact Heq. rewrite orb_true_r.
      injection Heq as -> ->. rewrite (mined_at_square g i j s Es). exact Em.
    + rewrite bool_decide_eq_false_2 by exact Hne. rewrite orb_false_r. reflexivity.
  - destruct (place_mine_fresh i j g s Hs Hb Es Em) as (g' & E & Hstep).
    exists g'. split; [exact E|].
    pose proof Hstep as (S' & R' & C' & M' & _).
    split.
    { split; [exact S'|]. split.
      - apply (nearby_ok_mined_step i j g g' s Hs Hb Es Em Hstep Hn).
      - pose proof (mines_ok_place_mine i j g Hs Hm) as H. rewrite E in H. exact H. }
    split; [exact R'|]. split; [exact C'|]. split; [exact M'|].
    intros a b Hab. apply (mined_step_mined_at i j g g' a b Hstep Hab).
Qed.

(** A sequence of calls of [place_mine] at positions of the board. *)
Lemma place_mine_each ps : forall g,
  mines_inv g -> (forall i j, (i, j) ∈ ps -> inb g i j) ->
  exists g', for_each ps (fun '(i, j) => place_mine i j) g = (g', Ret tt) /\
    mines_inv g' /\ nrows g' = nrows g /\ ncols g' = ncols g /\
    (forall a b, inb g a b ->
       mined_at g' (a, b) = mined_at g (a, b) || bool_decide ((a, b) ∈ ps)).
Proof.
  induction ps as [|[i j] ps IH]; intros g Hinv Hin; cbn [for_each].
  - exists g. split; [reflexivity|]. split; [exact Hinv|].
    split; [reflexivity|]. split; [reflexivity|].
    intros a b _. rewrite bool_decide_eq_false_2, orb_false_r; [reflexivity|].
    intros H. apply elem_of_nil in H. exact H.
  - destruct (place_mine_step i j g Hinv) as (g1 & E1 & I1 & R1 & C1 & _ & L1);
      [apply Hin; left|].
    destruct (IH g1 I1) as (g2 & E2 & I2 & R2 & C2 & L2).
    { intros x y H. unfold inb. rewrite R1, C1. apply Hin. right. exact H. }
    exists g2. split; [unfold bind; rewrite E1; exact E2|].
    split; [exact I2|]. split; [congruence|]. split; [congruence|].
    intros a b Hab. rewrite L2 by (unfold inb; rewrite R1, C1; exact Hab).
    rewrite L1 by exact Hab. rewrite <- orb_assoc. f_equal.
    destruct (decide ((a, b) = (i, j))) as [Heq|Hne].
    + rewrite (bool_decide_eq_true_2 _ Heq). cbn [orb]. symmetry.
      apply bool_decide_eq_true_2. rewrite Heq. left.
    + rewrite (bool_decide_eq_false_2 _ Hne). cbn [orb].
      apply bool_decide_ext. rewrite elem_of_cons. tauto.
Qed.

Lemma place_mine_each_count ps : forall g,
  mines_inv g -> (forall i j, (i, j) ∈ ps -> inb g i j) ->
  NoDup ps -> (forall i j, (i, j) ∈ ps -> mined_at g (i, j) = false) ->
  nmines (fst (for_each ps (fun '(i, j) => place_mine i j) g)) =
  nmines g + Z.of_nat (length ps).
Proof.
  induction ps as [|[i j] ps IH]; intros g Hinv Hin Hnd Hfresh; cbn [for_each].
  - simpl. lia.
  - apply NoDup_cons in Hnd. destruct Hnd as [Hij Hnd].
    destruct (place_mine_step i j g Hinv) as (g1 & E1 & I1 & R1 & C1 & M1 & L1);
      [apply Hin; left|].
    rewrite (Hfresh i j) in M1 by left.
    unfold bind. rewrite E1. rewrite IH; [simpl length; lia|exact I1| |exact Hnd|].
    + intros x y H. unfold inb. rewrite R1, C1. apply Hin. right. exact H.
    + intros x y H. rewrite L1 by (apply Hin; right; exact H).
      rewrite (Hfresh x y) by (right; exact H).
      rewrite bool_decide_eq_false_2; [reflexivity|]. intros Heq. congruence.
Qed.

(** ** random.sample and the population *)

Lemma draw_elem {A} (x : A) k : forall rnd pool,
  x ∈ draw rnd pool k -> x ∈ pool.
Proof.
  induction k as [|k IH]; intros rnd pool H; simpl in H.
  - apply elem_of_nil in H. contradiction.
  - destruct (pool !! (hd 0%nat rnd mod length pool)%nat) as [y|] eqn:E.
    + apply elem_of_cons in H. destruct H as [->|H].
      * eapply list_elem_of_lookup_2, E.
      * apply IH in H. eapply list_elem_of_delete_inv, H.
    + apply elem_of_nil in H. contradiction.
Qed.

Lemma draw_length {A} k : forall rnd (pool : list A),
  (k <= length pool)%nat -> length (draw rnd pool k) = k.
Proof.
  induction k as [|k IH]; intros rnd pool Hk; simpl; [reflexivity|].
  assert (((hd 0%nat rnd mod length pool) < length pool)%nat) as Hr.
  { apply Nat.mod_upper_bound. lia. }
  destruct (lookup_lt_is_Some_2 _ _ Hr) as [x Hx]. rewrite Hx. simpl.
  rewrite IH; [reflexivity|]. rewrite length_delete by eauto. lia.
Qed.

Lemma NoDup_delete_lookup {A} (l : list A) r x :
  NoDup l -> l !! r = Some x -> (x ∉ delete r l) /\ NoDup (delete r l).
Proof.
  intros Hnd Hx. rewrite delete_take_drop.
  rewrite <- (take_drop_middle l r x Hx) in Hnd.
  apply NoDup_app in Hnd. destruct Hnd as (N1 & N2 & N3).
  apply NoDup_cons in N3. destruct N3 as [N3 N4]. split.
  - intros H. apply elem_of_app in H. destruct H as [H|H]; [|contradiction].
    apply (N2 x H). left.
  - apply NoDup_app. split; [exact N1|]. split; [|exact N4].
    intros y Hy Hy'. apply (N2 y Hy). right. exact Hy'.
Qed.

Lemma NoDup_draw {A} k : forall rnd (pool : list A),
  NoDup pool -> NoDup (draw rnd pool k).
Proof.
  induction k as [|k IH]; intros rnd pool Hnd; simpl; [constructor|].
  destruct (pool !! (hd 0%nat rnd mod length pool)%nat) as [x|] eqn:E; [|constructor].
  destruct (NoDup_delete_lookup pool _ x Hnd E) as [H1 H2].
  apply NoDup_cons. split; [|apply IH, H2].
  intros H. apply draw_elem in H. contradiction.
Qed.

Lemma elem_of_population g i j : (i, j) ∈ population g <-> inb g i j.
Proof.
  unfold population, inb, range.
  rewrite list_elem_of_In, in_flat_map. split.
  - intros (c & Hc & H). apply in_map_iff in H. destruct H as (r & [= <- <-] & Hr).
    apply list_elem_of_In, elem_of_seqZ in Hc, Hr. lia.
  - intros [Hi Hj]. exists j. split.
    + apply list_elem_of_In, elem_of_seqZ. lia.
    + apply in_map_iff. exists i. split; [reflexivity|].
      apply list_elem_of_In, elem_of_seqZ. lia.
Qed.

Lemma length_population g :
  length (population g) = (Z.to_nat (ncols g) * Z.to_nat (nrows g))%nat.
Proof.
  unfold population, range.
  rewrite <- (length_seqZ 0 (ncols g)).
  induction (seqZ 0 (ncols g)) as [|c l IH]; simpl; [reflexivity|].
  rewrite length_app, length_map, length_seqZ, IH. reflexivity.
Qed.

Lemma NoDup_population g : NoDup (population g).
Proof.
  unfold population, range.
  pose proof (NoDup_seqZ 0 (ncols g)) as Hc.
  induction (seqZ 0 (ncols g)) as [|c l IH]; simpl; [constructor|].
  apply NoDup_cons in Hc. destruct Hc as [Hc Hl].
  apply NoDup_app. split; [|split; [|apply IH, Hl]].
  - apply NoDup_fmap_2; [|apply NoDup_seqZ]. intros x y [= ->]. reflexivity.
  - intros [x y] H1 H2.
    apply list_elem_of_In, in_map_iff in H1. destruct H1 as (r & [= <- <-] & _).
    apply list_elem_of_In, in_flat_map in H2. destruct H2 as (c' & Hc' & H2).
    apply in_map_iff in H2. destruct H2 as (r' & [= _ <-] & _).
    apply Hc, list_elem_of_In, Hc'.
Qed.

(** ** random_game *)

Lemma random_game_eq rnd n g :
  random_game rnd n g =
    match sample rnd (population g) n with
    | Ret chosen => for_each chosen (fun '(x, y) => place_mine x y) (fst (reset g))
    | Raise e => (fst (reset g), Raise e)
    | OutOfFuel => (fst (reset g), OutOfFuel)
    end.
Proof.
  unfold random_game, bind, query, reset, modify. cbn [fst].
  change (population _) with (population g).
  destruct (sample rnd (population g) n); reflexivity.
Qed.

(** More mines than Squares, or a negative number of mines: the board is
    reset and [ValueError] is raised. *)
Lemma random_game_reject rnd n g :
  0 <= nrows g -> 0 <= ncols g ->
  n < 0 \/ nrows g * ncols g < n ->
  random_game rnd n g = (fst (reset g), Raise ValueError).
Proof.
  intros Hr Hc Hn. rewrite random_game_eq. unfold sample.
  rewrite length_population.
  destruct ((0 <=? n) && (n <=? Z.of_nat (Z.to_nat (ncols g) * Z.to_nat (nrows g)))) eqn:E;
    [|reflexivity].
  apply andb_true_iff in E. destruct E as [E1 E2].
  apply Z.leb_le in E1, E2. rewrite Nat2Z.inj_mul, !Z2Nat.id in E2 by lia. lia.
Qed.

Lemma random_game_accept rnd n g :
  shape_ok g -> 0 <= nrows g -> 0 <= ncols g ->
  0 <= n <= nrows g * ncols g ->
  exists g', random_game rnd n g = (g', Ret tt) /\
    mines_inv g' /\ counts_ok g' /\
    nmines g' = n /\ nflags g' = 0 /\ squares_revealed g' = 0.
Proof.
  intros Hs Hr Hc Hn. rewrite random_game_eq. unfold sample.
  rewrite length_population.
  replace ((0 <=? n) && (n <=? Z.of_nat (Z.to_nat (ncols g) * Z.to_nat (nrows g))))
    with true.
  2:{ symmetry. apply andb_true_iff. split; apply Z.leb_le; [lia|].
      rewrite Nat2Z.inj_mul, !Z2Nat.id by lia. lia. }
  set (chosen := draw rnd (population g) (Z.to_nat n)).
  set (g0 := fst (reset g)).
  assert (forall i j, (i, j) ∈ chosen -> inb g0 i j) as Hin.
  { intros i j H. apply draw_elem, elem_of_population in H. exact H. }
  destruct (place_mine_each chosen g0) as (g' & E & I' & _).
  { apply mines_inv_reset, Hs. }
  { exact Hin. }
  exists g'. split; [exact E|]. split; [exact I'|].
  pose proof (keeps_for_each counts_ok (fun '(x, y) => place_mine x y) chosen
                ltac:(intros [x y] g1; apply counts_ok_place_mine) g0
                (counts_ok_reset g)) as K.
  rewrite E in K. split; [exact K|].
  pose proof (keeps_for_each (fun g => nflags g = 0 /\ squares_revealed g = 0)
                (fun '(x, y) => place_mine x y) chosen
                ltac:(intros [x y] g1; apply counters_place_mine) g0
                ltac:(split; reflexivity)) as K0.
  rewrite E in K0. split; [|exact K0].
  pose proof (place_mine_each_count chosen g0) as Hcount.
  rewrite E in Hcount. cbn [fst] in Hcount. rewrite Hcount.
  - unfold chosen. rewrite draw_length.
    + simpl. lia.
    + rewrite length_population. apply Nat2Z.inj_le.
      rewrite Nat2Z.inj_mul, !Z2Nat.id by lia. lia.
  - apply mines_inv_reset, Hs.
  - exact Hin.
  - apply NoDup_draw, NoDup_population.
  - intros i j _. apply blank_mined_at, blank_reset.
Qed.

(** ** Every reachable grid is well-shaped *)

Lemma shape_ok_update_square i j f g :
  keeps shape_ok g (fst (update_square i j f g)).
Proof.
  intros Hs. unfold update_square.
  destruct (locate (tab g) i j) as [p|]; simpl; [|exact Hs].
  apply shape_ok_set_tab_alter, Hs.
Qed.

Lemma shape_ok_place_mine i j g : keeps shape_ok g (fst (place_mine i j g)).
Proof.
  rewrite place_mine_eq.
  destruct (square_at g i j) as [s|e|]; simpl; try apply keeps_refl.
  destruct (Square.mined s); simpl; [apply keeps_refl|].
  destruct (locate (tab g) i j) as [p|] eqn:Hl; simpl; [|apply keeps_refl].
  eapply keeps_trans.
  - intros Hs. apply (shape_ok_set_tab_alter (Square.set_mined true) p g Hs).
  - apply keeps_bind.
    + apply keeps_for_each. intros [x y] g'. apply shape_ok_update_square.
    + intros _ g' H. exact H.
Qed.

Lemma shape_ok_step o g : shape_ok g -> shape_ok (step o g).
Proof.
  unfold step. destruct o as [i j|i j|i j|i j|i j|rnd n|]; simpl.
  - apply keeps_reveal. intros g0 _ _ p _ _ _ _ _ Hs0. apply shape_ok_mark, Hs0.
  - apply keeps_chording. intros g0 _ _ p _ _ _ _ _ Hs0. apply shape_ok_mark, Hs0.
  - intros Hs. rewrite place_flag_eq.
    destruct (square_at g i j) as [s|e|]; simpl; try exact Hs.
    destruct (Square.flagged s); simpl; [exact Hs|].
    destruct (locate (tab g) i j) as [p|]; simpl; [|exact Hs].
    apply (shape_ok_set_tab_alter (Square.set_flagged true) p g Hs).
  - intros Hs. rewrite remove_flag_eq.
    destruct (square_at g i j) as [s|e|]; simpl; try exact Hs.
    destruct (Square.flagged s); simpl; [|exact Hs].
    destruct (locate (tab g) i j) as [p|]; simpl; [|exact Hs].
    apply (shape_ok_set_tab_alter (Square.set_flagged false) p g Hs).
  - apply shape_ok_place_mine.
  - intros Hs. rewrite random_game_eq.
    pose proof (shape_ok_reset g Hs) as H0.
    destruct (sample rnd (population g) n) as [chosen|e|]; simpl; try exact H0.
    revert H0. apply keeps_for_each. intros [x y] g'. apply shape_ok_place_mine.
  - apply shape_ok_reset.
Qed.

(** Whatever is called on a new board, the table keeps its [nrows] rows
    of [ncols] Squares: the properties stated for well-shaped grids hold in
    every reachable state. *)
Lemma shape_ok_run os nr nc : shape_ok (run os (init nr nc)).
Proof.
  unfold run. generalize (shape_ok_init nr nc). generalize (init nr nc).
  induction os as [|o os IH]; intros g Hg; simpl; [exact Hg|].
  apply IH, shape_ok_step, Hg.
Qed.

Lemma length_concat_rows {A} (tb : list (list A)) c :
  Forall (fun rw => length rw = c) tb -> length (concat tb) = (length tb * c)%nat.
Proof.
  induction 1 as [|rw tb Hrw _ IH]; simpl; [reflexivity|].
  rewrite length_app, IH, Hrw. reflexivity.
Qed.



(** * The properties of the specification *)

(** ** C1: game_lost and game_won *)

(** C1. On a well-shaped board [game_lost] returns true exactly when some
    mined Square of the board is revealed; [game_won] returns true exactly
    when [game_lost] returns false and
    [nrows * ncols - squares_revealed = nmines]; the two are never both
    true. *)
Theorem game_lost_won_spec g :
  shape_ok g ->
  exists lost,
    game_lost g = Ret lost /\
    (lost = true <->
       exists i j, inb g i j /\ mine_at g i j = Ret true /\
                   is_revealed g i j = Ret true) /\
    game_won g =
      Ret (negb lost && (nrows g * ncols g - squares_revealed g =? nmines g)) /\
    (game_won g = Ret true <->
       game_lost g = Ret false /\
       nrows g * ncols g - squares_revealed g = nmines g) /\
    ~ (game_won g = Ret true /\ game_lost g = Ret true).
Proof.
  intros Hs. destruct (game_lost_total g Hs) as (lost & El & Hl).
  exists lost. split; [exact El|]. split; [exact Hl|].
  unfold game_won. rewrite El. simpl. split; [reflexivity|]. split.
  - split.
    + intros [= H]. apply andb_true_iff in H. destruct H as [H1 H2].
      apply negb_true_iff in H1. apply Z.eqb_eq in H2. subst lost. auto.
    + intros [[= ->] H]. simpl. apply Z.eqb_eq in H. rewrite H. reflexivity.
  - intros [[= H] [= ->]]. discriminate.
Qed.

Lemma game_lost_won_spec_witness :
  shape_ok revealed_3x3 /\
  exists lost,
    game_lost revealed_3x3 = Ret lost /\
    (lost = true <->
       exists i j, inb revealed_3x3 i j /\ mine_at revealed_3x3 i j = Ret true /\
                   is_revealed revealed_3x3 i j = Ret true) /\
    game_won revealed_3x3 =
      Ret (negb lost && (nrows revealed_3x3 * ncols revealed_3x3
                         - squares_revealed revealed_3x3 =? nmines revealed_3x3)) /\
    (game_won revealed_3x3 = Ret true <->
       game_lost revealed_3x3 = Ret false /\
       nrows revealed_3x3 * ncols revealed_3x3 - squares_revealed revealed_3x3
       = nmines revealed_3x3) /\
    ~ (game_won revealed_3x3 = Ret true /\ game_lost revealed_3x3 = Ret true).
Proof.
  assert (shape_ok revealed_3x3) as Hs.
  { split; [reflexivity|]. vm_compute. repeat constructor. }
  split; [exact Hs|]. apply (game_lost_won_spec revealed_3x3 Hs).
Defined.

(** ** C2: the flood fill on the 3x3 board *)

(** C2, as the specification states it, fails: after [reveal(0,0)] the
    Square at (1,1) touches the mine and has count 1, not 0, and the Square
    at (2,0) does not touch it and has count 0, not 1. *)
Lemma reveal_3x3_counts_as_stated_fail :
  ~ (Forall (fun '(x, y) => is_revealed revealed_3x3 x y = Ret true /\
                            mines_nearby revealed_3x3 x y = Ret 0)
            [(0, 0); (0, 1); (0, 2); (1, 0); (1, 1)] /\
     Forall (fun '(x, y) => is_revealed revealed_3x3 x y = Ret true /\
                            mines_nearby revealed_3x3 x y = Ret 1)
            [(1, 2); (2, 0); (2, 1)] /\
     is_revealed revealed_3x3 2 2 = Ret false).
Proof.
  intros (H & _ & _). rewrite Forall_forall in H.
  specialize (H (1, 1)). simpl in H.
  destruct H as [_ H]; [do 4 right; left|].
  vm_compute in H. discriminate.
Qed.

(** C2 (amended). On the 3x3 board whose only mine is at (2,2),
    [reveal(0,0)] returns and reveals exactly the eight Squares without a
    mine: (0,0), (0,1), (0,2), (1,0), (2,0) with count 0 and (1,1), (1,2),
    (2,1) with count 1; (2,2) stays unrevealed. *)
Theorem reveal_3x3_flood_fill :
  snd (reveal 0 0 board_3x3) = Ret tt /\
  Forall (fun '(x, y) => is_revealed revealed_3x3 x y = Ret true /\
                         mines_nearby revealed_3x3 x y = Ret 0)
         [(0, 0); (0, 1); (0, 2); (1, 0); (2, 0)] /\
  Forall (fun '(x, y) => is_revealed revealed_3x3 x y = Ret true /\
                         mines_nearby revealed_3x3 x y = Ret 1)
         [(1, 1); (1, 2); (2, 1)] /\
  is_revealed revealed_3x3 2 2 = Ret false /\
  mine_at revealed_3x3 2 2 = Ret true /\
  squares_revealed revealed_3x3 = 8 /\
  count2 Square.mined (tab board_3x3) = 1%nat /\
  count2 Square.revealed (tab board_3x3) = 0%nat /\
  count2 Square.flagged (tab board_3x3) = 0%nat.
Proof.
  split; [vm_compute; reflexivity|].
  split; [repeat constructor; vm_compute; reflexivity|].
  split; [repeat constructor; vm_compute; reflexivity|].
  repeat split; vm_compute; reflexivity.
Qed.

(** ** C3: flags on revealed Squares *)

(** C3, as the specification states it, fails: on a 1x1 board without
    mines, after [reveal(0,0)] the call [place_flag(0,0)] changes the board,
    and leaves a Square that is both revealed and flagged. *)
Lemma place_flag_on_revealed_not_noop :
  inb (run [Reveal 0 0] (init 1 1)) 0 0 /\
  is_revealed (run [Reveal 0 0] (init 1 1)) 0 0 = Ret true /\
  place_flag 0 0 (run [Reveal 0 0] (init 1 1))
    <> (run [Reveal 0 0] (init 1 1), Ret tt) /\
  nflags (run [Reveal 0 0] (init 1 1)) = 0 /\
  nflags (run [Reveal 0 0; PlaceFlag 0 0] (init 1 1)) = 1 /\
  is_flagged (run [Reveal 0 0; PlaceFlag 0 0] (init 1 1)) 0 0 = Ret true /\
  is_revealed (run [Reveal 0 0; PlaceFlag 0 0] (init 1 1)) 0 0 = Ret true /\
  ~ nfr (run [Reveal 0 0; PlaceFlag 0 0] (init 1 1)).
Proof.
  split; [vm_compute; repeat split; congruence|].
  split; [reflexivity|].
  split; [vm_compute; discriminate|].
  split; [reflexivity|]. split; [reflexivity|].
  split; [reflexivity|]. split; [reflexivity|].
  intros H. specialize (H (0%nat, 0%nat) _ eq_refl). vm_compute in H. discriminate.
Qed.

(** C3 (amended). [place_flag] does not look at [revealed]: on an
    unflagged Square it sets the flag and increments [nflags], revealed or
    not. The check is made by the caller: [right_click_handler] returns
    without calling it when the Square is revealed. Hence, in every state
    reached from a new board by calls in which [place_flag] is applied only
    to Squares that are not revealed, no Square is both revealed and
    flagged. *)
Theorem flags_only_on_unrevealed os nr nc :
  guarded os (init nr nc) ->
  nfr (run os (init nr nc)) /\
  (forall i j, is_revealed (run os (init nr nc)) i j = Ret true ->
     MinesweeperApp.right_click_handler i j (run os (init nr nc))
     = (run os (init nr nc), Ret tt)) /\
  (forall i j s p,
     square_at (run os (init nr nc)) i j = Ret s -> Square.flagged s = false ->
     locate (tab (run os (init nr nc))) i j = Some p ->
     place_flag i j (run os (init nr nc)) = (flag_at p (run os (init nr nc)), Ret tt)).
Proof.
  intros Hg. split; [apply nfr_run; [apply nfr_init|exact Hg]|].
  split; [intros i j; apply right_click_revealed|].
  intros i j s p Es Ef Hl. rewrite place_flag_eq, Es, Ef, Hl. reflexivity.
Qed.

Lemma flags_only_on_unrevealed_witness :
  guarded [PlaceMine 2 2; PlaceFlag 2 2; Reveal 0 0; RemoveFlag 2 2] (init 3 3) /\
  nfr (run [PlaceMine 2 2; PlaceFlag 2 2; Reveal 0 0; RemoveFlag 2 2] (init 3 3)).
Proof.
  assert (guarded [PlaceMine 2 2; PlaceFlag 2 2; Reveal 0 0; RemoveFlag 2 2] (init 3 3))
    as Hg.
  { simpl. repeat split; auto; vm_compute; discriminate. }
  split; [exact Hg|].
  exact (proj1 (flags_only_on_unrevealed _ 3 3 Hg)).
Defined.

(** ** C4: the counts of neighboring mines *)



(** The positions of C4 are positions of the board. Python accepts a
    negative index and counts it from the end: [place_mine(-1,-1)] on a 3x3
    board mines the Square at (2,2) but increments the counter of (0,0),
    the only position [neighbors(-1,-1)] returns. *)
Lemma place_mine_negative_index :
  snd (place_mine (-1) (-1) (init 3 3)) = Ret tt /\
  mine_at (fst (place_mine (-1) (-1) (init 3 3))) 2 2 = Ret true /\
  neighbors (init 3 3) (-1) (-1) = [(0, 0)] /\
  mines_nearby (fst (place_mine (-1) (-1) (init 3 3))) 0 0 = Ret 1 /\
  mines_nearby (fst (place_mine (-1) (-1) (init 3 3))) 1 1 = Ret 0.
Proof. repeat split; vm_compute; reflexivity. Qed.

(** ** C5: the number of mines of a new game *)

(** C5. On a well-shaped board of [nrows] by [ncols] Squares and for every
    random source: [random_game n] with [0 <= n <= nrows * ncols] returns
    with [nmines = n], exactly [n] mined Squares, and no Square revealed or
    flagged; with [n > nrows * ncols] it raises [ValueError] (the error of
    [random.sample]) and no mine is placed. *)
Theorem random_game_mine_count g rnd n :
  shape_ok g -> 0 <= nrows g -> 0 <= ncols g ->
  (0 <= n <= nrows g * ncols g ->
     exists g', random_game rnd n g = (g', Ret tt) /\
       nmines g' = n /\
       Z.of_nat (count2 Square.mined (tab g')) = n /\
       count2 Square.revealed (tab g') = 0%nat /\
       count2 Square.flagged (tab g') = 0%nat /\
       nflags g' = 0 /\ squares_revealed g' = 0) /\
  (nrows g * ncols g < n ->
     snd (random_game rnd n g) = Raise ValueError /\
     count2 Square.mined (tab (fst (random_game rnd n g))) = 0%nat /\
     nmines (fst (random_game rnd n g)) = 0).
Proof.
  intros Hs Hr Hc. split.
  - intros Hn.
    destruct (random_game_accept rnd n g Hs Hr Hc Hn)
      as (g' & E & (_ & _ & Hm) & [Hf Hv] & Nm & Nf & Nr).
    exists g'. split; [exact E|]. split; [exact Nm|].
    unfold mines_ok in Hm. split; [lia|]. split; [lia|]. split; [lia|]. auto.
  - intros Hn. rewrite (random_game_reject rnd n g Hr Hc (or_intror Hn)).
    split; [reflexivity|]. unfold reset, modify. simpl.
    rewrite count_if_reset by reflexivity. split; reflexivity.
Qed.

Lemma random_game_mine_count_witness :
  (exists g', random_game [5%nat; 3%nat; 7%nat] 3 revealed_3x3 = (g', Ret tt) /\
     nmines g' = 3 /\
     Z.of_nat (count2 Square.mined (tab g')) = 3 /\
     count2 Square.revealed (tab g') = 0%nat /\
     count2 Square.flagged (tab g') = 0%nat /\
     nflags g' = 0 /\ squares_revealed g' = 0) /\
  snd (random_game [5%nat; 3%nat; 7%nat] 10 revealed_3x3) = Raise ValueError.
Proof.
  assert (shape_ok revealed_3x3) as Hs.
  { split; [reflexivity|]. vm_compute. repeat constructor. }
  split.
  - apply (random_game_mine_count revealed_3x3 [5%nat; 3%nat; 7%nat] 3 Hs);
      vm_compute; try split; congruence.
  - apply (random_game_mine_count revealed_3x3 [5%nat; 3%nat; 7%nat] 10 Hs);
      vm_compute; congruence.
Defined.

(** ** C6: chording *)



(** ** C7: the counters *)

(** C7. After every sequence of calls of [reveal], [chording],
    [place_flag], [remove_flag], [place_mine], [random_game] and [reset] on
    a new board, whatever their arguments and whether they returned or
    raised, [nflags] is the number of flagged Squares and
    [squares_revealed] the number of revealed Squares. *)
Theorem counters_count_squares os nr nc :
  nflags (run os (init nr nc))
  = Z.of_nat (count2 Square.flagged (tab (run os (init nr nc)))) /\
  squares_revealed (run os (init nr nc))
  = Z.of_nat (count2 Square.revealed (tab (run os (init nr nc)))).
Proof. apply (counts_ok_run os (init nr nc)), counts_ok_init. Qed.

(** ** C8: calls that are silent no-ops *)

(** C8. [reveal] of a revealed or flagged Square, [place_flag] of a flagged
    Square, [remove_flag] of an unflagged Square and [chording] where the
    number of flagged neighbors differs from [mines_nearby] return without
    raising and leave the whole grid as it was. *)
Theorem silent_noops g i j :
  (is_revealed g i j = Ret true \/ is_flagged g i j = Ret true ->
     reveal i j g = (g, Ret tt)) /\
  (is_flagged g i j = Ret true -> place_flag i j g = (g, Ret tt)) /\
  (is_flagged g i j = Ret false -> remove_flag i j g = (g, Ret tt)) /\
  (forall f m, flags_nearby g i j = Ret f -> mines_nearby g i j = Ret m ->
     f <> m -> chording i j g = (g, Ret tt)).
Proof.
  split; [apply reveal_noop|]. split; [apply place_flag_noop|].
  split; [apply remove_flag_noop|].
  intros f m Ef Em Hne. rewrite (chording_eq i j g f m Ef Em).
  replace (f =? m) with false by (symmetry; apply Z.eqb_neq, Hne). reflexivity.
Qed.

Lemma silent_noops_witness :
  reveal 0 0 chord_board = (chord_board, Ret tt) /\
  reveal 1 1 chord_board = (chord_board, Ret tt) /\
  place_flag 0 0 chord_board = (chord_board, Ret tt) /\
  remove_flag 2 2 chord_board = (chord_board, Ret tt) /\
  chording 1 1 chord_board = (chord_board, Ret tt).
Proof.
  split; [apply (proj1 (silent_noops chord_board 0 0)); right; reflexivity|].
  split; [apply (proj1 (silent_noops chord_board 1 1)); left; reflexivity|].
  split; [apply (proj1 (proj2 (silent_noops chord_board 0 0))); reflexivity|].
  split; [apply (proj1 (proj2 (proj2 (silent_noops chord_board 2 2)))); reflexivity|].
  apply (proj2 (proj2 (proj2 (silent_noops chord_board 1 1))) 1 2);
    [reflexivity|reflexivity|discriminate].
Defined.

(** ** C9: the recursion of reveal terminates *)



(** ** C10: a rejected new game leaves a blank board *)

(** C10. [random_game n] with more mines than the board has Squares first
    resets the grid and then raises [ValueError]: the grid it leaves is the
    reset one, with every Square blank and the three counters at zero, not
    the grid of the call; unless that grid was blank already, the board has
    changed. *)
Theorem random_game_rejected_after_reset g rnd n :
  0 <= nrows g -> 0 <= ncols g -> nrows g * ncols g < n ->
  random_game rnd n g = (fst (reset g), Raise ValueError) /\
  blank (fst (random_game rnd n g)) /\
  nmines (fst (random_game rnd n g)) = 0 /\
  nflags (fst (random_game rnd n g)) = 0 /\
  squares_revealed (fst (random_game rnd n g)) = 0 /\
  (~ blank g -> fst (random_game rnd n g) <> g).
Proof.
  intros Hr Hc Hn. rewrite (random_game_reject rnd n g Hr Hc (or_intror Hn)).
  split; [reflexivity|]. cbn [fst].
  split; [apply blank_reset|]. split; [reflexivity|]. split; [reflexivity|].
  split; [reflexivity|].
  intros Hnb Heq. apply Hnb. rewrite <- Heq. apply blank_reset.
Qed.

Lemma random_game_rejected_after_reset_witness :
  random_game [] 10 revealed_3x3 = (fst (reset revealed_3x3), Raise ValueError) /\
  blank (fst (random_game [] 10 revealed_3x3)) /\
  squares_revealed revealed_3x3 = 8 /\
  squares_revealed (fst (random_game [] 10 revealed_3x3)) = 0.
Proof.
  destruct (random_game_rejected_after_reset revealed_3x3 [] 10)
    as (E & B & _ & _ & Q & _); [vm_compute; congruence..|].
  split; [exact E|]. split; [exact B|]. split; [reflexivity|exact Q].
Defined.

(** * Further properties of the code *)

(** ** neighbors *)

(** X1. [neighbors(i, j)] lists, without repetition, exactly the positions
    of the board other than [(i, j)] at most one row and one column away;
    there are at most eight. *)
Theorem neighbors_spec g i j :
  NoDup (neighbors g i j) /\
  (length (neighbors g i j) <= 8)%nat /\
  forall x y, (x, y) ∈ neighbors g i j <->
    inb g x y /\ (x, y) <> (i, j) /\ i - 1 <= x <= i + 1 /\ j - 1 <= y <= j + 1.
Proof.
  split; [apply NoDup_neighbors|]. split; [|intros x y; apply elem_of_neighbors].
  rewrite neighbors_filter.
  etransitivity; [apply List.filter_length_le|]. reflexivity.
Qed.

(** X2. Being a neighbor is symmetric between positions of the board. *)
Theorem neighbors_symmetric g i j x y :
  inb g i j -> inb g x y ->
  ((x, y) ∈ neighbors g i j <-> (i, j) ∈ neighbors g x y).
Proof.
  intros Hij Hxy. split; intros H.
  - apply (neighbors_sym g i j x y Hij) in H. tauto.
  - apply (neighbors_sym g i j x y Hij). auto.
Qed.

Lemma neighbors_symmetric_witness :
  (1, 2) ∈ neighbors (init 3 3) 2 2 <-> (2, 2) ∈ neighbors (init 3 3) 1 2.
Proof.
  apply (neighbors_symmetric (init 3 3) 2 2 1 2); vm_compute; repeat split; congruence.
Defined.

(** X3. The number of neighbors of a position of the board: the rows
    available around it times the columns available around it, minus the
    position itself; eight in the interior, three in a corner of a board
    with at least two rows and two columns, none on a 1x1 board. *)
Theorem neighbors_length g i j :
  inb g i j ->
  Z.of_nat (length (neighbors g i j)) =
    (1 + (if 0 <? i then 1 else 0) + (if i <? nrows g - 1 then 1 else 0))
    * (1 + (if 0 <? j then 1 else 0) + (if j <? ncols g - 1 then 1 else 0)) - 1.
Proof.
  intros [Hi Hj]. rewrite neighbors_filter. unfold around, inbb. cbn [List.filter fst snd].
  destruct (0 <? i) eqn:E1, (i <? nrows g - 1) eqn:E2,
           (0 <? j) eqn:E3, (j <? ncols g - 1) eqn:E4;
    repeat match goal with
    | |- context [if ?b then _ :: _ else _] =>
        first [replace b with true by lia | replace b with false by lia]
    end; reflexivity.
Qed.

Lemma neighbors_length_witness :
  Z.of_nat (length (neighbors (init 3 3) 1 1)) = 8 /\
  Z.of_nat (length (neighbors (init 3 3) 0 2)) = 3 /\
  Z.of_nat (length (neighbors (init 1 1) 0 0)) = 0.
Proof.
  split; [|split].
  - apply (neighbors_length (init 3 3) 1 1). vm_compute. repeat split; congruence.
  - apply (neighbors_length (init 3 3) 0 2). vm_compute. repeat split; congruence.
  - apply (neighbors_length (init 1 1) 0 0). vm_compute. repeat split; congruence.
Defined.

(** ** Indexing the table *)

Lemma py_index_wrap len i :
  - Z.of_nat len <= i < Z.of_nat len ->
  py_index len i = Some (Z.to_nat (i mod Z.of_nat len)).
Proof.
  intros H. unfold py_index.
  destruct (Z.le_gt_cases 0 i) as [Hi|Hi].
  - replace ((0 <=? i) && (i <? Z.of_nat len)) with true by lia.
    rewrite Z.mod_small by lia. reflexivity.
  - replace ((0 <=? i) && (i <? Z.of_nat len)) with false by lia.
    replace ((- Z.of_nat len <=? i) && (i <? 0)) with true by lia.
    do 2 f_equal. rewrite <- (Z_mod_plus_full i 1 (Z.of_nat len)).
    rewrite Z.mod_small by lia. lia.
Qed.

Lemma py_index_out len i :
  ~ (- Z.of_nat len <= i < Z.of_nat len) -> py_index len i = None.
Proof.
  intros H. unfold py_index.
  replace ((0 <=? i) && (i <? Z.of_nat len)) with false by lia.
  replace ((- Z.of_nat len <=? i) && (i <? 0)) with false by lia. reflexivity.
Qed.

Lemma locate_wrap g i j :
  shape_ok g ->
  - nrows g <= i < nrows g -> - ncols g <= j < ncols g ->
  locate (tab g) i j = Some (Z.to_nat (i mod nrows g), Z.to_nat (j mod ncols g)).
Proof.
  intros [Hr Hc] Hi Hj. unfold locate.
  rewrite py_index_wrap by lia. rewrite Hr, Z2Nat.id by lia.
  assert (0 <= i mod nrows g < nrows g) as Hm by (apply Z.mod_pos_bound; lia).
  destruct (tab g !! Z.to_nat (i mod nrows g)) as [rw|] eqn:E.
  - assert (length rw = Z.to_nat (ncols g)) as Hl.
    { eapply Forall_lookup_1 in Hc; eauto. }
    rewrite py_index_wrap by lia. rewrite Hl, Z2Nat.id by lia. reflexivity.
  - apply lookup_ge_None in E. lia.
Qed.

Lemma locate_out g i j :
  shape_ok g ->
  ~ (- nrows g <= i < nrows g /\ - ncols g <= j < ncols g) ->
  locate (tab g) i j = None.
Proof.
  intros [Hr Hc] H. unfold locate.
  destruct (py_index (length (tab g)) i) as [r|] eqn:Er; [|reflexivity].
  destruct (tab g !! r) as [rw|] eqn:E; [|reflexivity].
  assert (length rw = Z.to_nat (ncols g)) as Hl.
  { eapply Forall_lookup_1 in Hc; eauto. }
  rewrite py_index_out; [reflexivity|].
  intros Hj. apply H. split; [|lia].
  destruct (decide (- Z.of_nat (length (tab g)) <= i < Z.of_nat (length (tab g))))
    as [Hi|Hi]; [lia|].
  rewrite py_index_out in Er by exact Hi. discriminate.
Qed.

(** X4. On a well-shaped board [square_at(i, j)] returns a Square exactly
    when [-nrows <= i < nrows] and [-ncols <= j < ncols]; it is then the
    Square at row [i mod nrows] and column [j mod ncols] (a negative index
    counts from the end); for every other pair it raises [IndexError]. *)
Theorem square_at_bounds g i j :
  shape_ok g ->
  (- nrows g <= i < nrows g /\ - ncols g <= j < ncols g ->
     exists s, square_at g i j = Ret s /\
               square_at g (i mod nrows g) (j mod ncols g) = Ret s /\
               inb g (i mod nrows g) (j mod ncols g)) /\
  (~ (- nrows g <= i < nrows g /\ - ncols g <= j < ncols g) ->
     square_at g i j = Raise IndexError).
Proof.
  intros Hs. split.
  - intros [Hi Hj].
    assert (inb g (i mod nrows g) (j mod ncols g)) as Hb.
    { split; apply Z.mod_pos_bound; lia. }
    destruct (square_at_inb g _ _ Hs Hb) as (s & Hc & Es).
    exists s. split; [|split; [exact Es|exact Hb]].
    rewrite square_at_locate, (locate_wrap g i j Hs Hi Hj), Hc. reflexivity.
  - intros H. rewrite square_at_locate, (locate_out g i j Hs H). reflexivity.
Qed.

Lemma square_at_bounds_witness :
  (exists s, square_at revealed_3x3 (-1) (-3) = Ret s /\
             square_at revealed_3x3 2 0 = Ret s) /\
  square_at revealed_3x3 3 0 = Raise IndexError.
Proof.
  assert (shape_ok revealed_3x3) as Hs.
  { split; [reflexivity|]. vm_compute. repeat constructor. }
  split.
  - destruct (proj1 (square_at_bounds revealed_3x3 (-1) (-3) Hs)) as (s & E1 & E2 & _).
    + vm_compute. repeat split; congruence.
    + exists s. split; [exact E1|exact E2].
  - apply (proj2 (square_at_bounds revealed_3x3 3 0 Hs)).
    vm_compute. intros [[_ H] _]. discriminate H.
Defined.

(** ** The dimensions and the places of the Squares never change *)

Lemma coords_ok_alter h p g :
  (forall s, Square.row (h s) = Square.row s /\ Square.col (h s) = Square.col s) ->
  coords_ok g -> coords_ok (set_tab (alter_cell h p (tab g)) g).
Proof.
  intros Hh Hg r c s. simpl. rewrite cell_alter_cell.
  destruct (decide (p = (r, c))) as [->|Hne]; [|apply Hg].
  destruct (cell (tab g) (r, c)) as [s0|] eqn:E; simpl; [|discriminate].
  intros [= <-]. destruct (Hh s0) as [-> ->]. apply Hg, E.
Qed.

Lemma coords_ok_update_square i j h g :
  (forall s, Square.row (h s) = Square.row s /\ Square.col (h s) = Square.col s) ->
  keeps coords_ok g (fst (update_square i j h g)).
Proof.
  intros Hh Hg. unfold update_square.
  destruct (locate (tab g) i j) as [p|]; simpl; [|exact Hg].
  apply coords_ok_alter; assumption.
Qed.

Lemma coords_ok_place_mine i j g : keeps coords_ok g (fst (place_mine i j g)).
Proof.
  rewrite place_mine_eq.
  destruct (square_at g i j) as [s|e|]; simpl; try apply keeps_refl.
  destruct (Square.mined s); simpl; [apply keeps_refl|].
  destruct (locate (tab g) i j) as [p|] eqn:Hl; simpl; [|apply keeps_refl].
  eapply keeps_trans.
  - intros Hg. apply (coords_ok_alter (Square.set_mined true) p g); [|exact Hg].
    intros s0. split; reflexivity.
  - apply keeps_bind.
    + apply keeps_for_each. intros [x y] g'. apply coords_ok_update_square.
      intros s0. split; reflexivity.
    + intros _ g' H. exact H.
Qed.

Lemma coords_ok_reset g : keeps coords_ok g (fst (reset g)).
Proof.
  intros Hg r c s. unfold reset, modify. simpl. rewrite cell_map.
  destruct (cell (tab g) (r, c)) as [s0|] eqn:E; simpl; [|discriminate].
  intros [= <-]. simpl. apply Hg, E.
Qed.

Lemma coords_ok_step o g : coords_ok g -> coords_ok (step o g).
Proof.
  unfold step. destruct o as [i j|i j|i j|i j|i j|rnd n|]; simpl.
  - apply keeps_reveal. intros g0 _ _ p _ _ _ _ _ H0.
    apply (coords_ok_alter (Square.set_revealed true) p g0); [|exact H0].
    intros s0. split; reflexivity.
  - apply keeps_chording. intros g0 _ _ p _ _ _ _ _ H0.
    apply (coords_ok_alter (Square.set_revealed true) p g0); [|exact H0].
    intros s0. split; reflexivity.
  - intros Hg. rewrite place_flag_eq.
    destruct (square_at g i j) as [s|e|]; simpl; try exact Hg.
    destruct (Square.flagged s); simpl; [exact Hg|].
    destruct (locate (tab g) i j) as [p|]; simpl; [|exact Hg].
    apply (coords_ok_alter (Square.set_flagged true) p g); [|exact Hg].
    intros s0. split; reflexivity.
  - intros Hg. rewrite remove_flag_eq.
    destruct (square_at g i j) as [s|e|]; simpl; try exact Hg.
    destruct (Square.flagged s); simpl; [|exact Hg].
    destruct (locate (tab g) i j) as [p|]; simpl; [|exact Hg].
    apply (coords_ok_alter (Square.set_flagged false) p g); [|exact Hg].
    intros s0. split; reflexivity.
  - apply coords_ok_place_mine.
  - intros Hg. rewrite random_game_eq.
    pose proof (coords_ok_reset g Hg) as H0.
    destruct (sample rnd (population g) n) as [chosen|e|]; simpl; try exact H0.
    revert H0. apply keeps_for_each. intros [x y] g'. apply coords_ok_place_mine.
  - apply coords_ok_reset.
Qed.

Lemma coords_ok_init nr nc : coords_ok (init nr nc).
Proof.
  intros r c s. unfold init, cell, range. simpl. rewrite list_lookup_fmap.
  destruct (seqZ 0 nr !! r) as [i|] eqn:Ei; simpl; [|discriminate].
  rewrite list_lookup_fmap. destruct (seqZ 0 nc !! c) as [j|] eqn:Ej; simpl; [|discriminate].
  intros [= <-]. apply lookup_seqZ in Ei, Ej. simpl. lia.
Qed.

Lemma coords_ok_run os nr nc : coords_ok (run os (init nr nc)).
Proof.
  unfold run. generalize (coords_ok_init nr nc). generalize (init nr nc).
  induction os as [|o os IH]; intros g Hg; simpl; [exact Hg|].
  apply IH, coords_ok_step, Hg.
Qed.

Lemma dims_update_square i j h g nr nc :
  keeps (dims_are nr nc) g (fst (update_square i j h g)).
Proof.
  intros Hg. unfold update_square. destruct (locate (tab g) i j); simpl; exact Hg.
Qed.

Lemma dims_place_mine i j g nr nc :
  keeps (dims_are nr nc) g (fst (place_mine i j g)).
Proof.
  rewrite place_mine_eq.
  destruct (square_at g i j) as [s|e|]; cbn [fst]; try apply keeps_refl.
  destruct (Square.mined s); cbn [fst]; [apply keeps_refl|].
  destruct (locate (tab g) i j) as [p|] eqn:Hl; cbn [fst]; [|apply keeps_refl].
  apply (keeps_trans (dims_are nr nc) g
           (set_tab (alter_cell (Square.set_mined true) p (tab g)) g)).
  - intros Hg. exact Hg.
  - apply (keeps_bind (dims_are nr nc)).
    + apply (keeps_for_each (dims_are nr nc)).
      intros [x y] g'. apply dims_update_square.
    + intros _ g' H. exact H.
Qed.

Lemma dims_step o g nr nc : dims_are nr nc g -> dims_are nr nc (step o g).
Proof.
  unfold step. destruct o as [i j|i j|i j|i j|i j|rnd n|]; simpl.
  - apply (keeps_reveal (dims_are nr nc)). intros g0 _ _ p _ _ _ _ _ H0. exact H0.
  - apply (keeps_chording (dims_are nr nc)). intros g0 _ _ p _ _ _ _ _ H0. exact H0.
  - intros Hg. rewrite place_flag_eq.
    destruct (square_at g i j) as [s|e|]; simpl; try exact Hg.
    destruct (Square.flagged s); simpl; [exact Hg|].
    destruct (locate (tab g) i j) as [p|]; simpl; exact Hg.
  - intros Hg. rewrite remove_flag_eq.
    destruct (square_at g i j) as [s|e|]; simpl; try exact Hg.
    destruct (Square.flagged s); simpl; [|exact Hg].
    destruct (locate (tab g) i j) as [p|]; simpl; exact Hg.
  - apply dims_place_mine.
  - intros Hg. rewrite random_game_eq.
    assert (dims_are nr nc (fst (reset g))) as H0 by exact Hg.
    destruct (sample rnd (population g) n) as [chosen|e|]; simpl; try exact H0.
    revert H0. apply (keeps_for_each (dims_are nr nc)).
    intros [x y] g'. apply dims_place_mine.
  - intros Hg. exact Hg.
Qed.

Lemma dims_run os nr nc :
  nrows (run os (init nr nc)) = nr /\ ncols (run os (init nr nc)) = nc.
Proof.
  unfold run.
  assert (dims_are nr nc (init nr nc)) as H by (split; reflexivity).
  revert H. generalize (init nr nc).
  induction os as [|o os IH]; intros g Hg; simpl; [exact Hg|].
  apply IH, dims_step, Hg.
Qed.

(** X5. Whatever is called on a new board, with whatever arguments and
    whether the calls return or raise, [nrows] and [ncols] keep their
    value, and the Square that [square_at(i, j)] returns for a position of
    the board is the one created for it: its [row] is [i] and its [col] is
    [j]. *)
Theorem squares_stay_in_place os nr nc i j :
  0 <= i < nr -> 0 <= j < nc ->
  nrows (run os (init nr nc)) = nr /\
  ncols (run os (init nr nc)) = nc /\
  exists s, square_at (run os (init nr nc)) i j = Ret s /\
            Square.row s = i /\ Square.col s = j.
Proof.
  intros Hi Hj. destruct (dims_run os nr nc) as [Hr Hc].
  split; [exact Hr|]. split; [exact Hc|].
  destruct (square_at_inb (run os (init nr nc)) i j (shape_ok_run os nr nc))
    as (s & Hcell & Es).
  { unfold inb. rewrite Hr, Hc. auto. }
  exists s. split; [exact Es|].
  destruct (coords_ok_run os nr nc _ _ _ Hcell) as [H1 H2]. lia.
Qed.

Lemma squares_stay_in_place_witness :
  exists s, square_at chord_board 1 2 = Ret s /\ Square.row s = 1 /\ Square.col s = 2.
Proof.
  destruct (squares_stay_in_place
              [PlaceMine 0 0; PlaceMine 0 2; Reveal 1 1; PlaceFlag 0 0] 3 3 1 2)
    as (_ & _ & H); [lia|lia|exact H].
Defined.

(** ** reset *)

Lemma reset_tab_init g :
  shape_ok g -> coords_ok g ->
  map (map Square.reset) (tab g) = tab (init (nrows g) (ncols g)).
Proof.
  intros [Hr Hc] Hco. unfold init, range. simpl.
  apply list_eq. intros r. rewrite !list_lookup_fmap.
  destruct (tab g !! r) as [rw|] eqn:Er; simpl.
  - assert ((r < length (tab g))%nat) as Hlt by (eapply lookup_lt_Some; eauto).
    rewrite lookup_seqZ_lt by lia. simpl. f_equal.
    assert (length rw = Z.to_nat (ncols g)) as Hl.
    { eapply Forall_lookup_1 in Hc; eauto. }
    apply list_eq. intros c. rewrite !list_lookup_fmap.
    destruct (rw !! c) as [s|] eqn:Ec; simpl.
    + assert ((c < length rw)%nat) as Hlc by (eapply lookup_lt_Some; eauto).
      rewrite lookup_seqZ_lt by lia. simpl. f_equal.
      destruct (Hco r c s) as [H1 H2].
      { unfold cell. simpl. rewrite Er. exact Ec. }
      unfold Square.reset, Square.init. rewrite H1, H2. f_equal; lia.
    + apply lookup_ge_None in Ec. rewrite lookup_seqZ_ge by lia. reflexivity.
  - apply lookup_ge_None in Er. rewrite lookup_seqZ_ge by lia. reflexivity.
Qed.

Lemma reset_is_init g :
  shape_ok g -> coords_ok g -> fst (reset g) = init (nrows g) (ncols g).
Proof.
  intros Hs Hc. unfold reset, modify. cbn [fst].
  rewrite (reset_tab_init g Hs Hc). reflexivity.
Qed.

(** X6. [reset] gives back the board as [GameGrid(nrows, ncols)] built it:
    whatever was called before, the grid after [reset] equals the new
    grid, Square by Square and counter by counter. *)
Theorem reset_restores_new_board os nr nc :
  reset (run os (init nr nc)) = (init nr nc, Ret tt).
Proof.
  destruct (dims_run os nr nc) as [Hr Hc].
  pose proof (reset_is_init _ (shape_ok_run os nr nc) (coords_ok_run os nr nc)) as E.
  rewrite Hr, Hc in E.
  change (reset (run os (init nr nc)))
    with (fst (reset (run os (init nr nc))), @Ret unit tt).
  rewrite E. reflexivity.
Qed.

(** ** Placing and removing a flag *)

Lemma alter_id_at {A} (f : A -> A) (l : list A) k x :
  l !! k = Some x -> f x = x -> alter f k l = l.
Proof.
  intros Hk Hf. apply list_eq. intros k'. rewrite list_lookup_alter.
  destruct (decide (k = k')) as [<-|Hne]; [|reflexivity].
  rewrite Hk. simpl. rewrite Hf. reflexivity.
Qed.

Lemma alter_cell_undo f h p tb s :
  cell tb p = Some s -> f (h s) = s ->
  alter_cell f p (alter_cell h p tb) = tb.
Proof.
  unfold cell, alter_cell. destruct p as [r c]. simpl. intros Hc Hf.
  destruct (tb !! r) as [rw|] eqn:Er; [|discriminate].
  rewrite list_alter_alter_eq. apply (alter_id_at _ tb r rw Er). simpl.
  rewrite list_alter_alter_eq. apply (alter_id_at _ rw c s Hc). exact Hf.
Qed.

Lemma place_flag_then_remove g i j s :
  square_at g i j = Ret s -> Square.flagged s = false ->
  exists p, locate (tab g) i j = Some p /\
    place_flag i j g = (flag_at p g, Ret tt) /\
    square_at (flag_at p g) i j = Ret (Square.set_flagged true s) /\
    remove_flag i j (flag_at p g) = (g, Ret tt).
Proof.
  intros Es0 Hf. rewrite place_flag_eq.
  destruct (square_at_cases g i j) as [(p & s' & Hl & Hc & Es)|[Hl Es]];
    rewrite Es in Es0; [|discriminate].
  injection Es0 as ->. rewrite Es, Hf, Hl. exists p. split; [reflexivity|].
  assert (square_at (flag_at p g) i j = Ret (Square.set_flagged true s)) as Es'.
  { rewrite square_at_locate. simpl.
    rewrite locate_alter_cell, Hl, cell_alter_cell_eq, Hc. reflexivity. }
  split; [reflexivity|]. split; [exact Es'|].
  rewrite remove_flag_eq, Es'. simpl. rewrite locate_alter_cell, Hl.
  f_equal. unfold unflag_at, flag_at. simpl.
  rewrite (alter_cell_undo _ _ p (tab g) s Hc).
  + destruct g. unfold set_nflags, set_tab. simpl. f_equal. lia.
  + destruct s; simpl in *. subst. reflexivity.
Qed.

Lemma remove_flag_then_place g i j s :
  square_at g i j = Ret s -> Square.flagged s = true ->
  exists p, locate (tab g) i j = Some p /\
    remove_flag i j g = (unflag_at p g, Ret tt) /\
    square_at (unflag_at p g) i j = Ret (Square.set_flagged false s) /\
    place_flag i j (unflag_at p g) = (g, Ret tt).
Proof.
  intros Es0 Hf. rewrite remove_flag_eq.
  destruct (square_at_cases g i j) as [(p & s' & Hl & Hc & Es)|[Hl Es]];
    rewrite Es in Es0; [|discriminate].
  injection Es0 as ->. rewrite Es, Hf, Hl. exists p. split; [reflexivity|].
  assert (square_at (unflag_at p g) i j = Ret (Square.set_flagged false s)) as Es'.
  { rewrite square_at_locate. simpl.
    rewrite locate_alter_cell, Hl, cell_alter_cell_eq, Hc. reflexivity. }
  split; [reflexivity|]. split; [exact Es'|].
  rewrite place_flag_eq, Es'. simpl. rewrite locate_alter_cell, Hl.
  f_equal. unfold unflag_at, flag_at. simpl.
  rewrite (alter_cell_undo _ _ p (tab g) s Hc).
  + destruct g. unfold set_nflags, set_tab. simpl. f_equal. lia.
  + destruct s; simpl in *. subst. reflexivity.
Qed.

(** X7. A flag placed and removed again leaves the grid exactly as it
    was: on an unflagged Square [place_flag] then [remove_flag] return and
    give back the grid, and on a flagged Square so do [remove_flag] then
    [place_flag]. *)
Theorem flag_round_trip g i j :
  (is_flagged g i j = Ret false ->
     snd (place_flag i j g) = Ret tt /\
     is_flagged (fst (place_flag i j g)) i j = Ret true /\
     nflags (fst (place_flag i j g)) = nflags g + 1 /\
     remove_flag i j (fst (place_flag i j g)) = (g, Ret tt)) /\
  (is_flagged g i j = Ret true ->
     snd (remove_flag i j g) = Ret tt /\
     is_flagged (fst (remove_flag i j g)) i j = Ret false /\
     nflags (fst (remove_flag i j g)) = nflags g - 1 /\
     place_flag i j (fst (remove_flag i j g)) = (g, Ret tt)).
Proof.
  split; intros Hf; unfold is_flagged in Hf;
    destruct (square_at g i j) as [s|e|] eqn:Es; simpl in Hf; try discriminate;
    injection Hf as Hf.
  - destruct (place_flag_then_remove g i j s Es Hf) as (p & _ & E & Es' & Eu).
    rewrite E. cbn [fst snd]. split; [reflexivity|].
    split; [unfold is_flagged; rewrite Es'; reflexivity|]. split; [reflexivity|exact Eu].
  - destruct (remove_flag_then_place g i j s Es Hf) as (p & _ & E & Es' & Eu).
    rewrite E. cbn [fst snd]. split; [reflexivity|].
    split; [unfold is_flagged; rewrite Es'; reflexivity|]. split; [reflexivity|exact Eu].
Qed.

Lemma flag_round_trip_witness :
  remove_flag 2 2 (fst (place_flag 2 2 chord_board)) = (chord_board, Ret tt) /\
  place_flag 0 0 (fst (remove_flag 0 0 chord_board)) = (chord_board, Ret tt).
Proof.
  split.
  - apply (proj1 (flag_round_trip chord_board 2 2)). reflexivity.
  - apply (proj2 (flag_round_trip chord_board 0 0)). reflexivity.
Defined.

(** ** What reveal and chording leave alone *)

Lemma mine_at_mark g p x y : mine_at (mark p g) x y = mine_at g x y.
Proof.
  unfold mine_at. rewrite !square_at_locate. simpl.
  rewrite locate_alter_cell.
  destruct (locate (tab g) x y) as [q|]; [|reflexivity].
  rewrite cell_alter_cell. destruct (decide (p = q)) as [->|Hne]; [|reflexivity].
  destruct (cell (tab g) q) as [s|]; reflexivity.
Qed.

Lemma mines_nearby_mark g p x y : mines_nearby (mark p g) x y = mines_nearby g x y.
Proof.
  unfold mines_nearby. rewrite !square_at_locate. simpl.
  rewrite locate_alter_cell.
  destruct (locate (tab g) x y) as [q|]; [|reflexivity].
  rewrite cell_alter_cell. destruct (decide (p = q)) as [->|Hne]; [|reflexivity].
  destruct (cell (tab g) q) as [s|]; reflexivity.
Qed.

Lemma sq_frame_refl g : sq_frame g g.
Proof.
  unfold sq_frame. do 4 (split; [reflexivity|]). split; [lia|]. auto.
Qed.

Lemma sq_frame_trans a b c : sq_frame a b -> sq_frame b c -> sq_frame a c.
Proof.
  intros (R1 & C1 & M1 & F1 & Q1 & A1 & B1 & D1 & E1)
         (R2 & C2 & M2 & F2 & Q2 & A2 & B2 & D2 & E2).
  unfold sq_frame.
  split; [congruence|]. split; [congruence|]. split; [congruence|].
  split; [congruence|]. split; [lia|].
  split; [intros x y; rewrite A2; apply A1|].
  split; [intros x y; rewrite B2; apply B1|].
  split; [intros x y; rewrite D2; apply D1|].
  auto.
Qed.

Lemma sq_frame_mark g p : sq_frame g (mark p g).
Proof.
  unfold sq_frame.
  do 4 (split; [reflexivity|]). split; [simpl; lia|].
  split; [intros x y; apply mine_at_mark|].
  split; [intros x y; apply is_flagged_mark|].
  split; [intros x y; apply mines_nearby_mark|].
  intros x y. apply is_revealed_mark_mono.
Qed.

Lemma sq_frame_reveal_rec fuel i j g : sq_frame g (fst (reveal_rec fuel i j g)).
Proof.
  apply reveal_rec_rel.
  - apply sq_frame_refl.
  - apply sq_frame_trans.
  - intros. apply sq_frame_mark.
Qed.

(** X8. [reveal] and [chording] only reveal: for every grid and every
    pair of arguments, whether they return or raise, they leave the
    dimensions, [nmines], [nflags] and every Square's [mined], [flagged]
    and [mines_nearby] as they were, never hide a revealed Square and never
    decrease [squares_revealed]. *)
Theorem reveal_only_reveals g i j :
  sq_frame g (fst (reveal i j g)) /\ sq_frame g (fst (chording i j g)).
Proof.
  split.
  - apply sq_frame_reveal_rec.
  - apply chording_rel.
    + apply sq_frame_refl.
    + apply sq_frame_trans.
    + intros. apply sq_frame_mark.
Qed.

(** ** The mine counter in every reachable state *)

Lemma sm_ok_alter h p g :
  (forall s, Square.mined (h s) = Square.mined s) ->
  sm_ok g -> sm_ok (set_tab (alter_cell h p (tab g)) g).
Proof.
  intros Hh [Hs Hm]. split; [apply shape_ok_set_tab_alter, Hs|].
  unfold mines_ok in *. simpl.
  destruct (cell (tab g) p) as [s|] eqn:Hc.
  - pose proof (count2_alter_cell Square.mined h p _ s Hc) as E.
    rewrite Hh in E. lia.
  - assert (alter_cell h p (tab g) = tab g) as ->; [|exact Hm].
    unfold cell, alter_cell in *. destruct p as [r c]. simpl in *.
    apply list_eq. intros r'. rewrite list_lookup_alter.
    destruct (decide (r = r')) as [<-|Hne]; [|reflexivity].
    destruct (tab g !! r) as [rw|] eqn:Er; simpl; [|reflexivity].
    f_equal. apply list_eq. intros c'. rewrite list_lookup_alter.
    destruct (decide (c = c')) as [<-|Hne]; [|reflexivity].
    rewrite Hc. reflexivity.
Qed.

Lemma sm_ok_place_mine i j g : keeps sm_ok g (fst (place_mine i j g)).
Proof.
  intros [Hs Hm]. split.
  - apply shape_ok_place_mine, Hs.
  - apply mines_ok_place_mine; assumption.
Qed.

Lemma sm_ok_reset g : shape_ok g -> sm_ok (fst (reset g)).
Proof.
  intros Hs. split; [apply shape_ok_reset, Hs|].
  unfold mines_ok, reset, modify. simpl.
  rewrite count_if_reset by reflexivity. reflexivity.
Qed.

Lemma sm_ok_random_game rnd n g : shape_ok g -> sm_ok (fst (random_game rnd n g)).
Proof.
  intros Hs. rewrite random_game_eq.
  pose proof (sm_ok_reset g Hs) as H0.
  destruct (sample rnd (population g) n) as [chosen|e|]; cbn [fst]; try exact H0.
  revert H0. apply (keeps_for_each sm_ok). intros [x y] g'. apply sm_ok_place_mine.
Qed.

Lemma sm_ok_step o g : sm_ok g -> sm_ok (step o g).
Proof.
  unfold step. destruct o as [i j|i j|i j|i j|i j|rnd n|]; simpl.
  - apply (keeps_reveal sm_ok). intros g0 _ _ p _ _ _ _ _ H0.
    apply (sm_ok_alter (Square.set_revealed true) p g0); [reflexivity|exact H0].
  - apply (keeps_chording sm_ok). intros g0 _ _ p _ _ _ _ _ H0.
    apply (sm_ok_alter (Square.set_revealed true) p g0); [reflexivity|exact H0].
  - intros Hg. rewrite place_flag_eq.
    destruct (square_at g i j) as [s|e|]; cbn [fst]; try exact Hg.
    destruct (Square.flagged s); cbn [fst]; [exact Hg|].
    destruct (locate (tab g) i j) as [p|]; cbn [fst]; [|exact Hg].
    apply (sm_ok_alter (Square.set_flagged true) p g); [reflexivity|exact Hg].
  - intros Hg. rewrite remove_flag_eq.
    destruct (square_at g i j) as [s|e|]; cbn [fst]; try exact Hg.
    destruct (Square.flagged s); cbn [fst]; [|exact Hg].
    destruct (locate (tab g) i j) as [p|]; cbn [fst]; [|exact Hg].
    apply (sm_ok_alter (Square.set_flagged false) p g); [reflexivity|exact Hg].
  - apply sm_ok_place_mine.
  - intros [Hs _]. apply sm_ok_random_game, Hs.
  - intros [Hs _]. apply sm_ok_reset, Hs.
Qed.

Lemma sm_ok_run os nr nc : sm_ok (run os (init nr nc)).
Proof.
  unfold run.
  assert (sm_ok (init nr nc)) as H.
  { split; [apply shape_ok_init|].
    assert (reset (init nr nc) = (init nr nc, Ret tt)) as E.
    { unfold reset, modify. f_equal.
      rewrite (reset_tab_init _ (shape_ok_init nr nc) (coords_ok_run [] nr nc)).
      reflexivity. }
    pose proof (sm_ok_reset (init nr nc) (shape_ok_init nr nc)) as [_ H].
    rewrite E in H. exact H. }
  revert H. generalize (init nr nc).
  induction os as [|o os IH]; intros g Hg; simpl; [exact Hg|].
  apply IH, sm_ok_step, Hg.
Qed.

(** ** game_won and its docstring *)

Lemma elem_of_concat_cell (tb : list (list Square.t)) s :
  s ∈ concat tb <-> exists p, cell tb p = Some s.
Proof.
  rewrite list_elem_of_In, in_concat. unfold cell. split.
  - intros (rw & Hrw & Hs). apply list_elem_of_In, list_elem_of_lookup in Hrw, Hs.
    destruct Hrw as [r Hr], Hs as [c Hc]. exists (r, c). simpl. rewrite Hr. exact Hc.
  - intros ([r c] & H). simpl in H.
    destruct (tb !! r) as [rw|] eqn:Er; [|discriminate].
    exists rw. split; apply list_elem_of_In; eapply list_elem_of_lookup_2; eauto.
Qed.

Lemma cell_square_at g r c s :
  shape_ok g -> cell (tab g) (r, c) = Some s ->
  inb g (Z.of_nat r) (Z.of_nat c) /\
  square_at g (Z.of_nat r) (Z.of_nat c) = Ret s.
Proof.
  intros Hs Hc. pose proof Hs as [Hr Hcol]. unfold cell in Hc. simpl in Hc.
  destruct (tab g !! r) as [rw|] eqn:Er; [|discriminate].
  assert ((r < length (tab g))%nat) as H1 by (eapply lookup_lt_Some; eauto).
  assert ((c < length rw)%nat) as H2 by (eapply lookup_lt_Some; eauto).
  assert (length rw = Z.to_nat (ncols g)) as Hl.
  { eapply Forall_lookup_1 in Hcol; eauto. }
  assert (inb g (Z.of_nat r) (Z.of_nat c)) as Hb by (unfold inb; lia).
  split; [exact Hb|].
  destruct (square_at_inb g _ _ Hs Hb) as (s' & Hc' & Es).
  rewrite !Nat2Z.id in Hc'. unfold cell in Hc'. simpl in Hc'.
  rewrite Er, Hc in Hc'. congruence.
Qed.

Lemma count_if_disjoint_le {A} (p q : A -> bool) l :
  (forall x, x ∈ l -> p x && q x = false) ->
  (count_if p l + count_if q l <= length l)%nat.
Proof.
  induction l as [|x l IH]; intros H; simpl; [lia|].
  pose proof (H x ltac:(left)) as Hx.
  specialize (IH ltac:(intros y Hy; apply H; right; exact Hy)).
  destruct (p x), (q x); simpl in *; try discriminate; lia.
Qed.

Lemma count_if_partition {A} (p q : A -> bool) l :
  (forall x, x ∈ l -> p x && q x = false) ->
  ((count_if p l + count_if q l = length l)%nat <->
   forall x, x ∈ l -> p x = negb (q x)).
Proof.
  induction l as [|x l IH]; intros H; simpl.
  - split; [|reflexivity]. intros _ x Hx. apply elem_of_nil in Hx. contradiction.
  - pose proof (H x ltac:(left)) as Hx.
    assert (forall y, y ∈ l -> p y && q y = false) as Hl
      by (intros y Hy; apply H; right; exact Hy).
    specialize (IH Hl). pose proof (count_if_disjoint_le p q l Hl) as Hle.
    split.
    + intros E y Hy. apply elem_of_cons in Hy. destruct Hy as [->|Hy].
      * destruct (p x), (q x); simpl in *; try discriminate; try reflexivity; lia.
      * apply IH; [|exact Hy].
        destruct (p x), (q x); simpl in *; try discriminate; lia.
    + intros E. pose proof (E x ltac:(left)) as Ex.
      assert ((count_if p l + count_if q l)%nat = length l) as El.
      { apply IH. intros y Hy. apply E. right. exact Hy. }
      destruct (p x), (q x); simpl in *; try discriminate; lia.
Qed.

Lemma game_won_cells g :
  shape_ok g -> counts_ok g -> mines_ok g -> 0 <= nrows g -> 0 <= ncols g ->
  (game_won g = Ret true <->
   forall s, s ∈ concat (tab g) -> Square.revealed s = negb (Square.mined s)).
Proof.
  intros Hs [_ Hrev] Hm Hr Hc.
  destruct (game_lost_total g Hs) as (lost & El & Hl).
  assert (game_won g = Ret true <->
          game_lost g = Ret false /\
          nrows g * ncols g - squares_revealed g = nmines g) as Hw.
  { unfold game_won. rewrite El. simpl. split.
    - intros [= H]. apply andb_true_iff in H. destruct H as [H1 H2].
      apply negb_true_iff in H1. apply Z.eqb_eq in H2. subst lost. auto.
    - intros [[= ->] H]. simpl. apply Z.eqb_eq in H. rewrite H. reflexivity. }
  assert (Z.of_nat (length (concat (tab g))) = nrows g * ncols g) as HN.
  { destruct Hs as [H1 H2]. rewrite (length_concat_rows _ _ H2), H1.
    rewrite Nat2Z.inj_mul, !Z2Nat.id by lia. reflexivity. }
  assert (lost = false <->
          forall s, s ∈ concat (tab g) -> Square.revealed s && Square.mined s = false)
    as Hdis.
  { split.
    - intros -> s Hin. apply elem_of_concat_cell in Hin. destruct Hin as [[r c] Hcell].
      destruct (cell_square_at g r c s Hs Hcell) as [Hb Es].
      destruct (Square.revealed s) eqn:E1, (Square.mined s) eqn:E2; try reflexivity.
      assert (false = true); [|discriminate]. apply Hl.
      exists (Z.of_nat r), (Z.of_nat c). unfold mine_at, is_revealed.
      rewrite Es. simpl. rewrite E1, E2. auto.
    - intros H. destruct lost; [|reflexivity].
      destruct (proj1 Hl eq_refl) as (i & j & Hb & E1 & E2).
      destruct (square_at_inb g i j Hs Hb) as (s & Hcell & Es).
      unfold mine_at, is_revealed in *. rewrite Es in *. simpl in *.
      injection E1 as E1. injection E2 as E2.
      specialize (H s ltac:(apply elem_of_concat_cell; eauto)).
      rewrite E1, E2 in H. discriminate. }
  unfold mines_ok in Hm. unfold count2 in *.
  rewrite Hw. split.
  - intros [E1 E2]. assert (lost = false) as Hlf by congruence.
    apply (count_if_partition Square.revealed Square.mined).
    + apply Hdis, Hlf.
    + lia.
  - intros H.
    assert (forall s, s ∈ concat (tab g) ->
              Square.revealed s && Square.mined s = false) as Hd.
    { intros s Hin. rewrite (H s Hin). destruct (Square.mined s); reflexivity. }
    split; [rewrite El; f_equal; apply Hdis, Hd|].
    apply (count_if_partition Square.revealed Square.mined) in H; [lia|exact Hd].
Qed.

(** X9. [game_won] decides what its docstring says by comparing counters.
    In every state reached from a new board with non-negative dimensions,
    [game_won] returns True exactly when every Square of the board without
    a mine is revealed and no Square with a mine is. *)
Theorem game_won_docstring os nr nc :
  0 <= nr -> 0 <= nc ->
  (game_won (run os (init nr nc)) = Ret true <->
   forall i j, 0 <= i < nr -> 0 <= j < nc ->
     exists s, square_at (run os (init nr nc)) i j = Ret s /\
               Square.revealed s = negb (Square.mined s)).
Proof.
  intros Hr Hc. set (g := run os (init nr nc)).
  destruct (dims_run os nr nc) as [Dr Dc]. fold g in Dr, Dc.
  pose proof (shape_ok_run os nr nc) as Hs. fold g in Hs.
  destruct (sm_ok_run os nr nc) as [_ Hm]. fold g in Hm.
  pose proof (counts_ok_run os (init nr nc) (counts_ok_init nr nc)) as Hco. fold g in Hco.
  rewrite (game_won_cells g Hs Hco Hm) by lia. split.
  - intros H i j Hi Hj.
    destruct (square_at_inb g i j Hs) as (s & Hcell & Es); [unfold inb; lia|].
    exists s. split; [exact Es|]. apply H, elem_of_concat_cell. eauto.
  - intros H s Hin. apply elem_of_concat_cell in Hin. destruct Hin as [[r c] Hcell].
    destruct (cell_square_at g r c s Hs Hcell) as [[Hi Hj] Es].
    destruct (H (Z.of_nat r) (Z.of_nat c)) as (s' & Es' & E); [lia|lia|].
    congruence.
Qed.

Lemma game_won_docstring_witness :
  game_won (run [PlaceMine 0 0; Reveal 0 1; Reveal 1 0; Reveal 1 1] (init 2 2))
  = Ret true <->
  forall i j, 0 <= i < 2 -> 0 <= j < 2 ->
    exists s,
      square_at (run [PlaceMine 0 0; Reveal 0 1; Reveal 1 0; Reveal 1 1] (init 2 2)) i j
      = Ret s /\
      Square.revealed s = negb (Square.mined s).
Proof.
  apply (game_won_docstring [PlaceMine 0 0; Reveal 0 1; Reveal 1 0; Reveal 1 1] 2 2);
    lia.
Defined.

(** ** The flood fill of reveal *)

Lemma reveal_log_state fuel i j g :
  fst (reveal_log fuel i j g) = fst (reveal_rec fuel i j g).
Proof. rewrite (reveal_log_forget fuel i j g). reflexivity. Qed.

Lemma sq_frame_reveal_log fuel i j g g' r :
  reveal_log fuel i j g = (g', r) ->
  sq_frame g g' /\ (shape_ok g -> shape_ok g').
Proof.
  intros E. pose proof (reveal_log_state fuel i j g) as H.
  rewrite E in H. cbn [fst] in H. subst g'.
  split; [apply sq_frame_reveal_rec|].
  apply (proj1 (rev_frame_reveal_rec fuel i j g)).
Qed.

Lemma is_revealed_mark_other g i j x y :
  shape_ok g -> inb g i j -> inb g x y -> (x, y) <> (i, j) ->
  is_revealed (mark (Z.to_nat i, Z.to_nat j) g) x y = is_revealed g x y.
Proof.
  intros Hs [Hi Hj] Hb Hne. pose proof Hb as [Hx Hy].
  unfold is_revealed. rewrite !square_at_locate. simpl.
  rewrite locate_alter_cell, (locate_inb g x y Hs Hb).
  rewrite cell_alter_cell_ne; [reflexivity|].
  intros [= H1 H2]. apply Hne. f_equal; lia.
Qed.

Lemma reveal_log_self fuel i j g g' log :
  reveal_log fuel i j g = (g', Ret log) ->
  is_revealed g' i j = Ret true \/ is_flagged g i j = Ret true.
Proof.
  intros E. pose proof (reveal_log_forget fuel i j g) as Ef.
  rewrite E in Ef. cbn [fst snd forget] in Ef.
  destruct fuel as [|fuel]; [discriminate|].
  rewrite reveal_rec_S in Ef. unfold is_revealed, is_flagged.
  destruct (square_at_cases g i j) as [(p & s & Hl & Hc & Es)|[Hl Es]];
    rewrite Es in *; [|discriminate]. simpl.
  destruct (Square.flagged s) eqn:Ff; [right; reflexivity|left].
  rewrite orb_false_r in Ef.
  destruct (Square.revealed s) eqn:Fr.
  { injection Ef as <-. rewrite Es. simpl. rewrite Fr. reflexivity. }
  rewrite Hl in Ef.
  assert (sq_frame (mark p g) g') as F.
  { destruct (negb (Square.mined s) && (Square.mines_nearby s =? 0)).
    - pose proof (for_each_rel sq_frame sq_frame_refl sq_frame_trans
                    (fun '(x, y) => reveal_rec fuel x y) (neighbors g i j)
                    ltac:(intros [x y] g0; apply sq_frame_reveal_rec) (mark p g)) as H.
      rewrite Ef in H. exact H.
    - injection Ef as <-. apply sq_frame_refl. }
  destruct F as (_ & _ & _ & _ & _ & _ & _ & _ & M).
  apply (M i j (is_revealed_mark_same g i j p Hl)).
Qed.

Lemma fill_post_nil g : fill_post g [] g.
Proof.
  split; [reflexivity|]. intros x y H. apply elem_of_nil in H. contradiction.
Qed.

Lemma fill_post_app g l1 g1 l2 g2 :
  sq_frame g g1 -> sq_frame g1 g2 ->
  fill_post g l1 g1 -> fill_post g1 l2 g2 -> fill_post g (l1 ++ l2) g2.
Proof.
  intros (R1 & C1 & _ & _ & _ & A1 & B1 & D1 & M1)
         (R2 & C2 & _ & _ & _ & A2 & B2 & D2 & M2) [X1 K1] [X2 K2].
  split.
  - intros x y Hb Hn. rewrite X2, X1.
    + reflexivity.
    + exact Hb.
    + intros H. apply Hn, elem_of_app. left. exact H.
    + unfold inb. rewrite R1, C1. exact Hb.
    + intros H. apply Hn, elem_of_app. right. exact H.
  - intros x y Hin Em En a b Hab. apply elem_of_app in Hin. destruct Hin as [Hin|Hin].
    + destruct (K1 x y Hin Em En a b Hab) as [H|H].
      * left. apply M2, H.
      * right. rewrite B2. exact H.
    + apply (K2 x y Hin).
      * rewrite A1. exact Em.
      * rewrite D1. exact En.
      * rewrite (neighbors_dims g g1 x y R1 C1). exact Hab.
Qed.

Lemma justified_app g start l1 l2 g1 n :
  sq_frame g g1 ->
  justified g [n] l1 -> justified g1 start l2 -> justified g (n :: start) (l1 ++ l2).
Proof.
  intros (R1 & C1 & _ & _ & _ & A1 & _ & D1 & _) J1 J2 x y Hin.
  apply elem_of_app in Hin. destruct Hin as [Hin|Hin].
  - destruct (J1 x y Hin) as [H|(a & b & Hab & Em & En & Hn)].
    + left. apply list_elem_of_singleton in H. rewrite H. left.
    + right. exists a, b. split; [apply elem_of_app; left; exact Hab|]. auto.
  - destruct (J2 x y Hin) as [H|(a & b & Hab & Em & En & Hn)].
    + left. right. exact H.
    + right. exists a, b. split; [apply elem_of_app; right; exact Hab|].
      rewrite <- A1, <- D1, <- (neighbors_dims g g1 a b R1 C1). auto.
Qed.

Lemma for_each_log_fill (body : Z * Z -> M (list (Z * Z))) ns :
  (forall x y g log g', shape_ok g -> inb g x y ->
     body (x, y) g = (g', Ret log) ->
     fill_post g log g' /\ justified g [(x, y)] log /\
     sq_frame g g' /\ shape_ok g' /\
     (is_revealed g' x y = Ret true \/ is_flagged g x y = Ret true)) ->
  forall g rest g', shape_ok g -> (forall x y, (x, y) ∈ ns -> inb g x y) ->
    for_each_log ns body g = (g', Ret rest) ->
    fill_post g rest g' /\ justified g ns rest /\
    sq_frame g g' /\ shape_ok g' /\
    (forall a b, (a, b) ∈ ns ->
       is_revealed g' a b = Ret true \/ is_flagged g' a b = Ret true).
Proof.
  intros Hb. induction ns as [|[x y] ns IH]; intros g rest g' Hs Hin E;
    cbn [for_each_log] in E.
  - injection E as <- <-. split; [apply fill_post_nil|].
    split; [intros x y H; apply elem_of_nil in H; contradiction|].
    split; [apply sq_frame_refl|]. split; [exact Hs|].
    intros a b H. apply elem_of_nil in H. contradiction.
  - unfold bind in E.
    destruct (body (x, y) g) as [g1 [l1|e|]] eqn:E1; try discriminate.
    destruct (for_each_log ns body g1) as [g2 [l2|e|]] eqn:E2; try discriminate.
    unfold ret in E. injection E as <- <-.
    destruct (Hb x y g l1 g1 Hs (Hin x y ltac:(left)) E1)
      as (P1 & J1 & F1 & S1 & Self).
    pose proof F1 as (R1 & C1 & _ & _ & _ & _ & B1 & _ & _).
    destruct (IH g1 l2 g2 S1) as (P2 & J2 & F2 & S2 & N2); [|exact E2|].
    { intros a b H. unfold inb. rewrite R1, C1. apply Hin. right. exact H. }
    pose proof F2 as (_ & _ & _ & _ & _ & _ & B2 & _ & M2).
    split; [apply (fill_post_app g l1 g1 l2 g2 F1 F2 P1 P2)|].
    split; [apply (justified_app g ns l1 l2 g1 (x, y) F1 J1 J2)|].
    split; [apply (sq_frame_trans g g1 g2 F1 F2)|]. split; [exact S2|].
    intros a b H. apply elem_of_cons in H. destruct H as [[= -> ->]|H].
    + destruct Self as [H|H]; [left; apply M2, H|right].
      rewrite B2, B1. exact H.
    + apply N2, H.
Qed.

Lemma reveal_log_fill fuel : forall i j g log g',
  shape_ok g -> inb g i j ->
  reveal_log fuel i j g = (g', Ret log) ->
  fill_post g log g' /\ justified g [(i, j)] log.
Proof.
  induction fuel as [|fuel IH]; intros i j g log g' Hs Hb E; [discriminate|].
  pose proof E as E0. rewrite reveal_log_S in E.
  pose proof (locate_inb g i j Hs Hb) as Hl.
  destruct (square_at_inb g i j Hs Hb) as (s & Hc & Es). rewrite Es in E.
  destruct (Square.revealed s || Square.flagged s) eqn:Eg.
  { injection E as <- <-. split; [apply fill_post_nil|].
    intros x y H. apply elem_of_nil in H. contradiction. }
  rewrite Hl in E. set (p := (Z.to_nat i, Z.to_nat j)) in *.
  assert (mine_at g i j = Ret (Square.mined s)) as Hmine
    by (unfold mine_at; rewrite Es; reflexivity).
  assert (mines_nearby g i j = Ret (Square.mines_nearby s)) as Hnear
    by (unfold mines_nearby; rewrite Es; reflexivity).
  destruct (negb (Square.mined s) && (Square.mines_nearby s =? 0)) eqn:Ec.
  - unfold bind in E.
    destruct (for_each_log (neighbors g i j) _ (mark p g)) as [g2 [rest|e|]] eqn:E2;
      try discriminate.
    unfold ret in E. injection E as <- <-.
    destruct (for_each_log_fill (fun '(x, y) => reveal_log fuel x y) (neighbors g i j))
      with (g := mark p g) (rest := rest) (g' := g2)
      as (P2 & J2 & F2 & S2 & N2).
    + intros x y g0 log0 g0' Hs0 Hb0 E0'.
      destruct (IH x y g0 log0 g0' Hs0 Hb0 E0') as [P J].
      destruct (sq_frame_reveal_log fuel x y g0 g0' _ E0') as [F S].
      split; [exact P|]. split; [exact J|]. split; [exact F|].
      split; [apply S, Hs0|]. apply (reveal_log_self fuel x y g0 g0' log0 E0').
    + apply shape_ok_mark, Hs.
    + intros x y H. apply neighbors_inb in H. exact H.
    + exact E2.
    + destruct P2 as [X2 K2]. split; [split|].
      * intros x y Hxy Hn.
        assert ((x, y) <> (i, j)) as Hne by (intros [= -> ->]; apply Hn; left).
        rewrite X2; [apply (is_revealed_mark_other g i j x y Hs Hb Hxy Hne)|exact Hxy|].
        intros H. apply Hn. right. exact H.
      * intros x y Hin Em En a b Hab. apply elem_of_cons in Hin.
        destruct Hin as [[= -> ->]|Hin].
        -- apply N2, Hab.
        -- apply (K2 x y Hin).
           ++ rewrite mine_at_mark. exact Em.
           ++ rewrite mines_nearby_mark. exact En.
           ++ exact Hab.
      * intros x y Hin. apply elem_of_cons in Hin.
        destruct Hin as [[= -> ->]|Hin]; [left; left|right].
        apply andb_true_iff in Ec. destruct Ec as [Ec1 Ec2].
        apply negb_true_iff in Ec1. apply Z.eqb_eq in Ec2.
        destruct (J2 x y Hin) as [H|(a & b & Hab & Em & En & Hn)].
        -- exists i, j. split; [left|]. rewrite Hmine, Hnear, Ec1, Ec2. auto.
        -- exists a, b. split; [right; exact Hab|].
           rewrite mine_at_mark in Em. rewrite mines_nearby_mark in En. auto.
  - injection E as <- <-. split; [split|].
    + intros x y Hxy Hn.
      apply (is_revealed_mark_other g i j x y Hs Hb Hxy).
      intros [= -> ->]. apply Hn. left.
    + intros x y Hin Em En. apply list_elem_of_singleton in Hin. injection Hin as -> ->.
      rewrite Hmine in Em. rewrite Hnear in En.
      injection Em as Em. injection En as En. rewrite Em, En in Ec. discriminate.
    + intros x y Hin. left. exact Hin.
Qed.

(** The Squares a returned [reveal] has newly revealed are the positions it
    processed. *)
Lemma reveal_newly_revealed g i j :
  shape_ok g -> inb g i j ->
  exists log g',
    reveal i j g = (g', Ret tt) /\
    fill_post g log g' /\ justified g [(i, j)] log /\
    (forall x y, (x, y) ∈ log <->
       inb g x y /\ is_revealed g x y = Ret false /\ is_revealed g' x y = Ret true).
Proof.
  intros Hs Hb.
  pose proof (unrevealed_le_nsquares g) as Hle.
  destruct (reveal_log_post (S (nsquares g)) i j g Hs Hb ltac:(lia))
    as (log & g' & El & (_ & _ & _ & _ & L & _)).
  pose proof (reveal_log_forget (S (nsquares g)) i j g) as E.
  rewrite El in E. cbn [fst snd forget] in E.
  destruct (reveal_log_fill _ i j g log g' Hs Hb El) as [P J].
  exists log, g'. split; [exact E|]. split; [exact P|]. split; [exact J|].
  intros x y. split; [apply L|].
  intros (Hxy & E1 & E2). destruct (decide ((x, y) ∈ log)) as [H|H]; [exact H|].
  destruct P as [X _]. rewrite (X x y Hxy H) in E2. congruence.
Qed.



(** ** reveal and the mines *)

Lemma count_if_zero_elem {A} (p : A -> bool) l x :
  count_if p l = 0%nat -> x ∈ l -> p x = false.
Proof.
  induction l as [|y l IH]; intros H Hx; simpl in H.
  - apply elem_of_nil in Hx. contradiction.
  - apply elem_of_cons in Hx. destruct Hx as [->|Hx].
    + destruct (p y); [discriminate|reflexivity].
    + apply IH; [|exact Hx]. destruct (p y); [discriminate|exact H].
Qed.

(** A processed position that is not a start has no mine, when the counts
    are exact. *)
Lemma justified_no_mine g start log x y :
  shape_ok g -> nearby_ok g ->
  (forall a b, (a, b) ∈ log -> inb g a b) ->
  justified g start log ->
  (x, y) ∈ log -> (x, y) ∉ start -> mine_at g x y = Ret false.
Proof.
  intros Hs Hn Hlog J Hin Hst.
  destruct (J x y Hin) as [H|(a & b & Hab & Em & En & Hnb)]; [contradiction|].
  destruct (Hn a b (Hlog a b Hab)) as (s & Es & Hc).
  unfold mines_nearby in En. rewrite Es in En. simpl in En. injection En as En.
  rewrite En in Hc.
  assert (count_if (mined_at g) (neighbors g a b) = 0%nat) as Hz by lia.
  pose proof (count_if_zero_elem _ _ (x, y) Hz Hnb) as Hm.
  destruct (square_at_inb g x y Hs (Hlog x y Hin)) as (sx & _ & Esx).
  rewrite (mined_at_square g x y sx Esx) in Hm.
  unfold mine_at. rewrite Esx. simpl. rewrite Hm. reflexivity.
Qed.

(** X11. On a well-shaped board whose counts of neighboring mines are
    exact, [reveal(i, j)] never uncovers a mine other than the one at
    [(i, j)]: every other Square it newly reveals has no mine. *)
Theorem reveal_uncovers_no_other_mine g i j x y :
  shape_ok g -> nearby_ok g -> inb g i j -> inb g x y ->
  (x, y) <> (i, j) ->
  is_revealed g x y = Ret false ->
  is_revealed (fst (reveal i j g)) x y = Ret true ->
  mine_at g x y = Ret false.
Proof.
  intros Hs Hn Hb Hxy Hne E1 E2.
  destruct (reveal_newly_revealed g i j Hs Hb) as (log & g' & E & _ & J & L).
  rewrite E in E2. cbn [fst] in E2.
  apply (justified_no_mine g [(i, j)] log x y Hs Hn).
  - intros a b H. apply L in H. tauto.
  - exact J.
  - apply L. auto.
  - rewrite list_elem_of_singleton. exact Hne.
Qed.

Lemma reveal_uncovers_no_other_mine_witness :
  mine_at board_3x3 1 1 = Ret false.
Proof.
  apply (reveal_uncovers_no_other_mine board_3x3 0 0 1 1).
  - split; [reflexivity|]. vm_compute. repeat constructor.
  - intros a b [Ha Hb].
    change (nrows board_3x3) with 3 in Ha. change (ncols board_3x3) with 3 in Hb.
    assert (a = 0 \/ a = 1 \/ a = 2) as Ea by lia.
    assert (b = 0 \/ b = 1 \/ b = 2) as Eb by lia.
    destruct Ea as [-> | [-> | ->]], Eb as [-> | [-> | ->]];
      (eexists; split; [vm_compute; reflexivity|vm_compute; reflexivity]).
  - vm_compute. repeat split; congruence.
  - vm_compute. repeat split; congruence.
  - congruence.
  - reflexivity.
  - reflexivity.
Defined.

(** ** Losing the game *)

Lemma no_mine_revealed_lost g :
  shape_ok g -> (game_lost g = Ret false <-> no_mine_revealed g).
Proof.
  intros Hs. destruct (game_lost_total g Hs) as (lost & El & Hl). rewrite El. split.
  - intros [= ->] x y Hb Em Er.
    assert (false = true) as H by (apply Hl; eauto). discriminate.
  - intros H. destruct lost; [|reflexivity].
    destruct (proj1 Hl eq_refl) as (x & y & Hb & Em & Er).
    destruct (H x y Hb Em Er).
Qed.

Lemma game_lost_bool g :
  shape_ok g -> game_lost g = Ret true \/ game_lost g = Ret false.
Proof.
  intros Hs. destruct (game_lost_total g Hs) as ([|] & El & _); auto.
Qed.

Lemma sq_frame_mine_frame g g' : sq_frame g g' -> mine_frame g g'.
Proof. intros (R & C & N & _ & _ & Hm & _ & Hn & _). repeat split; assumption. Qed.

Lemma nearby_ok_mine_frame g g' : mine_frame g g' -> nearby_ok g -> nearby_ok g'.
Proof.
  intros (R & C & _ & Hm & Hn) H a b Hb.
  destruct (H a b) as (s & Es & Hc); [unfold inb in *; rewrite <- R, <- C; exact Hb|].
  pose proof (Hn a b) as En. unfold mines_nearby in En. rewrite Es in En.
  destruct (square_at g' a b) as [s'|e|] eqn:Es'; simpl in En; try discriminate.
  exists s'. split; [reflexivity|]. injection En as ->. rewrite Hc.
  rewrite (neighbors_dims g g' a b R C). f_equal. apply count_if_ext.
  intros [x y] _. unfold mined_at. simpl. rewrite Hm. reflexivity.
Qed.

Lemma nearby_ok_frame g g' : sq_frame g g' -> nearby_ok g -> nearby_ok g'.
Proof. intros F. apply nearby_ok_mine_frame, sq_frame_mine_frame, F. Qed.

(** [reveal] at a position that does not hold an unflagged mine reveals no
    mine. *)
Lemma reveal_safe g i j :
  shape_ok g -> nearby_ok g -> inb g i j -> no_mine_revealed g ->
  (mine_at g i j = Ret true -> is_flagged g i j = Ret true) ->
  exists g', reveal i j g = (g', Ret tt) /\
    shape_ok g' /\ sq_frame g g' /\ no_mine_revealed g'.
Proof.
  intros Hs Hn Hb Hsafe Hij.
  destruct (reveal_newly_revealed g i j Hs Hb) as (log & g' & E & _ & J & L).
  pose proof (sq_frame_reveal_rec (S (nsquares g)) i j g) as F.
  fold (reveal i j g) in F. rewrite E in F. cbn [fst] in F.
  destruct (reveal_returns i j g Hs Hb) as (g1 & E1 & (Hs' & _) & _).
  assert (g1 = g') as -> by congruence.
  exists g'. split; [exact E|]. split; [exact (Hs' Hs)|]. split; [exact F|].
  destruct F as (R & C & _ & _ & _ & Hm & _).
  intros x y Hxy Em Er. rewrite Hm in Em.
  assert (inb g x y) as Hxy0 by (unfold inb in *; rewrite <- R, <- C; exact Hxy).
  destruct (is_revealed_inb g x y Hs Hxy0) as [[|] Eb].
  { exact (Hsafe x y Hxy0 Em Eb). }
  assert ((x, y) ∈ log) as Hin by (apply L; auto).
  destruct (decide ((x, y) = (i, j))) as [[= -> ->]|Hne].
  - rewrite (reveal_noop i j g) in E by (right; apply Hij, Em).
    injection E as <-. congruence.
  - assert (mine_at g x y = Ret false) as H; [|congruence].
    apply (justified_no_mine g [(i, j)] log x y Hs Hn); auto.
    + intros a b H. apply L in H. tauto.
    + rewrite list_elem_of_singleton. exact Hne.
Qed.

(** X12. On a well-shaped board with exact counts on which no mine is
    revealed, [reveal(i, j)] loses the game exactly when the Square at
    [(i, j)] holds a mine and is neither revealed nor flagged; in every
    other case the game is still not lost afterwards. *)
Theorem reveal_loses_iff_mine g i j :
  shape_ok g -> nearby_ok g -> inb g i j -> game_lost g = Ret false ->
  (game_lost (fst (reveal i j g)) = Ret true <->
   mine_at g i j = Ret true /\ is_revealed g i j = Ret false /\
   is_flagged g i j = Ret false) /\
  (game_lost (fst (reveal i j g)) = Ret true \/
   game_lost (fst (reveal i j g)) = Ret false).
Proof.
  intros Hs Hn Hb Hl.
  destruct (reveal_returns i j g Hs Hb) as (g' & E & (Hs' & _) & Hself).
  rewrite E. cbn [fst]. split; [|apply game_lost_bool, Hs', Hs].
  destruct (square_at_inb g i j Hs Hb) as (s & _ & Es).
  unfold mine_at, is_revealed, is_flagged in *. rewrite Es in *. simpl in *.
  split.
  - intros Hl'.
    destruct (Square.revealed s) eqn:Er.
    { rewrite (reveal_noop i j g) in E.
      - injection E as <-. congruence.
      - left. unfold is_revealed. rewrite Es. simpl. rewrite Er. reflexivity. }
    destruct (Square.flagged s) eqn:Ef.
    { rewrite (reveal_noop i j g) in E.
      - injection E as <-. congruence.
      - right. unfold is_flagged. rewrite Es. simpl. rewrite Ef. reflexivity. }
    destruct (Square.mined s) eqn:Em; [auto|].
    destruct (reveal_safe g i j Hs Hn Hb) as (g1 & E1 & Hs1 & _ & Hsafe).
    + apply no_mine_revealed_lost; assumption.
    + unfold mine_at. rewrite Es. simpl. rewrite Em. discriminate.
    + assert (g1 = g') as -> by congruence.
      apply (no_mine_revealed_lost g' Hs1) in Hsafe. congruence.
  - intros ([= Em] & [= Er] & [= Ef]).
    destruct Hself as [Hr|Hf]; [|rewrite Ef in Hf; discriminate].
    destruct (game_lost_bool g' (Hs' Hs)) as [H|H]; [exact H|].
    apply (no_mine_revealed_lost g' (Hs' Hs)) in H.
    pose proof (sq_frame_reveal_rec (S (nsquares g)) i j g) as F.
    fold (reveal i j g) in F. rewrite E in F. cbn [fst] in F.
    destruct F as (R & C & _ & _ & _ & Hm & _).
    destruct (H i j); [unfold inb; rewrite R, C; exact Hb| |exact Hr].
    rewrite Hm. unfold mine_at. rewrite Es. simpl. rewrite Em. reflexivity.
Qed.

Lemma shape_ok_board_3x3 : shape_ok board_3x3.
Proof. split; [reflexivity|]. vm_compute. repeat constructor. Qed.

Lemma nearby_ok_board_3x3 : nearby_ok board_3x3.
Proof.
  intros a b [Ha Hb].
  change (nrows board_3x3) with 3 in Ha. change (ncols board_3x3) with 3 in Hb.
  assert (a = 0 \/ a = 1 \/ a = 2) as Ea by lia.
  assert (b = 0 \/ b = 1 \/ b = 2) as Eb by lia.
  destruct Ea as [-> | [-> | ->]], Eb as [-> | [-> | ->]];
    (eexists; split; [vm_compute; reflexivity|vm_compute; reflexivity]).
Qed.

Lemma reveal_loses_iff_mine_witness :
  (game_lost (fst (reveal 2 2 board_3x3)) = Ret true <->
   mine_at board_3x3 2 2 = Ret true /\ is_revealed board_3x3 2 2 = Ret false /\
   is_flagged board_3x3 2 2 = Ret false) /\
  (game_lost (fst (reveal 0 0 board_3x3)) = Ret true <->
   mine_at board_3x3 0 0 = Ret true /\ is_revealed board_3x3 0 0 = Ret false /\
   is_flagged board_3x3 0 0 = Ret false).
Proof.
  split.
  - apply (reveal_loses_iff_mine board_3x3 2 2).
    + exact shape_ok_board_3x3.
    + exact nearby_ok_board_3x3.
    + vm_compute. repeat split; congruence.
    + reflexivity.
  - apply (reveal_loses_iff_mine board_3x3 0 0).
    + exact shape_ok_board_3x3.
    + exact nearby_ok_board_3x3.
    + vm_compute. repeat split; congruence.
    + reflexivity.
Defined.

(** ** Chording with the mines flagged *)




(** * The application *)

(** ** What placing and removing a flag leave alone *)

Lemma mine_frame_refl g : mine_frame g g.
Proof. repeat split; reflexivity. Qed.

Lemma mine_frame_alter h p k g :
  (forall s, Square.mined (h s) = Square.mined s) ->
  (forall s, Square.mines_nearby (h s) = Square.mines_nearby s) ->
  mine_frame g (set_nflags k (set_tab (alter_cell h p (tab g)) g)).
Proof.
  intros Hm Hn. unfold mine_frame. do 3 (split; [reflexivity|]).
  split; intros x y; unfold mine_at, mines_nearby; rewrite !square_at_locate; simpl;
    rewrite locate_alter_cell;
    (destruct (locate (tab g) x y) as [q|]; [|reflexivity]);
    rewrite cell_alter_cell;
    (destruct (decide (p = q)) as [->|Hne]; [|reflexivity]);
    (destruct (cell (tab g) q) as [s|]; [|reflexivity]); simpl;
    [rewrite Hm|rewrite Hn]; reflexivity.
Qed.

Lemma mine_frame_place_flag i j g : mine_frame g (fst (place_flag i j g)).
Proof.
  rewrite place_flag_eq.
  destruct (square_at g i j) as [s|e|]; cbn [fst]; try apply mine_frame_refl.
  destruct (Square.flagged s); cbn [fst]; [apply mine_frame_refl|].
  destruct (locate (tab g) i j) as [p|]; cbn [fst]; [|apply mine_frame_refl].
  apply mine_frame_alter; reflexivity.
Qed.

Lemma mine_frame_remove_flag i j g : mine_frame g (fst (remove_flag i j g)).
Proof.
  rewrite remove_flag_eq.
  destruct (square_at g i j) as [s|e|]; cbn [fst]; try apply mine_frame_refl.
  destruct (Square.flagged s); cbn [fst]; [|apply mine_frame_refl].
  destruct (locate (tab g) i j) as [p|]; cbn [fst]; [|apply mine_frame_refl].
  apply mine_frame_alter; reflexivity.
Qed.

Lemma sq_frame_chording i j g : sq_frame g (fst (chording i j g)).
Proof.
  apply chording_rel.
  - apply sq_frame_refl.
  - apply sq_frame_trans.
  - intros. apply sq_frame_mark.
Qed.

Lemma right_click_handler_eq i j g :
  MinesweeperApp.right_click_handler i j g =
    match is_revealed g i j with
    | Ret true => (g, Ret tt)
    | Ret false =>
        match is_flagged g i j with
        | Ret false => place_flag i j g
        | Ret true => remove_flag i j g
        | Raise e => (g, Raise e)
        | OutOfFuel => (g, OutOfFuel)
        end
    | Raise e => (g, Raise e)
    | OutOfFuel => (g, OutOfFuel)
    end.
Proof.
  unfold MinesweeperApp.right_click_handler, bind, query.
  destruct (is_revealed g i j) as [[|]|e|]; try reflexivity.
  destruct (is_flagged g i j) as [[|]|e|]; reflexivity.
Qed.

(** ** Drawing *)

Lemma draw_cell_square g i j s :
  square_at g i j = Ret s ->
  MinesweeperApp.draw_cell g i j =
    Ret (if Square.revealed s
         then if Square.mined s
              then MinesweeperApp.mk_button MinesweeperApp.mine_image None
                     MinesweeperApp.SUNKEN MinesweeperApp.normal
              else MinesweeperApp.mk_button MinesweeperApp.no_image
                     (if Square.mines_nearby s =? 0 then None
                      else Some (Square.mines_nearby s))
                     MinesweeperApp.SUNKEN MinesweeperApp.disabled
         else if Square.flagged s
              then MinesweeperApp.mk_button MinesweeperApp.flag_image None
                     MinesweeperApp.RAISED MinesweeperApp.normal
              else MinesweeperApp.mk_button MinesweeperApp.no_image None
                     MinesweeperApp.RAISED MinesweeperApp.disabled).
Proof.
  intros Es. unfold MinesweeperApp.draw_cell, is_revealed, mine_at, mines_nearby,
    is_flagged. rewrite Es. simpl.
  destruct (Square.revealed s), (Square.mined s), (Square.flagged s); reflexivity.
Qed.

Lemma map_res_returns {A B} (f : A -> res B) l :
  (forall x, x ∈ l -> exists y, f x = Ret y) ->
  exists ys, MinesweeperApp.map_res f l = Ret ys /\ length ys = length l.
Proof.
  induction l as [|x l IH]; intros H; simpl.
  - exists []. auto.
  - destruct (H x ltac:(left)) as [y Ey]. rewrite Ey. simpl.
    destruct IH as (ys & E & L); [intros z Hz; apply H; right; exact Hz|].
    rewrite E. simpl. exists (y :: ys). simpl. auto.
Qed.

Lemma map_res_ext {A B} (f f' : A -> res B) l :
  (forall x, x ∈ l -> f x = f' x) ->
  MinesweeperApp.map_res f l = MinesweeperApp.map_res f' l.
Proof.
  induction l as [|x l IH]; intros H; simpl; [reflexivity|].
  rewrite (H x) by left. rewrite IH; [reflexivity|].
  intros z Hz. apply H. right. exact Hz.
Qed.

Lemma elem_of_range n i : i ∈ range n <-> 0 <= i < n.
Proof. unfold range. rewrite elem_of_seqZ. lia. Qed.

Lemma draw_board_returns g :
  shape_ok g ->
  exists b, MinesweeperApp.draw_board g = Ret b /\
            length b = Z.to_nat (nrows g).
Proof.
  intros Hs. unfold MinesweeperApp.draw_board.
  destruct (map_res_returns
              (fun i => MinesweeperApp.map_res
                          (fun j => MinesweeperApp.draw_cell g i j) (range (ncols g)))
              (range (nrows g))) as (b & E & L).
  - intros i Hi. apply elem_of_range in Hi.
    destruct (map_res_returns (fun j => MinesweeperApp.draw_cell g i j)
                (range (ncols g))) as (rw & E & _); [|eauto].
    intros j Hj. apply elem_of_range in Hj.
    destruct (square_at_inb g i j Hs (conj Hi Hj)) as (s & _ & Es).
    rewrite (draw_cell_square g i j s Es). eauto.
  - exists b. split; [exact E|]. rewrite L. unfold range. rewrite length_seqZ. reflexivity.
Qed.

(** ** The invariant of the application *)

Section App.
Variables nr nc n : Z.
Hypothesis Hnr : 0 <= nr.
Hypothesis Hnc : 0 <= nc.
Hypothesis Hn : 0 <= n <= nr * nc.

Lemma app_ok_reveal i j g : keeps (app_ok nr nc n) g (fst (reveal i j g)).
Proof.
  intros (D & N & Hs & Hc & Hm & Hnb & Hf).
  pose proof (sq_frame_reveal_rec (S (nsquares g)) i j g) as F.
  fold (reveal i j g) in F.
  destruct (sm_ok_step (Reveal i j) g (conj Hs Hm)) as [Hs' Hm'].
  split; [exact (dims_step (Reveal i j) g nr nc D)|].
  split; [destruct F as (_ & _ & -> & _); exact N|].
  split; [exact Hs'|]. split; [exact (counts_ok_step (Reveal i j) g Hc)|].
  split; [exact Hm'|]. split; [exact (nearby_ok_frame _ _ F Hnb)|].
  exact (keeps_reveal nfr nfr_mark i j g Hf).
Qed.

Lemma app_ok_chording i j g : keeps (app_ok nr nc n) g (fst (chording i j g)).
Proof.
  intros (D & N & Hs & Hc & Hm & Hnb & Hf).
  pose proof (sq_frame_chording i j g) as F.
  destruct (sm_ok_step (Chord i j) g (conj Hs Hm)) as [Hs' Hm'].
  split; [exact (dims_step (Chord i j) g nr nc D)|].
  split; [destruct F as (_ & _ & -> & _); exact N|].
  split; [exact Hs'|]. split; [exact (counts_ok_step (Chord i j) g Hc)|].
  split; [exact Hm'|]. split; [exact (nearby_ok_frame _ _ F Hnb)|].
  exact (keeps_chording nfr nfr_mark i j g Hf).
Qed.

Lemma app_ok_place_flag i j g :
  is_revealed g i j <> Ret true ->
  keeps (app_ok nr nc n) g (fst (place_flag i j g)).
Proof.
  intros Hr (D & N & Hs & Hc & Hm & Hnb & Hf).
  pose proof (mine_frame_place_flag i j g) as F.
  destruct (sm_ok_step (PlaceFlag i j) g (conj Hs Hm)) as [Hs' Hm'].
  split; [exact (dims_step (PlaceFlag i j) g nr nc D)|].
  split; [destruct F as (_ & _ & -> & _); exact N|].
  split; [exact Hs'|]. split; [exact (counts_ok_step (PlaceFlag i j) g Hc)|].
  split; [exact Hm'|]. split; [exact (nearby_ok_mine_frame _ _ F Hnb)|].
  exact (nfr_place_flag i j g Hr Hf).
Qed.

Lemma app_ok_remove_flag i j g :
  keeps (app_ok nr nc n) g (fst (remove_flag i j g)).
Proof.
  intros (D & N & Hs & Hc & Hm & Hnb & Hf).
  pose proof (mine_frame_remove_flag i j g) as F.
  destruct (sm_ok_step (RemoveFlag i j) g (conj Hs Hm)) as [Hs' Hm'].
  split; [exact (dims_step (RemoveFlag i j) g nr nc D)|].
  split; [destruct F as (_ & _ & -> & _); exact N|].
  split; [exact Hs'|]. split; [exact (counts_ok_step (RemoveFlag i j) g Hc)|].
  split; [exact Hm'|]. split; [exact (nearby_ok_mine_frame _ _ F Hnb)|].
  exact (nfr_remove_flag i j g Hf).
Qed.

Lemma app_ok_right_click i j g :
  keeps (app_ok nr nc n) g (fst (MinesweeperApp.right_click_handler i j g)).
Proof.
  rewrite right_click_handler_eq.
  destruct (is_revealed g i j) as [[|]|e|] eqn:Er; cbn [fst]; try apply keeps_refl.
  destruct (is_flagged g i j) as [[|]|e|]; cbn [fst]; try apply keeps_refl.
  - apply app_ok_remove_flag.
  - apply app_ok_place_flag. rewrite Er. discriminate.
Qed.

Lemma app_ok_random_game rnd g :
  shape_ok g -> dims_are nr nc g ->
  exists g', random_game rnd n g = (g', Ret tt) /\
    app_ok nr nc n g' /\ nflags g' = 0 /\ squares_revealed g' = 0.
Proof.
  intros Hs [R C].
  destruct (random_game_accept rnd n g Hs) as (g' & E & (Hs' & Hnb & Hm) & Hc & N & F0 & R0);
    [lia|lia|rewrite R, C; exact Hn|].
  exists g'. split; [exact E|]. split; [|auto].
  split.
  { pose proof (dims_step (NewGame rnd n) g nr nc (conj R C)) as D.
    unfold step in D. simpl in D. rewrite E in D. exact D. }
  do 5 (split; [assumption|]).
  pose proof (nfr_random_game rnd n g) as H. rewrite E in H. exact H.
Qed.

Lemma new_game_returns rnd g :
  app_ok nr nc n g ->
  exists g' b, MinesweeperApp.new_game rnd g = (g', Ret tt) /\
    MinesweeperApp.draw_board (fst (reset g)) = Ret b /\
    random_game rnd n g = (g', Ret tt) /\
    app_ok nr nc n g' /\ nflags g' = 0 /\ squares_revealed g' = 0.
Proof.
  intros (D & N & Hs & _).
  pose proof (shape_ok_reset g Hs) as Hs0.
  pose proof (dims_step Reset g nr nc D) as D0.
  change (step Reset g) with (fst (reset g)) in D0.
  destruct (draw_board_returns _ Hs0) as (b & Eb & _).
  destruct (app_ok_random_game rnd (fst (reset g)) Hs0 D0) as (g' & E & Hok & F0 & R0).
  assert (random_game rnd n g = (g', Ret tt)) as E'.
  { rewrite random_game_eq in *.
    change (population (fst (reset g))) with (population g) in E.
    assert (fst (reset (fst (reset g))) = fst (reset g)) as HH.
    { unfold reset, modify. cbn [fst]. unfold set_squares_revealed, set_nflags,
        set_nmines, set_tab. simpl. f_equal.
      rewrite map_map. apply map_ext. intros rw. rewrite map_map.
      apply map_ext. intros s. reflexivity. }
    rewrite HH in E. exact E. }
  exists g', b. split; [|auto].
  unfold MinesweeperApp.new_game, bind, query.
  unfold reset at 1, modify. cbn [fst snd].
  change (set_squares_revealed 0 _) with (fst (reset g)).
  rewrite Eb, N. exact E.
Qed.

Lemma app_ok_new_game rnd g :
  keeps (app_ok nr nc n) g (fst (MinesweeperApp.new_game rnd g)).
Proof.
  intros H. destruct (new_game_returns rnd g H) as (g' & b & E & _ & _ & Hok & _).
  rewrite E. exact Hok.
Qed.

Lemma app_ok_game_over win yes rnd g :
  keeps (app_ok nr nc n) g (fst (MinesweeperApp.game_over win yes rnd g)).
Proof.
  unfold MinesweeperApp.game_over. destruct yes; [apply app_ok_new_game|apply keeps_refl].
Qed.

Lemma app_ok_left_click yl yw rl rw i j g :
  keeps (app_ok nr nc n) g (fst (MinesweeperApp.left_click_handler yl yw rl rw i j g)).
Proof.
  unfold MinesweeperApp.left_click_handler.
  apply keeps_bind; [apply keeps_refl|]. intros [|] g1; [apply keeps_refl|].
  apply keeps_bind.
  { apply keeps_bind; [apply keeps_refl|].
    intros [|] g2; [apply app_ok_chording|apply app_ok_reveal]. }
  intros _ g2. apply keeps_bind; [apply keeps_refl|]. intros _ g3.
  apply keeps_bind; [apply keeps_refl|]. intros lost g4.
  apply keeps_bind.
  { destruct lost; [apply app_ok_game_over|apply keeps_refl]. }
  intros _ g5. apply keeps_bind; [apply keeps_refl|]. intros won g6.
  destruct won; [apply app_ok_game_over|apply keeps_refl].
Qed.

Lemma app_ok_handle e g : keeps (app_ok nr nc n) g (fst (handle e g)).
Proof.
  destruct e as [i j yl yw rl rw|i j|rnd]; simpl.
  - apply app_ok_left_click.
  - apply app_ok_right_click.
  - apply app_ok_new_game.
Qed.

Lemma app_ok_start rnd : app_ok nr nc n (start nr nc n rnd).
Proof.
  destruct (app_ok_random_game rnd (init nr nc) (shape_ok_init nr nc))
    as (g' & E & H & _); [split; reflexivity|].
  unfold start. rewrite E. exact H.
Qed.

Lemma app_ok_play es : forall g, app_ok nr nc n g -> app_ok nr nc n (play es g).
Proof.
  unfold play. induction es as [|e es IH]; intros g H; simpl; [exact H|].
  apply IH, app_ok_handle, H.
Qed.

End App.

(** ** The handlers return *)





Section Returns.
Variables nr nc n : Z.
Hypothesis Hnr : 0 <= nr.
Hypothesis Hnc : 0 <= nc.
Hypothesis Hn : 0 <= n <= nr * nc.
Variables i j : Z.
Hypothesis Hi : 0 <= i < nr.
Hypothesis Hj : 0 <= j < nc.











End Returns.

(** ** The properties of the application *)

(** X14. In every state of the application, started on a board of [nr] by
    [nc] Squares with [n] mines and driven by any sequence of left clicks,
    right clicks and new games (any coordinates, any answers to the
    game-over dialogs, any random draws), the dimensions and the number of
    mines are those of the start, the table is well-shaped, [nflags],
    [squares_revealed] and [nmines] count the flagged, revealed and mined
    Squares, every [mines_nearby] is the number of mined neighbors, and no
    Square is both revealed and flagged. *)
Theorem app_invariants nr nc n rnd es :
  0 <= nr -> 0 <= nc -> 0 <= n <= nr * nc ->
  nrows (play es (start nr nc n rnd)) = nr /\
  ncols (play es (start nr nc n rnd)) = nc /\
  nmines (play es (start nr nc n rnd)) = n /\
  shape_ok (play es (start nr nc n rnd)) /\
  counts_ok (play es (start nr nc n rnd)) /\
  mines_ok (play es (start nr nc n rnd)) /\
  nearby_ok (play es (start nr nc n rnd)) /\
  nfr (play es (start nr nc n rnd)).
Proof.
  intros Hnr Hnc Hn.
  destruct (app_ok_play nr nc n Hnr Hnc Hn es _ (app_ok_start nr nc n Hnr Hnc Hn rnd))
    as ([R C] & H).
  split; [exact R|]. split; [exact C|]. exact H.
Qed.

Lemma app_invariants_witness :
  nrows (play [LeftClick 0 0 true true [] []; RightClick 1 1] (start 2 2 1 [3%nat])) = 2 /\
  ncols (play [LeftClick 0 0 true true [] []; RightClick 1 1] (start 2 2 1 [3%nat])) = 2 /\
  nmines (play [LeftClick 0 0 true true [] []; RightClick 1 1] (start 2 2 1 [3%nat])) = 1 /\
  shape_ok (play [LeftClick 0 0 true true [] []; RightClick 1 1] (start 2 2 1 [3%nat])) /\
  counts_ok (play [LeftClick 0 0 true true [] []; RightClick 1 1] (start 2 2 1 [3%nat])) /\
  mines_ok (play [LeftClick 0 0 true true [] []; RightClick 1 1] (start 2 2 1 [3%nat])) /\
  nearby_ok (play [LeftClick 0 0 true true [] []; RightClick 1 1] (start 2 2 1 [3%nat])) /\
  nfr (play [LeftClick 0 0 true true [] []; RightClick 1 1] (start 2 2 1 [3%nat])).
Proof.
  apply (app_invariants 2 2 1 [3%nat] [LeftClick 0 0 true true [] []; RightClick 1 1]); lia.
Defined.



(** ** A new game *)

Lemma count2_zero_cell (f : Square.t -> bool) tb p s :
  count2 f tb = 0%nat -> cell tb p = Some s -> f s = false.
Proof.
  intros H Hc. apply (count_if_zero_elem f (concat tb) s H).
  apply elem_of_concat_cell. eauto.
Qed.

Lemma draw_board_ext g1 g2 :
  nrows g1 = nrows g2 -> ncols g1 = ncols g2 ->
  (forall i j, inb g1 i j ->
     MinesweeperApp.draw_cell g1 i j = MinesweeperApp.draw_cell g2 i j) ->
  MinesweeperApp.draw_board g1 = MinesweeperApp.draw_board g2.
Proof.
  intros R C H. unfold MinesweeperApp.draw_board. rewrite <- R, <- C.
  apply map_res_ext. intros i Hi. apply map_res_ext. intros j Hj.
  apply elem_of_range in Hi, Hj. apply H. split; assumption.
Qed.

Lemma draw_cell_hidden g i j :
  is_revealed g i j = Ret false -> is_flagged g i j = Ret false ->
  MinesweeperApp.draw_cell g i j = Ret blank_button.
Proof.
  intros Er Ef. unfold MinesweeperApp.draw_cell. rewrite Er. simpl. rewrite Ef.
  reflexivity.
Qed.

(** X16. A new game in any state of the application returns and deals
    again the number of mines the application was started with: the new
    grid holds exactly [n] mines, nothing is revealed or flagged, the game
    is not lost, and it is won at once exactly when every Square holds a
    mine. The board that [new_game] draws after the reset, before the mines
    are dealt, is the board of the new grid: every button raised and
    empty. *)
Theorem new_game_redeals nr nc n rnd es rnd' :
  0 <= nr -> 0 <= nc -> 0 <= n <= nr * nc ->
  exists g',
    MinesweeperApp.new_game rnd' (play es (start nr nc n rnd)) = (g', Ret tt) /\
    nmines g' = n /\ Z.of_nat (count2 Square.mined (tab g')) = n /\
    nflags g' = 0 /\ squares_revealed g' = 0 /\
    (forall i j, 0 <= i < nr -> 0 <= j < nc ->
       is_revealed g' i j = Ret false /\ is_flagged g' i j = Ret false /\
       MinesweeperApp.draw_cell g' i j = Ret blank_button) /\
    game_lost g' = Ret false /\
    game_won g' = Ret (nr * nc =? n) /\
    MinesweeperApp.draw_board g' =
      MinesweeperApp.draw_board (fst (reset (play es (start nr nc n rnd)))).
Proof.
  intros Hnr Hnc Hn. set (g := play es (start nr nc n rnd)).
  pose proof (app_ok_play nr nc n Hnr Hnc Hn es _ (app_ok_start nr nc n Hnr Hnc Hn rnd))
    as Hg. fold g in Hg.
  destruct (new_game_returns nr nc n Hnr Hnc Hn rnd' g Hg)
    as (g' & b & E & Eb & _ & ([R C] & N & Hs & [Cf Cr] & Hm & _) & F0 & R0).
  exists g'. split; [exact E|]. split; [exact N|].
  split; [rewrite <- Hm; exact N|]. split; [exact F0|]. split; [exact R0|].
  assert (forall i j, 0 <= i < nr -> 0 <= j < nc ->
            is_revealed g' i j = Ret false /\ is_flagged g' i j = Ret false) as Hid.
  { intros i j Hi Hj.
    destruct (square_at_inb g' i j Hs) as (s & Hc & Es);
      [unfold inb; rewrite R, C; auto|].
    unfold is_revealed, is_flagged. rewrite Es. simpl.
    rewrite (count2_zero_cell Square.revealed (tab g') _ s) by (eauto; lia).
    rewrite (count2_zero_cell Square.flagged (tab g') _ s) by (eauto; lia).
    auto. }
  split.
  { intros i j Hi Hj. destruct (Hid i j Hi Hj) as [Er Ef].
    split; [exact Er|]. split; [exact Ef|]. apply draw_cell_hidden; assumption. }
  assert (game_lost g' = Ret false) as El.
  { apply no_mine_revealed_lost; [exact Hs|]. intros x y [Hx Hy] _.
    rewrite R in Hx. rewrite C in Hy. destruct (Hid x y Hx Hy) as [-> _]. discriminate. }
  split; [exact El|]. split.
  { unfold game_won. rewrite El. simpl. rewrite R, C, R0, N, Z.sub_0_r. reflexivity. }
  destruct Hg as ([R1 C1] & _ & Hs1 & _).
  apply draw_board_ext.
  - rewrite R. simpl. symmetry. exact R1.
  - rewrite C. simpl. symmetry. exact C1.
  - intros i j [Hi Hj]. rewrite R in Hi. rewrite C in Hj.
    destruct (Hid i j Hi Hj) as [Er Ef]. rewrite (draw_cell_hidden g' i j Er Ef).
    symmetry. apply draw_cell_hidden.
    + destruct (square_at_inb (fst (reset g)) i j (shape_ok_reset g Hs1))
        as (s & Hc & Es); [unfold inb; simpl; rewrite R1, C1; auto|].
      unfold is_revealed. rewrite Es. simpl.
      destruct (blank_reset g _ s Hc) as (-> & _). reflexivity.
    + destruct (square_at_inb (fst (reset g)) i j (shape_ok_reset g Hs1))
        as (s & Hc & Es); [unfold inb; simpl; rewrite R1, C1; auto|].
      unfold is_flagged. rewrite Es. simpl.
      destruct (blank_reset g _ s Hc) as (_ & -> & _). reflexivity.
Qed.

Lemma new_game_redeals_witness :
  exists g',
    MinesweeperApp.new_game [1%nat; 0%nat]
      (play [LeftClick 0 0 false false [] []] (start 2 2 2 [0%nat; 0%nat])) = (g', Ret tt) /\
    nmines g' = 2 /\ game_lost g' = Ret false /\ game_won g' = Ret false.
Proof.
  destruct (new_game_redeals 2 2 2 [0%nat; 0%nat] [LeftClick 0 0 false false [] []]
              [1%nat; 0%nat]) as (g' & E & N & _ & _ & _ & _ & El & Ew & _);
    [lia|lia|lia|].
  exists g'. auto.
Defined.

(** ** What the player sees *)

Lemma length_neighbors_le g i j : (length (neighbors g i j) <= 8)%nat.
Proof.
  rewrite neighbors_filter.
  etransitivity; [apply List.filter_length_le|]. reflexivity.
Qed.

Lemma draw_cell_app_ok nr nc n g i j :
  app_ok nr nc n g -> 0 <= i < nr -> 0 <= j < nc ->
  exists b,
    MinesweeperApp.draw_cell g i j = Ret b /\
    (MinesweeperApp.relief_of b = MinesweeperApp.SUNKEN <->
       is_revealed g i j = Ret true) /\
    (MinesweeperApp.image_of b = MinesweeperApp.flag_image <->
       is_flagged g i j = Ret true) /\
    (MinesweeperApp.image_of b = MinesweeperApp.mine_image <->
       is_revealed g i j = Ret true /\ mine_at g i j = Ret true) /\
    (forall k, MinesweeperApp.text_of b = Some k <->
       is_revealed g i j = Ret true /\ mine_at g i j = Ret false /\
       k = Z.of_nat (count_if (mined_at g) (neighbors g i j)) /\ 1 <= k <= 8).
Proof.
  intros ([R C] & _ & Hs & _ & _ & Hnb & Hf) Hi Hj.
  assert (inb g i j) as Hb by (unfold inb; rewrite R, C; auto).
  destruct (Hnb i j Hb) as (s & Es & Hc).
  destruct (square_at_inb g i j Hs Hb) as (s' & Hcell & Es').
  assert (s' = s) as -> by congruence.
  pose proof (Hf _ s Hcell) as Hrf.
  pose proof (count_if_le_length (mined_at g) (neighbors g i j)) as L1.
  pose proof (length_neighbors_le g i j) as L2.
  rewrite (draw_cell_square g i j s Es).
  unfold is_revealed, is_flagged, mine_at. rewrite Es. simpl.
  eexists. split; [reflexivity|].
  destruct (Square.revealed s) eqn:Er, (Square.mined s) eqn:Em,
           (Square.flagged s) eqn:Ef; simpl in *; try discriminate;
    try congruence;
    (split; [split; congruence|]);
    (split; [split; congruence|]);
    (split; [split; [intros ?; split; congruence|intros [? ?]; congruence]|]);
    intros k;
    try (split; [discriminate|intros (? & ? & _); congruence]).
  destruct (Square.mines_nearby s =? 0) eqn:E0.
  - apply Z.eqb_eq in E0. split; [discriminate|]. intros (_ & _ & -> & ?). lia.
  - apply Z.eqb_neq in E0. split.
    + intros [= <-]. repeat split; lia.
    + intros (_ & _ & -> & _). f_equal. exact Hc.
Qed.

(** X17. The board on screen tells the truth: in every state of the
    application, [draw_cell] on a button of the board returns, the button
    is sunken exactly when its Square is revealed, shows the flag exactly
    when the Square is flagged, shows the mine exactly when the Square is
    a revealed mine, and shows a number [k] exactly when the Square is
    revealed without a mine and [k], between 1 and 8, is the number of its
    neighbors that hold a mine. *)
Theorem draw_cell_shows_the_game nr nc n rnd es i j :
  0 <= nr -> 0 <= nc -> 0 <= n <= nr * nc ->
  0 <= i < nr -> 0 <= j < nc ->
  exists b,
    MinesweeperApp.draw_cell (play es (start nr nc n rnd)) i j = Ret b /\
    (MinesweeperApp.relief_of b = MinesweeperApp.SUNKEN <->
       is_revealed (play es (start nr nc n rnd)) i j = Ret true) /\
    (MinesweeperApp.image_of b = MinesweeperApp.flag_image <->
       is_flagged (play es (start nr nc n rnd)) i j = Ret true) /\
    (MinesweeperApp.image_of b = MinesweeperApp.mine_image <->
       is_revealed (play es (start nr nc n rnd)) i j = Ret true /\
       mine_at (play es (start nr nc n rnd)) i j = Ret true) /\
    (forall k, MinesweeperApp.text_of b = Some k <->
       is_revealed (play es (start nr nc n rnd)) i j = Ret true /\
       mine_at (play es (start nr nc n rnd)) i j = Ret false /\
       k = Z.of_nat (count_if (mined_at (play es (start nr nc n rnd)))
                              (neighbors (play es (start nr nc n rnd)) i j)) /\
       1 <= k <= 8).
Proof.
  intros Hnr Hnc Hn Hi Hj.
  apply (draw_cell_app_ok nr nc n); [|exact Hi|exact Hj].
  apply (app_ok_play nr nc n Hnr Hnc Hn), (app_ok_start nr nc n Hnr Hnc Hn).
Qed.

Lemma draw_cell_shows_the_game_witness :
  exists b,
    MinesweeperApp.draw_cell
      (play [LeftClick 0 0 false false [] []] (start 2 2 1 [3%nat])) 0 0 = Ret b /\
    MinesweeperApp.text_of b = Some 1.
Proof.
  destruct (draw_cell_shows_the_game 2 2 1 [3%nat] [LeftClick 0 0 false false [] []] 0 0)
    as (b & E & _ & _ & _ & Ht); [lia|lia|lia|lia|lia|].
  exists b. split; [exact E|]. apply Ht. vm_compute.
  repeat split; congruence.
Defined.

(** X18. The board on screen hides what is not revealed: two grids on
    which the same Squares are revealed and flagged, and whose revealed
    Squares hold the same mines and counts, are drawn the same, button by
    button, wherever the mines under the unrevealed Squares are. *)
Theorem draw_board_hides_mines g1 g2 :
  same_view g1 g2 ->
  MinesweeperApp.draw_board g1 = MinesweeperApp.draw_board g2.
Proof.
  intros (R & C & H). apply draw_board_ext; [exact R|exact C|].
  intros i j Hb. destruct (H i j Hb) as (Er & Ef & Hm).
  unfold MinesweeperApp.draw_cell. rewrite <- Er, <- Ef.
  destruct (is_revealed g1 i j) as [[|]|e|]; simpl; try reflexivity.
  destruct (Hm eq_refl) as [-> ->]. reflexivity.
Qed.

Lemma draw_board_hides_mines_witness :
  MinesweeperApp.draw_board (start 2 2 1 [0%nat]) =
  MinesweeperApp.draw_board (start 2 2 1 [3%nat]) /\
  mine_at (start 2 2 1 [0%nat]) 0 0 = Ret true /\
  mine_at (start 2 2 1 [3%nat]) 0 0 = Ret false.
Proof.
  split; [|split; reflexivity].
  apply (draw_board_hides_mines (start 2 2 1 [0%nat]) (start 2 2 1 [3%nat])).
  split; [reflexivity|]. split; [reflexivity|].
  intros i j [Hi Hj].
  change (nrows (start 2 2 1 [0%nat])) with 2 in Hi.
  change (ncols (start 2 2 1 [0%nat])) with 2 in Hj.
  assert (i = 0 \/ i = 1) as Ei by lia. assert (j = 0 \/ j = 1) as Ej by lia.
  destruct Ei as [-> | ->], Ej as [-> | ->];
    (split; [reflexivity|split; [reflexivity|intros H; vm_compute in H; discriminate H]]).
Defined.

(** ** Two right clicks *)

(** X19. A second right click undoes the first: at a position of the
    table, [right_click_handler(i, j)] called twice returns both times and
    gives back exactly the grid it started from, and a single right click
    on an unrevealed Square changes its flag. *)
Theorem right_click_twice g i j s :
  square_at g i j = Ret s ->
  MinesweeperApp.right_click_handler i j
    (fst (MinesweeperApp.right_click_handler i j g)) = (g, Ret tt) /\
  snd (MinesweeperApp.right_click_handler i j g) = Ret tt /\
  is_flagged (fst (MinesweeperApp.right_click_handler i j g)) i j =
    Ret (if Square.revealed s then Square.flagged s else negb (Square.flagged s)).
Proof.
  intros Es.
  assert (forall g0 s0, square_at g0 i j = Ret s0 ->
            MinesweeperApp.right_click_handler i j g0 =
              if Square.revealed s0 then (g0, Ret tt)
              else if Square.flagged s0 then remove_flag i j g0
                   else place_flag i j g0) as Hrc.
  { intros g0 s0 E0. rewrite right_click_handler_eq.
    unfold is_revealed, is_flagged. rewrite E0. simpl.
    destruct (Square.revealed s0), (Square.flagged s0); reflexivity. }
  rewrite (Hrc g s Es).
  destruct (Square.revealed s) eqn:Er.
  { cbn [fst snd]. rewrite (Hrc g s Es), Er.
    unfold is_flagged. rewrite Es. auto. }
  destruct (Square.flagged s) eqn:Ef.
  - destruct (remove_flag_then_place g i j s Es Ef) as (p & _ & E & Es' & Eu).
    rewrite E. cbn [fst snd]. rewrite (Hrc _ _ Es'). simpl. rewrite Er.
    unfold is_flagged. rewrite Es'. auto.
  - destruct (place_flag_then_remove g i j s Es Ef) as (p & _ & E & Es' & Eu).
    rewrite E. cbn [fst snd]. rewrite (Hrc _ _ Es'). simpl. rewrite Er.
    unfold is_flagged. rewrite Es'. auto.
Qed.

Lemma right_click_twice_witness :
  MinesweeperApp.right_click_handler 2 2
    (fst (MinesweeperApp.right_click_handler 2 2 chord_board)) = (chord_board, Ret tt) /\
  is_flagged (fst (MinesweeperApp.right_click_handler 2 2 chord_board)) 2 2 = Ret true.
Proof.
  destruct (right_click_twice chord_board 2 2 (Square.init 2 2)) as (E & _ & F).
  - reflexivity.
  - split; [exact E|exact F].
Defined.

(** ** Calling reveal or chording again *)




(** ** A lost game stays lost *)

Lemma lost_cell_alter h p k1 k2 k3 g :
  (forall s, Square.revealed s = true -> Square.revealed (h s) = true) ->
  (forall s, Square.mined s = true -> Square.mined (h s) = true) ->
  lost_cell g ->
  lost_cell (set_squares_revealed k1 (set_nflags k2 (set_nmines k3
               (set_tab (alter_cell h p (tab g)) g)))).
Proof.
  intros Hr Hm (q & s & Hc & Er & Em). exists q. simpl. rewrite cell_alter_cell.
  destruct (decide (p = q)) as [->|Hne].
  - exists (h s). rewrite Hc. simpl. auto.
  - exists s. auto.
Qed.

Lemma lost_cell_same_tab g g' : tab g' = tab g -> lost_cell g -> lost_cell g'.
Proof. intros E (q & s & H). exists q, s. rewrite E. exact H. Qed.

Lemma lost_cell_update_square i j h g :
  (forall s, Square.revealed s = true -> Square.revealed (h s) = true) ->
  (forall s, Square.mined s = true -> Square.mined (h s) = true) ->
  keeps lost_cell g (fst (update_square i j h g)).
Proof.
  intros Hr Hm Hg. unfold update_square.
  destruct (locate (tab g) i j) as [p|]; cbn [fst]; [|exact Hg].
  apply (lost_cell_same_tab _ _ eq_refl
           (lost_cell_alter h p (squares_revealed g) (nflags g) (nmines g) g Hr Hm Hg)).
Qed.

Lemma lost_cell_mark g i j p s :
  locate (tab g) i j = Some p -> cell (tab g) p = Some s ->
  Square.revealed s = false -> Square.flagged s = false ->
  keeps lost_cell g (mark p g).
Proof.
  intros _ _ _ _ Hg.
  apply (lost_cell_same_tab _ _ eq_refl
           (lost_cell_alter (Square.set_revealed true) p 0 0 0 g
              ltac:(reflexivity) ltac:(intros s0 H; exact H) Hg)).
Qed.

Lemma lost_cell_step o g : keeps_game o = true -> keeps lost_cell g (step o g).
Proof.
  unfold step. destruct o as [i j|i j|i j|i j|i j|rnd n|]; simpl; try discriminate;
    intros _.
  - apply keeps_reveal, lost_cell_mark.
  - apply keeps_chording, lost_cell_mark.
  - intros Hg. rewrite place_flag_eq.
    destruct (square_at g i j) as [s|e|]; cbn [fst]; try exact Hg.
    destruct (Square.flagged s); cbn [fst]; [exact Hg|].
    destruct (locate (tab g) i j) as [p|]; cbn [fst]; [|exact Hg].
    apply (lost_cell_same_tab _ _ eq_refl
             (lost_cell_alter (Square.set_flagged true) p 0 0 0 g
                ltac:(intros s0 H; exact H) ltac:(intros s0 H; exact H) Hg)).
  - intros Hg. rewrite remove_flag_eq.
    destruct (square_at g i j) as [s|e|]; cbn [fst]; try exact Hg.
    destruct (Square.flagged s); cbn [fst]; [|exact Hg].
    destruct (locate (tab g) i j) as [p|]; cbn [fst]; [|exact Hg].
    apply (lost_cell_same_tab _ _ eq_refl
             (lost_cell_alter (Square.set_flagged false) p 0 0 0 g
                ltac:(intros s0 H; exact H) ltac:(intros s0 H; exact H) Hg)).
  - unfold place_mine. apply keeps_bind; [apply keeps_refl|]. intros s g1.
    destruct (Square.mined s); [apply keeps_refl|].
    apply keeps_bind.
    { apply lost_cell_update_square; [intros s0 H; exact H|reflexivity]. }
    intros _ g2. apply keeps_bind; [apply keeps_refl|]. intros ns g3.
    apply keeps_bind.
    { apply keeps_for_each. intros [x y] g4.
      apply lost_cell_update_square; intros s0 H; exact H. }
    intros _ g4 H. exact (lost_cell_same_tab g4 _ eq_refl H).
Qed.

Lemma lost_cell_game_lost g : shape_ok g -> (game_lost g = Ret true <-> lost_cell g).
Proof.
  intros Hs. destruct (game_lost_total g Hs) as (lost & El & Hl). rewrite El. split.
  - intros [= ->]. destruct (proj1 Hl eq_refl) as (i & j & Hb & Em & Er).
    destruct (square_at_inb g i j Hs Hb) as (s & Hc & Es).
    unfold mine_at, is_revealed in *. rewrite Es in *. simpl in *.
    exists (Z.to_nat i, Z.to_nat j), s. split; [exact Hc|]. split; congruence.
  - intros ([r c] & s & Hc & Er & Em).
    destruct (cell_square_at g r c s Hs Hc) as [Hb Es].
    f_equal. apply Hl. exists (Z.of_nat r), (Z.of_nat c). split; [exact Hb|].
    unfold mine_at, is_revealed. rewrite Es. simpl. rewrite Er, Em. auto.
Qed.

(** X21. A lost game stays lost: on a well-shaped board, once [game_lost]
    returns True it returns True after any sequence of [reveal],
    [chording], [place_flag], [remove_flag] and [place_mine] calls, with
    any arguments and whether they return or raise; only [reset] and
    [random_game] end a lost game. *)
Theorem game_lost_persists os : forall g,
  shape_ok g -> game_lost g = Ret true -> forallb keeps_game os = true ->
  game_lost (run os g) = Ret true.
Proof.
  unfold run. induction os as [|o os IH]; intros g Hs Hl Hos; simpl; [exact Hl|].
  simpl in Hos. apply andb_true_iff in Hos. destruct Hos as [Ho Hos].
  apply IH; [apply shape_ok_step, Hs| |exact Hos].
  apply (lost_cell_game_lost _ (shape_ok_step o g Hs)).
  apply (lost_cell_step o g Ho). apply (lost_cell_game_lost g Hs), Hl.
Qed.

Lemma game_lost_persists_witness :
  game_lost (run [Reveal 0 0; PlaceFlag 1 1; Chord 0 0; RemoveFlag 5 5; PlaceMine 0 1]
               (fst (reveal 2 2 board_3x3))) = Ret true.
Proof.
  apply game_lost_persists.
  - split; [reflexivity|]. vm_compute. repeat constructor.
  - reflexivity.
  - reflexivity.
Defined.

(** ** A new game is a restart *)

Lemma coords_ok_new_game rnd g :
  keeps coords_ok g (fst (MinesweeperApp.new_game rnd g)).
Proof.
  unfold MinesweeperApp.new_game.
  apply keeps_bind; [apply keeps_refl|]. intros n g1.
  apply keeps_bind; [apply coords_ok_reset|]. intros _ g2.
  apply keeps_bind; [apply keeps_refl|]. intros _ g3.
  exact (coords_ok_step (NewGame rnd n) g3).
Qed.

Lemma coords_ok_handle e g : keeps coords_ok g (fst (handle e g)).
Proof.
  destruct e as [i j yl yw rl rw|i j|rnd]; simpl.
  - unfold MinesweeperApp.left_click_handler, MinesweeperApp.game_over.
    apply keeps_bind; [apply keeps_refl|]. intros [|] g1; [apply keeps_refl|].
    apply keeps_bind.
    { apply keeps_bind; [apply keeps_refl|].
      intros [|] g2;
        [exact (coords_ok_step (Chord i j) g2)|exact (coords_ok_step (Reveal i j) g2)]. }
    intros _ g2. apply keeps_bind; [apply keeps_refl|]. intros _ g3.
    apply keeps_bind; [apply keeps_refl|]. intros lost g4.
    apply keeps_bind.
    { destruct lost, yl; try apply keeps_refl. apply coords_ok_new_game. }
    intros _ g5. apply keeps_bind; [apply keeps_refl|]. intros won g6.
    destruct won, yw; try apply keeps_refl. apply coords_ok_new_game.
  - rewrite right_click_handler_eq.
    destruct (is_revealed g i j) as [[|]|e|]; cbn [fst]; try apply keeps_refl.
    destruct (is_flagged g i j) as [[|]|e|]; cbn [fst]; try apply keeps_refl.
    + exact (coords_ok_step (RemoveFlag i j) g).
    + exact (coords_ok_step (PlaceFlag i j) g).
  - apply coords_ok_new_game.
Qed.

Lemma coords_ok_play es : forall g, coords_ok g -> coords_ok (play es g).
Proof.
  unfold play. induction es as [|e es IH]; intros g H; simpl; [exact H|].
  apply IH, coords_ok_handle, H.
Qed.

(** X22. A new game is a restart: in every state of the application,
    [new_game] returns and leaves exactly the grid on which the program
    would start with the same random draws, [GameGrid(nr, nc)] followed by
    [random_game(n)]; nothing of the game played before remains. *)
Theorem new_game_is_restart nr nc n rnd es rnd' :
  0 <= nr -> 0 <= nc -> 0 <= n <= nr * nc ->
  MinesweeperApp.new_game rnd' (play es (start nr nc n rnd))
  = (start nr nc n rnd', Ret tt).
Proof.
  intros Hnr Hnc Hn. set (g := play es (start nr nc n rnd)).
  pose proof (app_ok_play nr nc n Hnr Hnc Hn es _ (app_ok_start nr nc n Hnr Hnc Hn rnd))
    as Hg. fold g in Hg.
  assert (coords_ok g) as Hco.
  { apply coords_ok_play. exact (coords_ok_step (NewGame rnd n) _ (coords_ok_init nr nc)). }
  destruct (new_game_returns nr nc n Hnr Hnc Hn rnd' g Hg) as (g' & b & E & _ & Er & _).
  rewrite E. f_equal.
  destruct Hg as ([R C] & _ & Hs & _).
  unfold start. rewrite random_game_eq in *.
  assert (population g = population (init nr nc)) as Hp.
  { unfold population. rewrite R, C. reflexivity. }
  rewrite (reset_is_init g Hs Hco), R, C, Hp in Er.
  rewrite (reset_is_init (init nr nc) (shape_ok_init nr nc) (coords_ok_init nr nc)).
  cbn [nrows ncols init]. rewrite Er. reflexivity.
Qed.

Lemma new_game_is_restart_witness :
  MinesweeperApp.new_game [1%nat]
    (play [RightClick 0 1; LeftClick 0 0 false false [] []] (start 2 2 1 [3%nat]))
  = (start 2 2 1 [1%nat], Ret tt).
Proof.
  apply (new_game_is_restart 2 2 1 [3%nat]
           [RightClick 0 1; LeftClick 0 0 false false [] []] [1%nat]); lia.
Defined.

(** ** The grid as text *)

Lemma join_chars (f : Square.t -> string) (ch : Square.t -> ascii) rw :
  (forall s, s ∈ rw -> f s = String (ch s) EmptyString) ->
  String.length (join EmptyString (map f rw)) = length rw /\
  forall c s, rw !! c = Some s -> String.get c (join EmptyString (map f rw)) = Some (ch s).
Proof.
  unfold join. induction rw as [|x rw IH]; intros H.
  - split; [reflexivity|]. intros c s Hc. discriminate.
  - assert (String.concat EmptyString (map f (x :: rw))
            = String (ch x) (String.concat EmptyString (map f rw))) as E.
    { cbn [map String.concat]. rewrite (H x) by left.
      destruct (map f rw); reflexivity. }
    rewrite E. destruct IH as [L G]; [intros s Hs; apply H; right; exact Hs|].
    split; [simpl; rewrite L; reflexivity|].
    intros [|c] s Hc; simpl in Hc |- *.
    + injection Hc as <-. reflexivity.
    + apply G, Hc.
Qed.

Lemma count_char_digit k :
  0 <= k <= 8 ->
  (if k =? 0 then "."%string else str_int k) = String (count_char k) EmptyString /\
  count_char k <> "010"%char /\ count_char k <> "*"%char /\ count_char k <> "#"%char.
Proof.
  intros H.
  assert (k = 0 \/ k = 1 \/ k = 2 \/ k = 3 \/ k = 4 \/ k = 5 \/ k = 6 \/ k = 7 \/ k = 8)
    as Hk by lia.
  repeat (destruct Hk as [->|Hk]); try subst k;
    (split; [reflexivity|split; [discriminate|split; discriminate]]).
Qed.

Lemma nearby_ok_cell g r c s :
  shape_ok g -> nearby_ok g -> cell (tab g) (r, c) = Some s ->
  0 <= Square.mines_nearby s <= 8.
Proof.
  intros Hs Hn Hc. destruct (cell_square_at g r c s Hs Hc) as [Hb Es].
  destruct (Hn _ _ Hb) as (s' & Es' & Hk). assert (s' = s) as -> by congruence.
  pose proof (count_if_le_length (mined_at g) (neighbors g (Z.of_nat r) (Z.of_nat c))).
  pose proof (length_neighbors_le g (Z.of_nat r) (Z.of_nat c)). lia.
Qed.

Lemma picture_of_table (f : Square.t -> string) (ch : Square.t -> ascii) tb :
  (forall r c s, cell tb (r, c) = Some s ->
     f s = String (ch s) EmptyString /\ ch s <> "010"%char) ->
  picture ch tb (join newline (map (fun line => join EmptyString (map f line)) tb)).
Proof.
  intros H. eexists. split; [reflexivity|]. split; [apply length_map|].
  intros r rw Hr. eexists. rewrite list_lookup_fmap, Hr. split; [reflexivity|].
  assert (forall c s, rw !! c = Some s ->
            f s = String (ch s) EmptyString /\ ch s <> "010"%char) as Hrw.
  { intros c s Hc. apply (H r c). unfold cell. simpl. rewrite Hr. exact Hc. }
  destruct (join_chars f ch rw) as [L G].
  { intros s Hs. apply list_elem_of_lookup in Hs. destruct Hs as [c Hc].
    apply (Hrw c s Hc). }
  split; [exact L|]. intros c s Hc. split; [apply G, Hc|apply (Hrw c s Hc)].
Qed.

(** X23. On a well-shaped grid whose counts are exact, [str(grid)] and
    [grid.str_for_player()] are pictures of the board: one line per row,
    joined by newlines, and in every line exactly one character per
    Square: for [str], ['*'] for a mine, ['.'] for no mine around and the
    digit of [mines_nearby] (1 to 8) otherwise; for [str_for_player], ['#']
    for a Square that is not revealed and the same character as [str]
    for one that is. *)
Theorem str_is_a_picture g :
  shape_ok g -> nearby_ok g ->
  picture (fun s => if Square.mined s then "*"%char
                    else count_char (Square.mines_nearby s))
          (tab g) (GameGrid.str g) /\
  picture (fun s => if negb (Square.revealed s) then "#"%char
                    else if Square.mined s then "*"%char
                    else count_char (Square.mines_nearby s))
          (tab g) (GameGrid.str_for_player g) /\
  (forall s, s ∈ concat (tab g) -> 0 <= Square.mines_nearby s <= 8).
Proof.
  intros Hs Hn. split; [|split].
  - apply picture_of_table. intros r c s Hc.
    destruct (count_char_digit _ (nearby_ok_cell g r c s Hs Hn Hc)) as (E & N & _).
    unfold Square.str. destruct (Square.mined s); [split; [reflexivity|discriminate]|].
    split; [exact E|exact N].
  - apply picture_of_table. intros r c s Hc.
    destruct (count_char_digit _ (nearby_ok_cell g r c s Hs Hn Hc)) as (E & N & _).
    unfold Square.str_for_player.
    destruct (Square.revealed s); simpl; [|split; [reflexivity|discriminate]].
    destruct (Square.mined s); [split; [reflexivity|discriminate]|].
    split; [exact E|exact N].
  - intros s Hin. apply elem_of_concat_cell in Hin. destruct Hin as [[r c] Hc].
    apply (nearby_ok_cell g r c s Hs Hn Hc).
Qed.

Lemma str_is_a_picture_witness :
  picture (fun s => if Square.mined s then "*"%char
                    else count_char (Square.mines_nearby s))
          (tab revealed_3x3) (GameGrid.str revealed_3x3) /\
  GameGrid.str revealed_3x3
  = ("..." +:+ newline +:+ ".11" +:+ newline +:+ ".1*")%string /\
  GameGrid.str_for_player revealed_3x3
  = ("..." +:+ newline +:+ ".11" +:+ newline +:+ ".1#")%string.
Proof.
  split; [|split; reflexivity].
  apply (str_is_a_picture revealed_3x3).
  - split; [reflexivity|]. vm_compute. repeat constructor.
  - apply (nearby_ok_frame board_3x3).
    + apply sq_frame_reveal_rec.
    + exact nearby_ok_board_3x3.
Defined.



(** ** The order in which mines are placed *)

Lemma tab_ext g1 g2 :
  shape_ok g1 -> shape_ok g2 ->
  nrows g1 = nrows g2 -> ncols g1 = ncols g2 ->
  (forall a b, inb g1 a b -> square_at g1 a b = square_at g2 a b) ->
  tab g1 = tab g2.
Proof.
  intros Hs1 Hs2 R C H. pose proof Hs1 as [L1 F1]. pose proof Hs2 as [L2 F2].
  apply list_eq. intros r.
  destruct (tab g1 !! r) as [rw1|] eqn:E1, (tab g2 !! r) as [rw2|] eqn:E2.
  - f_equal.
    pose proof (Forall_lookup_1 _ _ _ _ F1 E1) as Lr1.
    pose proof (Forall_lookup_1 _ _ _ _ F2 E2) as Lr2. simpl in Lr1, Lr2.
    apply list_eq. intros c.
    destruct (rw1 !! c) as [s1|] eqn:Ec1, (rw2 !! c) as [s2|] eqn:Ec2.
    + destruct (cell_square_at g1 r c s1 Hs1) as [Hb Es1];
        [unfold cell; simpl; rewrite E1; exact Ec1|].
      destruct (cell_square_at g2 r c s2 Hs2) as [_ Es2];
        [unfold cell; simpl; rewrite E2; exact Ec2|].
      rewrite (H _ _ Hb) in Es1. congruence.
    + apply lookup_lt_Some in Ec1. apply lookup_ge_None in Ec2. lia.
    + apply lookup_ge_None in Ec1. apply lookup_lt_Some in Ec2. lia.
    + reflexivity.
  - apply lookup_lt_Some in E1. apply lookup_ge_None in E2. lia.
  - apply lookup_ge_None in E1. apply lookup_lt_Some in E2. lia.
  - reflexivity.
Qed.

Lemma grid_ext g1 g2 :
  shape_ok g1 -> shape_ok g2 ->
  nrows g1 = nrows g2 -> ncols g1 = ncols g2 -> nmines g1 = nmines g2 ->
  nflags g1 = nflags g2 -> squares_revealed g1 = squares_revealed g2 ->
  (forall a b, inb g1 a b -> square_at g1 a b = square_at g2 a b) ->
  g1 = g2.
Proof.
  intros Hs1 Hs2 R C M F Q H. pose proof (tab_ext g1 g2 Hs1 Hs2 R C H) as T.
  destruct g1, g2. simpl in *. subst. reflexivity.
Qed.

Lemma mine_effect_mined g i j a b s :
  Square.mined (mine_effect g i j a b s)
  = Square.mined s || bool_decide ((a, b) = (i, j)).
Proof.
  unfold mine_effect.
  destruct (decide ((a, b) = (i, j))) as [E|E];
    [rewrite (bool_decide_eq_true_2 _ E)|rewrite (bool_decide_eq_false_2 _ E)];
    destruct (decide ((a, b) ∈ neighbors g i j)); simpl;
    rewrite ?orb_true_r, ?orb_false_r; reflexivity.
Qed.

Lemma place_mine_cases i j g :
  shape_ok g -> inb g i j ->
  exists s g', square_at g i j = Ret s /\ place_mine i j g = (g', Ret tt) /\
    shape_ok g' /\ nrows g' = nrows g /\ ncols g' = ncols g /\
    ((Square.mined s = true /\ g' = g) \/
     (Square.mined s = false /\ mined_step i j g g')).
Proof.
  intros Hs Hb. destruct (square_at_inb g i j Hs Hb) as (s & _ & Es).
  destruct (Square.mined s) eqn:Em.
  - exists s, g. rewrite (place_mine_again i j g s Es Em). auto 10.
  - destruct (place_mine_fresh i j g s Hs Hb Es Em) as (g' & E & St).
    exists s, g'. pose proof St as (S' & R & C & _). auto 10.
Qed.

Lemma place_mine_commute g i j k l :
  shape_ok g -> inb g i j -> inb g k l ->
  fst (place_mine k l (fst (place_mine i j g)))
  = fst (place_mine i j (fst (place_mine k l g))).
Proof.
  intros Hs Hij Hkl.
  destruct (decide ((i, j) = (k, l))) as [[= -> ->]|Hne]; [reflexivity|].
  destruct (place_mine_cases i j g Hs Hij) as (s1 & g1 & Es1 & E1 & S1 & R1 & C1 & D1).
  destruct (place_mine_cases k l g Hs Hkl) as (s2 & g2 & Es2 & E2 & S2 & R2 & C2 & D2).
  rewrite E1, E2. cbn [fst].
  assert (inb g1 k l) as Hkl1 by (unfold inb; rewrite R1, C1; exact Hkl).
  assert (inb g2 i j) as Hij2 by (unfold inb; rewrite R2, C2; exact Hij).
  destruct (place_mine_cases k l g1 S1 Hkl1)
    as (s12 & g12 & Es12 & E12 & S12 & R12 & C12 & D12).
  destruct (place_mine_cases i j g2 S2 Hij2)
    as (s21 & g21 & Es21 & E21 & S21 & R21 & C21 & D21).
  rewrite E12, E21. cbn [fst].
  assert (Square.mined s12 = Square.mined s2) as M12.
  { destruct D1 as [[_ ->]|[_ St]]; [congruence|].
    destruct St as (_ & _ & _ & _ & _ & _ & L).
    destruct (L k l Hkl) as (s & Es & Es'). 
    assert (s = s2) as -> by congruence.
    assert (s12 = mine_effect g i j k l s2) as -> by congruence.
    rewrite mine_effect_mined, bool_decide_eq_false_2, orb_false_r by congruence.
    reflexivity. }
  assert (Square.mined s21 = Square.mined s1) as M21.
  { destruct D2 as [[_ ->]|[_ St]]; [congruence|].
    destruct St as (_ & _ & _ & _ & _ & _ & L).
    destruct (L i j Hij) as (s & Es & Es').
    assert (s = s1) as -> by congruence.
    assert (s21 = mine_effect g k l i j s1) as -> by congruence.
    rewrite mine_effect_mined, bool_decide_eq_false_2, orb_false_r by congruence.
    reflexivity. }
  destruct D1 as [[Em1 ->]|[Em1 St1]], D2 as [[Em2 ->]|[Em2 St2]];
    destruct D12 as [[Em12 ->]|[Em12 St12]], D21 as [[Em21 ->]|[Em21 St21]];
    try congruence.
  destruct St1 as (_ & _ & _ & N1 & F1 & Q1 & L1).
  destruct St2 as (_ & _ & _ & N2 & F2 & Q2 & L2).
  destruct St12 as (_ & _ & _ & N12 & F12 & Q12 & L12).
  destruct St21 as (_ & _ & _ & N21 & F21 & Q21 & L21).
  apply grid_ext; try assumption; try congruence; try lia.
  intros a b Hab.
  assert (inb g a b) as Hab0 by (unfold inb in *; rewrite <- R1, <- R12, <- C1, <- C12; exact Hab).
  assert (inb g1 a b) as Hab1 by (unfold inb; rewrite R1, C1; exact Hab0).
  assert (inb g2 a b) as Hab2 by (unfold inb; rewrite R2, C2; exact Hab0).
  destruct (L1 a b Hab0) as (s & Es & Es1').
  destruct (L2 a b Hab0) as (s' & Es' & Es2'). assert (s' = s) as -> by congruence.
  destruct (L12 a b Hab1) as (t1 & Et1 & Et1').
  destruct (L21 a b Hab2) as (t2 & Et2 & Et2').
  rewrite Et1', Et2'. f_equal.
  assert (t1 = mine_effect g i j a b s) as -> by congruence.
  assert (t2 = mine_effect g k l a b s) as -> by congruence.
  unfold mine_effect.
  rewrite (neighbors_dims g g1 k l R1 C1), (neighbors_dims g g2 i j R2 C2).
  destruct (decide ((a, b) = (i, j))), (decide ((a, b) = (k, l))),
           (decide ((a, b) ∈ neighbors g i j)), (decide ((a, b) ∈ neighbors g k l));
    try congruence; destruct s; reflexivity.
Qed.

(** X25. The order in which mines are placed does not matter: on a
    well-shaped board, placing mines at the positions of a list (of
    positions of the board, repetitions allowed) and at the positions of
    any permutation of it both return and leave the same grid, Square by
    Square and counter by counter. *)
Theorem place_mine_order_irrelevant ps ps' :
  ps ≡ₚ ps' ->
  forall g, shape_ok g -> (forall i j, (i, j) ∈ ps -> inb g i j) ->
  for_each ps (fun '(i, j) => place_mine i j) g
  = for_each ps' (fun '(i, j) => place_mine i j) g /\
  snd (for_each ps (fun '(i, j) => place_mine i j) g) = Ret tt.
Proof.
  induction 1 as [|[x y] l l' HP IH|[x y] [x' y'] l|l l' l'' HP1 IH1 HP2 IH2];
    intros g Hs Hin.
  - split; reflexivity.
  - cbn [for_each]. unfold bind.
    destruct (place_mine_cases x y g Hs) as (s & g1 & _ & E & S1 & R1 & C1 & _);
      [apply Hin; left|].
    rewrite E. apply IH; [exact S1|].
    intros i j H. unfold inb. rewrite R1, C1. apply Hin. right. exact H.
  - assert (inb g x y) as Hxy by (apply Hin; right; left).
    assert (inb g x' y') as Hxy' by (apply Hin; left).
    pose proof (place_mine_commute g x y x' y' Hs Hxy Hxy') as Hc.
    destruct (place_mine_cases x y g Hs Hxy) as (s1 & g1 & _ & E1 & S1 & R1 & C1 & _).
    destruct (place_mine_cases x' y' g Hs Hxy') as (s2 & g2 & _ & E2 & S2 & R2 & C2 & _).
    destruct (place_mine_cases x' y' g1 S1) as (s12 & g12 & _ & E12 & S12 & R12 & C12 & _);
      [unfold inb; rewrite R1, C1; exact Hxy'|].
    destruct (place_mine_cases x y g2 S2) as (s21 & g21 & _ & E21 & S21 & R21 & C21 & _);
      [unfold inb; rewrite R2, C2; exact Hxy|].
    rewrite E1, E2 in Hc. cbn [fst] in Hc. rewrite E12, E21 in Hc. cbn [fst] in Hc.
    subst g21.
    cbn [for_each]. unfold bind. rewrite E1, E2, E12, E21. split; [reflexivity|].
    clear E1 E2 E12 E21.
    assert (forall i j, (i, j) ∈ l -> inb g12 i j) as Hl.
    { intros i j H. unfold inb. rewrite R12, R1, C12, C1. apply Hin. do 2 right. exact H. }
    clear - S12 Hl. revert g12 S12 Hl.
    induction l as [|[i j] l IHl]; intros g Hs Hl; [reflexivity|].
    cbn [for_each]. unfold bind.
    destruct (place_mine_cases i j g Hs) as (s & g1 & _ & E & S1 & R1 & C1 & _);
      [apply Hl; left|].
    rewrite E. apply IHl; [exact S1|].
    intros a b H. unfold inb. rewrite R1, C1. apply Hl. right. exact H.
  - destruct (IH1 g Hs Hin) as [E1 T1].
    destruct (IH2 g Hs) as [E2 T2].
    { intros i j H. apply Hin. rewrite HP1. exact H. }
    split; [congruence|exact T1].
Qed.

Lemma place_mine_order_irrelevant_witness :
  for_each [(0, 0); (1, 1); (0, 0)] (fun '(i, j) => place_mine i j) (init 3 3)
  = for_each [(1, 1); (0, 0); (0, 0)] (fun '(i, j) => place_mine i j) (init 3 3).
Proof.
  apply (place_mine_order_irrelevant [(0, 0); (1, 1); (0, 0)] [(1, 1); (0, 0); (0, 0)]).
  - apply perm_swap.
  - apply shape_ok_init.
  - intros i j H. apply list_elem_of_In in H. simpl in H.
    unfold inb. simpl.
    destruct H as [[= <- <-]|[[= <- <-]|[[= <- <-]|[]]]]; lia.
Defined.
